(** * ReList Pro: the capture / enhance / analyze / persist pipeline

    A shallow embedding of the analysis pipeline of the application:
    - the server routes: [generateUKPricing] and the routes
      [/api/analyze-stream] and [/api/analyze] that [registerRoutes]
      registers;
    - [upload.tsx]: the session state of [UploadScreen] and its operations
      ([addImageFromResult], [capturePhoto], [pickFromGallery],
      [removeImage], [proceedToAnalyze], [resetAll]);
    - [settings.tsx]: the state of [SettingsScreen] with [handleSave] and
      [handleClear];
    - the type declarations [ImageItem] and [ListingDraft].

    JavaScript strings are modelled as [string] (sequences of 8-bit
    characters), JavaScript numbers as exact rationals ([Q]) where the code
    computes with fractions (in [Rounded] with the rounding of doubles after
    each operation) and as [Z] where it holds integers.  What the
    code obtains from its platform (the model's answer, the camera, the
    network, the random numbers, the clock) is an argument of the function
    that models it. *)

From Stdlib Require Import ZArith QArith Qround Lqa Lia Ascii.
From stdpp Require Import base option list strings gmap.

Local Close Scope Q_scope.
Local Open Scope Z_scope.
Local Open Scope string_scope.

(** ** JavaScript string primitives used by the code *)
Module JsString.

(** The line feed, [\n]. *)
Definition LF : string := String "010" "".

(** [s.startsWith(p)] *)
Definition startsWith (s p : string) : bool := String.prefix p s.

(** [s.includes(sub)] *)
Fixpoint includes (s sub : string) : bool :=
  String.prefix sub s ||
  match s with
  | EmptyString => false
  | String _ s' => includes s' sub
  end.

(** [s.slice(n)] for a non-negative [n] *)
Fixpoint slice_from (n : nat) (s : string) : string :=
  match n, s with
  | O, _ => s
  | S _, EmptyString => EmptyString
  | S n', String _ s' => slice_from n' s'
  end.

Definition lower_ascii (c : ascii) : ascii :=
  let n := nat_of_ascii c in
  if (65 <=? n)%nat && (n <=? 90)%nat then ascii_of_nat (n + 32) else c.

(** [s.toLowerCase()] on the characters of the model *)
Fixpoint toLowerCase (s : string) : string :=
  match s with
  | EmptyString => EmptyString
  | String c s' => String (lower_ascii c) (toLowerCase s')
  end.

(** The characters below 128 that [trim] removes: TAB, LF, VT, FF, CR and
    space.  [String.prototype.trim] also removes U+00A0, U+FEFF, U+2028,
    U+2029 and the space separators of Unicode, which are no characters
    below 128: a text that has one of these at an end is outside of what
    [trim] below describes. *)
Definition is_space (c : ascii) : bool :=
  let n := nat_of_ascii c in
  ((9 <=? n)%nat && (n <=? 13)%nat) || (n =? 32)%nat.

Fixpoint trimStart (s : string) : string :=
  match s with
  | EmptyString => EmptyString
  | String c s' => if is_space c then trimStart s' else s
  end.

Fixpoint trimEnd (s : string) : string :=
  match s with
  | EmptyString => EmptyString
  | String c s' =>
      match trimEnd s' with
      | EmptyString => if is_space c then EmptyString else String c EmptyString
      | t => String c t
      end
  end.

(** [s.trim()] *)
Definition trim (s : string) : string := trimEnd (trimStart s).

(** [s.split(sep)] for a non-empty separator: [skip] counts the characters
    of a separator occurrence that are still to be dropped, [cur] is the
    piece being read. *)
Fixpoint split_go (sep : string) (skip : nat) (cur : string) (s : string)
  : list string :=
  match s with
  | EmptyString => [cur]
  | String c s' =>
      match skip with
      | S k => split_go sep k cur s'
      | O =>
          if String.prefix sep s
          then cur :: split_go sep (String.length sep - 1) EmptyString s'
          else split_go sep O (cur ++ String c EmptyString) s'
      end
  end.

Definition split (s sep : string) : list string := split_go sep O EmptyString s.

(** [parts.join(sep)] *)
Definition join (parts : list string) (sep : string) : string :=
  String.concat sep parts.

(** [s.replace(/LIT\n?/g, "")]: every occurrence of the literal [lit]
    (leftmost first, not overlapping), together with one line feed that
    follows it when there is one, is removed.  [skip] counts the characters
    of the occurrence still to be dropped and [nl] says that an occurrence
    has just ended. *)
Fixpoint remove_go (lit : string) (skip : nat) (nl : bool) (s : string) : string :=
  match s with
  | EmptyString => EmptyString
  | String c s' =>
      match skip with
      | S k => remove_go lit k nl s'
      | O =>
          if nl && Ascii.eqb c "010"
          then remove_go lit O false s'
          else if String.prefix lit s
          then remove_go lit (String.length lit - 1) true s'
          else String c (remove_go lit O false s')
      end
  end.

Definition remove_all_opt_nl (lit s : string) : string := remove_go lit O false s.

End JsString.

(** ** [generateUKPricing] *)
Module Pricing.
Import JsString.

Definition brandPrices : list (string * Z) :=
  [ ("nike", 22); ("adidas", 20); ("zara", 12); ("h&m", 8); ("gucci", 95);
    ("prada", 85); ("ralph lauren", 30); ("levi", 18); ("uniqlo", 10);
    ("gap", 9); ("north face", 35); ("patagonia", 40); ("carhartt", 28);
    ("tommy hilfiger", 25); ("superdry", 16); ("primark", 5); ("asos", 8);
    ("river island", 10); ("topshop", 12); ("ted baker", 25);
    ("burberry", 75); ("barbour", 45) ].

Definition conditionMultipliers : list (string * Q) :=
  [ ("new with tags", 1%Q); ("like new", 0.85%Q); ("very good", 0.7%Q);
    ("good", 0.55%Q); ("satisfactory", 0.4%Q) ].

(** [for (const [key, v] of Object.entries(table)) if (text.includes(key))
    { x = v; break; }] starting from [x = default]. *)
Fixpoint first_match {A} (text : string) (table : list (string * A)) (default : A) : A :=
  match table with
  | [] => default
  | (key, v) :: rest =>
      if includes text key then v else first_match text rest default
  end.

(** [Math.round]: the nearest integer, halves rounded up. *)
Definition Math_round (x : Q) : Z := Qfloor (x + 0.5)%Q.

Record pricing := {
  quickSellPrice : Z;
  maxProfitPrice : Z;
  sellProbability : Z;
}.

(** [rand1] and [rand2] are the values of the two [Math.random()] calls, in
    the order in which the function makes them.  The arithmetic is exact
    here; [Rounded.generateUKPricing_fl] below rounds as doubles do. *)
Definition generateUKPricing (brand condition : string) (rand1 rand2 : Q) : pricing :=
  let brandKey := toLowerCase brand in
  let basePrice := first_match brandKey brandPrices 15 in
  let condMult := first_match (toLowerCase condition) conditionMultipliers 0.7%Q in
  let maxProfit :=
    Z.max 3 (Math_round (inject_Z basePrice * condMult + rand1 * 5)%Q) in
  let quickSell := Z.max 2 (Math_round (inject_Z maxProfit * 0.65)%Q) in
  let baseProbability :=
    Z.min 99
      (Z.max 15
         (Math_round (60 * condMult + rand2 * 20
                      + (if (20 <? basePrice)%Z then 10 else 0))%Q)) in
  {| quickSellPrice := quickSell;
     maxProfitPrice := maxProfit;
     sellProbability := baseProbability |}.

End Pricing.

(** ** JavaScript values as they appear in JSON texts *)
Module Js.
Import JsString.

Local Set Warnings "-register-all".

(** A value produced by [JSON.parse]; numbers are the integers. *)
Inductive json : Type :=
| JNull
| JBool (b : bool)
| JNum (n : Z)
| JStr (s : string)
| JArr (items : list json)
| JObj (fields : list (string * json)).

(** Reading and writing an own property of an object: a property keeps the
    position of its first assignment and the value of its last one. *)
Fixpoint obj_get (k : string) (fields : list (string * json)) : option json :=
  match fields with
  | [] => None
  | (k', v) :: rest => if String.eqb k' k then Some v else obj_get k rest
  end.

Fixpoint obj_set (k : string) (v : json) (fields : list (string * json))
  : list (string * json) :=
  match fields with
  | [] => [(k, v)]
  | (k', v') :: rest =>
      if String.eqb k' k then (k', v) :: rest else (k', v') :: obj_set k v rest
  end.

(** [v.k] for a value [v] other than [null]; [None] is [undefined].  The
    property names read by the code are own properties of objects only. *)
Definition prop (v : json) (k : string) : option json :=
  match v with
  | JObj fields => obj_get k fields
  | _ => None
  end.

(** Truthiness of a value or [undefined], as used by [!x], [x || y],
    [x && y] and [if (x)]. *)
Definition truthy (v : option json) : bool :=
  match v with
  | None => false
  | Some JNull => false
  | Some (JBool b) => b
  | Some (JNum n) => negb (Z.eqb n 0)
  | Some (JStr s) => negb (String.eqb s "")
  | Some (JArr _) => true
  | Some (JObj _) => true
  end.

(** [x || d] where [d] is a value *)
Definition or_default (x : option json) (d : json) : json :=
  match x with
  | Some v => if truthy x then v else d
  | None => d
  end.

(** Truthiness of a string or [null]: [!!s], [s || d]. *)
Definition truthy_str (s : option string) : bool :=
  match s with
  | Some t => negb (String.eqb t "")
  | None => false
  end.

Fixpoint pos_digits (fuel : nat) (p : Z) (acc : string) : string :=
  match fuel with
  | O => acc
  | S fuel' =>
      let d := String (ascii_of_nat (48 + Z.to_nat (p mod 10))) EmptyString in
      if Z.ltb p 10 then d ++ acc else pos_digits fuel' (p / 10) (d ++ acc)
  end.

(** The decimal text of an integer: [String(n)]. *)
Definition Z_to_string (n : Z) : string :=
  if Z.ltb n 0
  then "-" ++ pos_digits (S (Z.to_nat (Z.log2 (- n)))) (- n) ""
  else pos_digits (S (Z.to_nat (Z.log2 n))) n "".

(** [String(v)], which is also the text that [s + v] appends and the
    message of [new Error(v)]. *)
Fixpoint to_String (v : json) : string :=
  match v with
  | JNull => "null"
  | JBool true => "true"
  | JBool false => "false"
  | JNum n => Z_to_string n
  | JStr s => s
  | JArr items =>
      String.concat ","
        (map (fun x => match x with JNull => "" | _ => to_String x end) items)
  | JObj _ => "[object Object]"
  end.

Fixpoint indexed {A} (i : Z) (l : list A) : list (string * A) :=
  match l with
  | [] => []
  | x :: l' => (Z_to_string i, x) :: indexed (i + 1) l'
  end.

Fixpoint chars (s : string) : list json :=
  match s with
  | EmptyString => []
  | String c s' => JStr (String c EmptyString) :: chars s'
  end.

(** The own enumerable properties that the spread [{...v}] copies. *)
Definition own_entries (v : json) : list (string * json) :=
  match v with
  | JObj fields => fields
  | JArr items => indexed 0 items
  | JStr s => indexed 0 (chars s)
  | _ => []
  end.

(** [{...target, ...source}] continued on an object under construction *)
Definition assign (target source : list (string * json)) : list (string * json) :=
  fold_left (fun acc kv => obj_set (fst kv) (snd kv) acc) source target.

(** A thrown JavaScript error, as far as the code inspects it: the [status]
    of an API error and the [message]. *)
Record exn := { status : option Z; message : string }.

Definition Error (msg : string) : exn := {| status := None; message := msg |}.

(** The text of the engine's [TypeError] for reading property [p] of
    [null]. *)
Definition TypeError_null (p : string) : exn :=
  Error ("Cannot read properties of null (reading '" ++ p ++ "')").

(** The text of the engine's [TypeError] for calling a method that the
    receiver does not have. *)
Definition TypeError_not_a_function (callee : string) : exn :=
  Error (callee ++ " is not a function").

(** The platform's JSON functions. [JSON_parse] gives [None] where
    [JSON.parse] throws its [SyntaxError]. *)
Class JsonCodec := {
  JSON_parse : string -> option json;
  JSON_stringify : json -> string;
}.

End Js.

(** ** The analysis routes of [registerRoutes] *)
Module Server.
Import JsString Js Pricing.

(** What the OpenAI client does during one call of
    [openai.chat.completions.create]: with [stream: true] it throws, or
    yields chunks (each with its [choices[0]?.delta?.content]) until the
    iteration ends or throws; without, it throws or returns the
    [choices[0]?.message?.content] of the response. *)
Inductive stream_end := StreamDone | StreamThrows (e : exn).

Inductive completion_stream :=
| CreateThrows (e : exn)
| CreateStream (chunks : list (option string)) (fin : stream_end).

Inductive completion_plain :=
| PlainThrows (e : exn)
| PlainResponse (content : option string).

(** What a route sends back: [res.status(s).json(body)], or the sequence of
    objects written as server-sent events before [res.end()]. *)
Inductive response :=
| JsonResponse (status : Z) (body : json)
| EventStream (events : list json).

(** [err?.status === 401 ? "Invalid API key" : err?.message || "Analysis failed"] *)
Definition error_message (e : exn) : string :=
  match status e with
  | Some 401 => "Invalid API key"
  | _ => if String.eqb (message e) "" then "Analysis failed" else message e
  end.

(** [err?.status || 500] *)
Definition error_status (e : exn) : Z :=
  match status e with
  | Some s => if Z.eqb s 0 then 500 else s
  | None => 500
  end.

(** [content.replace(/```json\n?/g, "").replace(/```\n?/g, "").trim()] *)
Definition cleanContent (content : string) : string :=
  trim (remove_all_opt_nl "```" (remove_all_opt_nl "```json" content)).

(** [generateUKPricing(parsed.brand || "", parsed.condition || "")] on the
    untyped [parsed]: reading a property of [null] throws, and so does
    [toLowerCase] on an argument that is not a string. *)
Definition pricing_of (parsed : json) (rand1 rand2 : Q) : exn + pricing :=
  match parsed with
  | JNull => inl (TypeError_null "brand")
  | _ =>
      match or_default (prop parsed "brand") (JStr ""),
            or_default (prop parsed "condition") (JStr "") with
      | JStr brand, JStr condition =>
          inr (generateUKPricing brand condition rand1 rand2)
      | JStr _, _ => inl (TypeError_not_a_function "condition.toLowerCase")
      | _, _ => inl (TypeError_not_a_function "brand.toLowerCase")
      end
  end.

Definition pricing_entries (p : pricing) : list (string * json) :=
  [ ("quickSellPrice", JNum (quickSellPrice p));
    ("maxProfitPrice", JNum (maxProfitPrice p));
    ("sellProbability", JNum (sellProbability p)) ].

(** [{ ...parsed, ...pricing, suggestedPrice: pricing.maxProfitPrice }] *)
Definition finalResult (parsed : json) (p : pricing) : json :=
  JObj (obj_set "suggestedPrice" (JNum (maxProfitPrice p))
          (assign (assign [] (own_entries parsed)) (pricing_entries p))).

Definition delta_event (delta : string) : json :=
  JObj [("delta", JStr delta); ("done", JBool false)].

Definition error_event (msg : string) : json :=
  JObj [("error", JStr msg); ("done", JBool true)].

Definition result_event (result : json) : json :=
  JObj [("result", result); ("done", JBool true)].

(** [for await (const chunk of stream)]: the accumulated [fullContent] and
    the events written so far. *)
Fixpoint stream_loop (chunks : list (option string)) (fullContent : string)
    (written : list json) : string * list json :=
  match chunks with
  | [] => (fullContent, written)
  | chunk :: rest =>
      let delta := default "" chunk in
      if String.eqb delta ""
      then stream_loop rest fullContent written
      else stream_loop rest (fullContent ++ delta) (written ++ [delta_event delta])
  end.

Definition required_error : json :=
  JObj [("error", JStr "At least one image and API key are required")].

(** The non-empty contents of the chunks, in order. *)
Definition deltas (chunks : list (option string)) : list string :=
  filter (fun d => d <> "") (map (default "") chunks).

(** An event that ends the stream: [done: true]. *)
Definition terminal (event : json) : bool := truthy (prop event "done").

Definition carries_result_or_error (event : json) : Prop :=
  is_Some (prop event "result") \/ is_Some (prop event "error").

Section Routes.
Context `{JsonCodec}.

(** [POST /api/analyze-stream] with body [{ images, apiKey }] *)
Definition analyze_stream (images : option (list string)) (apiKey : option string)
    (openai : completion_stream) (rand1 rand2 : Q) : response :=
  let imageList := default [] images in
  if Nat.eqb (length imageList) 0 || negb (truthy_str apiKey)
  then JsonResponse 400 required_error
  else
    (* the headers are flushed before the model is called: from here on
       [res.headersSent] holds and a failure is written as an event *)
    match openai with
    | CreateThrows e => EventStream [error_event (error_message e)]
    | CreateStream chunks fin =>
        let '(fullContent, written) := stream_loop chunks "" [] in
        match fin with
        | StreamThrows e => EventStream (written ++ [error_event (error_message e)])
        | StreamDone =>
            match JSON_parse (cleanContent fullContent) with
            | None =>
                EventStream (written ++ [error_event "Failed to parse AI response"])
            | Some parsed =>
                match pricing_of parsed rand1 rand2 with
                | inl e => EventStream (written ++ [error_event (error_message e)])
                | inr pricing =>
                    EventStream (written ++ [result_event (finalResult parsed pricing)])
                end
            end
        end
    end.

(** [POST /api/analyze] with body [{ imageBase64, images, apiKey }] *)
Definition analyze (imageBase64 : option string) (images : option (list string))
    (apiKey : option string) (openai : completion_plain) (rand1 rand2 : Q) : response :=
  let imageList :=
    match images with
    | Some l => l
    | None =>
        match imageBase64 with
        | Some b => if truthy_str imageBase64 then [b] else []
        | None => []
        end
    end in
  if Nat.eqb (length imageList) 0 || negb (truthy_str apiKey)
  then JsonResponse 400 required_error
  else
    match openai with
    | PlainThrows e =>
        JsonResponse (error_status e) (JObj [("error", JStr (error_message e))])
    | PlainResponse content =>
        match JSON_parse (cleanContent (default "" content)) with
        | None => JsonResponse 500 (JObj [("error", JStr "Failed to parse AI response")])
        | Some parsed =>
            match pricing_of parsed rand1 rand2 with
            | inl e =>
                JsonResponse (error_status e) (JObj [("error", JStr (error_message e))])
            | inr pricing => JsonResponse 200 (finalResult parsed pricing)
            end
        end
    end.

(** [res.write(`data: ${JSON.stringify(event)}\n\n`)]: the text of the
    response body of an event stream. *)
Definition sse_write (event : json) : string :=
  "data: " ++ JSON_stringify event ++ LF ++ LF.

Definition sse_body (events : list json) : string :=
  String.concat "" (map sse_write events).

(** The lines of the text of an event stream. *)
Definition sse_lines (events : list json) : list string :=
  flat_map (fun event => ["data: " ++ JSON_stringify event; ""]) events.

(** The events [events] are written by [JSON.stringify] on one line each
    and read back by [JSON.parse]. *)
Definition faithful (events : list json) : Prop :=
  forall event, In event events ->
    JSON_parse (JSON_stringify event) = Some event /\
    includes (JSON_stringify event) LF = false.

End Routes.

End Server.

(** ** [ImageItem] and [ListingDraft] *)
Module ImageItem.
Record t := {
  id : string;
  originalUri : string;
  originalBase64 : option string;
  enhancedUri : option string;
  enhancedBase64 : option string;
  enhancing : bool;
  enhanceFailed : bool;
}.
End ImageItem.

Module ListingDraft.
Import Js.
(** The fields that [proceedToAnalyze] fills with [finalResult.f || default]
    hold whatever value the result carries, hence [json]. *)
Record t := {
  id : string;
  imageUri : string;
  imageUris : list string;
  brand : json;
  category : json;
  title : json;
  material : json;
  condition : json;
  conditionScore : json;
  flaws : json;
  description : json;
  sellProbability : json;
  quickSellPrice : json;
  maxProfitPrice : json;
  suggestedPrice : json;
  createdAt : Z;
}.
End ListingDraft.

(** ** The session of [UploadScreen] (upload.tsx) *)
Module Upload.
Import JsString Js.

Definition MAX_IMAGES : nat := 5.

Inductive Step := Step_capture | Step_enhancing | Step_review | Step_analyzing | Step_result.

(** The React state of the screen. *)
Record State := {
  step : Step;
  images : list ImageItem.t;
  selectedIdx : nat;
  useEnhanced : gmap string bool;
  result : option ListingDraft.t;
  error : option string;
  streamingText : string;
}.

Definition initial : State :=
  {| step := Step_capture; images := []; selectedIdx := 0%nat; useEnhanced := ∅;
     result := None; error := None; streamingText := "" |}.

Definition setStep (v : Step) (st : State) : State :=
  {| step := v; images := images st; selectedIdx := selectedIdx st;
     useEnhanced := useEnhanced st; result := result st; error := error st;
     streamingText := streamingText st |}.

Definition setImages (f : list ImageItem.t -> list ImageItem.t) (st : State) : State :=
  {| step := step st; images := f (images st); selectedIdx := selectedIdx st;
     useEnhanced := useEnhanced st; result := result st; error := error st;
     streamingText := streamingText st |}.

Definition setSelectedIdx (f : nat -> nat) (st : State) : State :=
  {| step := step st; images := images st; selectedIdx := f (selectedIdx st);
     useEnhanced := useEnhanced st; result := result st; error := error st;
     streamingText := streamingText st |}.

Definition setUseEnhanced (f : gmap string bool -> gmap string bool) (st : State) : State :=
  {| step := step st; images := images st; selectedIdx := selectedIdx st;
     useEnhanced := f (useEnhanced st); result := result st; error := error st;
     streamingText := streamingText st |}.

Definition setResult (v : option ListingDraft.t) (st : State) : State :=
  {| step := step st; images := images st; selectedIdx := selectedIdx st;
     useEnhanced := useEnhanced st; result := v; error := error st;
     streamingText := streamingText st |}.

Definition setError (v : option string) (st : State) : State :=
  {| step := step st; images := images st; selectedIdx := selectedIdx st;
     useEnhanced := useEnhanced st; result := result st; error := v;
     streamingText := streamingText st |}.

Definition setStreamingText (f : string -> string) (st : State) : State :=
  {| step := step st; images := images st; selectedIdx := selectedIdx st;
     useEnhanced := useEnhanced st; result := result st; error := error st;
     streamingText := f (streamingText st) |}.

(** What the screen does to the outside: alerts, the analysis request and
    the write to the draft store. *)
Inductive effect :=
| Alert (title message : string)
| Fetch (path : string) (images : list string) (apiKey : string)
| SaveDraft (draft : ListingDraft.t).

(** *** Adding and removing images *)

Definition is_capture (s : Step) : bool :=
  match s with Step_capture => true | _ => false end.

(** [prev.map(img => img.id === id ? { ...img, enhancing: false,
    enhanceFailed: true } : img)] *)
Definition mark_failed (id : string) (prev : list ImageItem.t) : list ImageItem.t :=
  map (fun img =>
         if String.eqb (ImageItem.id img) id
         then {| ImageItem.id := ImageItem.id img;
                 ImageItem.originalUri := ImageItem.originalUri img;
                 ImageItem.originalBase64 := ImageItem.originalBase64 img;
                 ImageItem.enhancedUri := ImageItem.enhancedUri img;
                 ImageItem.enhancedBase64 := ImageItem.enhancedBase64 img;
                 ImageItem.enhancing := false;
                 ImageItem.enhanceFailed := true |}
         else img) prev.

(** The update of the image [id] when its enhancement arrives. *)
Definition mark_enhanced (id convertedOriginalBase64 enhancedBase64 : string)
    (prev : list ImageItem.t) : list ImageItem.t :=
  map (fun img =>
         if String.eqb (ImageItem.id img) id
         then {| ImageItem.id := ImageItem.id img;
                 ImageItem.originalUri := ImageItem.originalUri img;
                 ImageItem.originalBase64 := Some convertedOriginalBase64;
                 ImageItem.enhancedUri := Some ("data:image/jpeg;base64," ++ enhancedBase64);
                 ImageItem.enhancedBase64 := Some enhancedBase64;
                 ImageItem.enhancing := false;
                 ImageItem.enhanceFailed := ImageItem.enhanceFailed img |}
         else img) prev.

(** The outcome of the request to [/api/enhance]: it fails ([apiRequest] or
    [res.json()] rejects), or it gives the [enhancedBase64] and
    [convertedOriginal] properties of the response body. *)
Inductive enhance_result :=
| EnhanceThrows
| EnhanceData (enhancedBase64 convertedOriginal : option string).

(** [addImageFromResult], up to its [await]: [id] is the value of
    [Crypto.randomUUID()] and [step_seen] the [step] of the closure. *)
Definition addImageFromResult_begin (step_seen : Step) (id uri : string)
    (base64 : option string) (st : State) : State :=
  let newItem :=
    {| ImageItem.id := id;
       ImageItem.originalUri := uri;
       ImageItem.originalBase64 := base64;
       ImageItem.enhancedUri := None;
       ImageItem.enhancedBase64 := None;
       ImageItem.enhancing := truthy_str base64;
       ImageItem.enhanceFailed := false |} in
  let st1 := setImages (fun prev => (prev ++ [newItem])%list) st in
  let st2 := setSelectedIdx (fun prev => if is_capture step_seen then 0%nat else prev) st1 in
  let st3 := setUseEnhanced (fun prev => <[id := true]> prev) st2 in
  if negb (truthy_str base64)
  then setImages (mark_failed id) st3
  else st3.

(** [addImageFromResult], from the answer of the enhancement request on. *)
Definition addImageFromResult_finish (id base64 : string) (res : enhance_result)
    (st : State) : State :=
  let failed :=
    setUseEnhanced (fun prev => <[id := false]> prev) (setImages (mark_failed id) st) in
  match res with
  | EnhanceData (Some enhancedBase64) convertedOriginal =>
      if String.eqb enhancedBase64 "" then failed
      else
        let convertedOriginalBase64 :=
          if truthy_str convertedOriginal then default base64 convertedOriginal else base64 in
        setImages (mark_enhanced id convertedOriginalBase64 enhancedBase64) st
  | _ => failed
  end.

(** One whole call of [addImageFromResult], nothing else happening between
    its two halves. *)
Definition addImageFromResult (step_seen : Step) (id uri : string)
    (base64 : option string) (res : enhance_result) (st : State) : State :=
  let st1 := addImageFromResult_begin step_seen id uri base64 st in
  match base64 with
  | Some b => if truthy_str base64 then addImageFromResult_finish id b res st1 else st1
  | None => st1
  end.

(** A picked or photographed asset: its [uri], its [base64 || null], the
    identifier drawn for it and the outcome of its enhancement. *)
Record asset := {
  asset_uri : string;
  asset_base64 : option string;
  asset_id : string;
  asset_enhance : enhance_result;
}.

Definition add_asset (step_seen : Step) (a : asset) (st : State) : State :=
  addImageFromResult step_seen (asset_id a) (asset_uri a)
    (if truthy_str (asset_base64 a) then asset_base64 a else None)
    (asset_enhance a) st.

Definition limit_alert : effect :=
  Alert "Limit Reached" ("Maximum " ++ Z_to_string (Z.of_nat MAX_IMAGES) ++ " photos allowed.").

(** What the camera does: the permission request and [launchCameraAsync]
    may throw, the permission may be refused, the user may cancel. *)
Inductive camera_result :=
| CameraThrows
| CameraDenied
| CameraCanceled
| CameraAsset (a : asset).

Definition capturePhoto (camera : camera_result) (st : State) : State * list effect :=
  if (MAX_IMAGES <=? length (images st))%nat
  then (st, [limit_alert])
  else
    match camera with
    | CameraThrows => (st, [])
    | CameraDenied =>
        (st, [Alert "Camera Permission" "Camera access is needed to photograph your items."])
    | CameraCanceled => (st, [])
    | CameraAsset a =>
        let st1 := add_asset (step st) a st in
        (if is_capture (step st) then setStep Step_review st1 else st1, [])
    end.

(** What the gallery gives for [selectionLimit: remaining]. *)
Inductive gallery_result :=
| GalleryThrows
| GalleryCanceled
| GalleryAssets (assets : list asset).

Definition pickFromGallery (gallery : nat -> gallery_result) (st : State)
  : State * list effect :=
  let remaining := (Z.of_nat MAX_IMAGES - Z.of_nat (length (images st)))%Z in
  if (remaining <=? 0)%Z
  then (st, [limit_alert])
  else
    match gallery (Z.to_nat remaining) with
    | GalleryThrows => (st, [])
    | GalleryCanceled => (st, [])
    | GalleryAssets [] => (st, [])
    | GalleryAssets assets =>
        let st1 := fold_left (fun acc a => add_asset (step st) a acc) assets st in
        (if is_capture (step st) then setStep Step_review st1 else st1, [])
    end.

Definition removeImage (id : string) (st : State) : State :=
  let st1 := setImages (filter (fun img => ImageItem.id img ≠ id)) st in
  let st2 := setSelectedIdx (fun prev => Nat.pred prev) st1 in
  setUseEnhanced (fun prev => delete id prev) st2.

Definition resetAll (st : State) : State := initial.

(** [images.some((img) => img.enhancing)] *)
Definition anyEnhancing (st : State) : bool :=
  existsb ImageItem.enhancing (images st).

(** [images[selectedIdx] || null] *)
Definition selected (st : State) : option ImageItem.t := images st !! selectedIdx st.

(** The two buttons "Original" and "Enhanced" of the review step; they are
    rendered for the selected image when it is not enhancing and has an
    [enhancedUri]. *)
Definition toggle_shown (st : State) : option ImageItem.t :=
  match step st, selected st with
  | Step_review, Some img =>
      if negb (ImageItem.enhancing img) && truthy_str (ImageItem.enhancedUri img)
      then Some img else None
  | _, _ => None
  end.

Definition pressToggle (value : bool) (st : State) : State :=
  match toggle_shown st with
  | Some img => setUseEnhanced (fun prev => <[ImageItem.id img := value]> prev) st
  | None => st
  end.

(** *** [proceedToAnalyze] *)

(** What [fetch] gives for the analysis request: it rejects, or it answers
    with a status that is not ok and a body text, or with a body that has
    no reader, or with a reader that yields decoded chunks until it is done
    or fails. *)
Inductive read_end := ReadDone | ReadThrows (e : exn).

Inductive fetch_result :=
| FetchThrows (e : exn)
| FetchNotOk (errText : string)
| FetchNoBody
| FetchBody (chunks : list string) (fin : read_end).

(** What the call observes of the world around it: the stored API key, the
    network, the identifier and the time given to the draft, and whether
    [saveDraft] throws. *)
Record world := {
  getApiKey : option string;
  fetch : list string -> string -> fetch_result;
  randomUUID : string;
  now : Z;
  saveDraft : ListingDraft.t -> option exn;
}.

(** The path by which a call of [proceedToAnalyze] ends. *)
Inductive exit :=
| NoImages
| EnhancementPending
| MissingCredential
| NoValidImages
| Failed (e : exn)
| Completed (draft : ListingDraft.t).

Record run := { final : State; effects : list effect; ended : exit }.

(** The variables of the reading loop; [shown] is the [streamingText] of
    the screen. *)
Record reading := {
  buffer : string;
  finalResult : option json;
  shown : string;
}.

(** The reading loop goes on, or an error leaves it; the text shown so far
    stays on the screen. *)
Inductive progress :=
| Continue (r : reading)
| Thrown (e : exn) (shown : string).

(** The [catch (parseErr)] around the handling of one line: an error with a
    message that does not mention JSON is thrown again. *)
Definition line_catch (parseErr : exn) (r : reading) : progress :=
  if negb (String.eqb (message parseErr) "") && negb (includes (message parseErr) "JSON")
  then Thrown parseErr (shown r)
  else Continue r.

(** The statements that follow [const data = JSON.parse(line.slice(6))]. *)
Definition handle_data (data : json) (r : reading) : progress :=
  match data with
  | JNull => line_catch (TypeError_null "error") r
  | _ =>
      if truthy (prop data "error")
      then line_catch (Error (to_String (default JNull (prop data "error")))) r
      else
        let r1 :=
          if truthy (prop data "delta")
          then {| buffer := buffer r; finalResult := finalResult r;
                  shown := shown r ++ to_String (default JNull (prop data "delta")) |}
          else r in
        let r2 :=
          if truthy (prop data "done") && truthy (prop data "result")
          then {| buffer := buffer r1; finalResult := prop data "result";
                  shown := shown r1 |}
          else r1 in
        Continue r2
  end.

(** The reading loop, seen from the events that the lines carry. *)
Fixpoint handle_events (events : list json) (r : reading) : progress :=
  match events with
  | [] => Continue r
  | data :: rest =>
      match handle_data data r with
      | Continue r' => handle_events rest r'
      | Thrown e t => Thrown e t
      end
  end.

(** The text that an event adds to the text on the screen. *)
Definition delta_text (data : json) : string :=
  if truthy (prop data "delta") then to_String (default JNull (prop data "delta")) else "".

(** An event that neither reports an error nor carries a result. *)
Definition plain_event (data : json) : bool :=
  match data with
  | JNull => false
  | _ =>
      negb (truthy (prop data "error")) &&
      negb (truthy (prop data "done") && truthy (prop data "result"))
  end.

Definition set_buffer (b : string) (r : reading) : reading :=
  {| buffer := b; finalResult := finalResult r; shown := shown r |}.

Definition on_progress (f : reading -> reading) (p : progress) : progress :=
  match p with
  | Continue r => Continue (f r)
  | Thrown e t => Thrown e t
  end.

(** [p] and then, unless an error was thrown, [k]. *)
Definition and_then (p : progress) (k : reading -> progress) : progress :=
  match p with
  | Continue r => k r
  | Thrown e t => Thrown e t
  end.

Section Analyze.
Context `{JsonCodec}.

(** The body of [for (const line of lines)].  The [SyntaxError] of
    [JSON.parse] has a message that names JSON: it never leaves the
    [catch] around the line. *)
Definition handle_line (line : string) (r : reading) : progress :=
  if startsWith line "data: " then
    match JSON_parse (slice_from 6 line) with
    | None => Continue r
    | Some data => handle_data data r
    end
  else Continue r.

Fixpoint handle_lines (lines : list string) (r : reading) : progress :=
  match lines with
  | [] => Continue r
  | line :: rest =>
      match handle_line line r with
      | Continue r' => handle_lines rest r'
      | Thrown e t => Thrown e t
      end
  end.

(** One turn of [while (true)] for a chunk that [reader.read()] gave:
    the last piece of the split stays in the buffer. *)
Definition handle_chunk (chunk : string) (r : reading) : progress :=
  let lines := split (buffer r ++ chunk) LF in
  handle_lines (removelast lines) (set_buffer (List.last lines "") r).

Fixpoint read_loop (chunks : list string) (fin : read_end) (r : reading) : progress :=
  match chunks with
  | [] =>
      match fin with
      | ReadDone => Continue r
      | ReadThrows e => Thrown e (shown r)
      end
  | chunk :: rest =>
      match handle_chunk chunk r with
      | Continue r' => read_loop rest fin r'
      | Thrown e t => Thrown e t
      end
  end.

(** [images.map((img) => img.originalBase64).filter(Boolean)] *)
Definition originalImages (imgs : list ImageItem.t) : list string :=
  omap (fun img =>
          match ImageItem.originalBase64 img with
          | Some b => if String.eqb b "" then None else Some b
          | None => None
          end) imgs.

(** [use && img.enhancedUri ? img.enhancedUri : img.originalUri] with
    [use = useEnhanced[img.id]] *)
Definition chosen_uri (flags : gmap string bool) (img : ImageItem.t) : string :=
  match flags !! ImageItem.id img, ImageItem.enhancedUri img with
  | Some true, Some uri => if String.eqb uri "" then ImageItem.originalUri img else uri
  | _, _ => ImageItem.originalUri img
  end.

Definition make_draft (w : world) (primaryUri : string) (allUris : list string)
    (finalResult : json) : ListingDraft.t :=
  let field (k : string) (d : json) := or_default (prop finalResult k) d in
  {| ListingDraft.id := randomUUID w;
     ListingDraft.imageUri := primaryUri;
     ListingDraft.imageUris := allUris;
     ListingDraft.brand := field "brand" (JStr "Unknown");
     ListingDraft.category := field "category" (JStr "Clothing");
     ListingDraft.title := field "title" (JStr "Untitled");
     ListingDraft.material := field "material" (JStr "Unknown");
     ListingDraft.condition := field "condition" (JStr "Good");
     ListingDraft.conditionScore :=
       field "conditionScore" (field "condition" (JStr "Good"));
     ListingDraft.flaws := field "flaws" (JStr "No visible flaws detected");
     ListingDraft.description := field "description" (JStr "");
     ListingDraft.sellProbability := field "sellProbability" (JNum 50);
     ListingDraft.quickSellPrice := field "quickSellPrice" (JNum 5);
     ListingDraft.maxProfitPrice := field "maxProfitPrice" (JNum 10);
     ListingDraft.suggestedPrice := field "maxProfitPrice" (JNum 10);
     ListingDraft.createdAt := now w |}.

(** The [catch (err)] of [proceedToAnalyze]. *)
Definition shown_error (e : exn) : string :=
  let msg := if String.eqb (message e) "" then "Analysis failed. Please try again."
             else message e in
  if includes msg ":" then join (tail (split msg ": ")) ": " else msg.

Definition fail (e : exn) (effs : list effect) (st : State) : run :=
  {| final := setStep Step_review (setError (Some (shown_error e)) st);
     effects := effs;
     ended := Failed e |}.

(** From [if (!finalResult)] to the end of the [try] block;
    [primaryImg] is [images[0]]. *)
Definition finish (w : world) (effs : list effect) (primaryImg : ImageItem.t)
    (r : reading) (st : State) : run :=
  match finalResult r with
  | None => fail (Error "No result received from AI") effs st
  | Some res =>
      let primaryUri := chosen_uri (useEnhanced st) primaryImg in
      let allUris := map (chosen_uri (useEnhanced st)) (images st) in
      let draft := make_draft w primaryUri allUris res in
      match saveDraft w draft with
      | Some e => fail e (effs ++ [SaveDraft draft]) st
      | None =>
          {| final := setStep Step_result (setResult (Some draft) st);
             effects := effs ++ [SaveDraft draft];
             ended := Completed draft |}
      end
  end.

Definition missing_key (st : State) : run :=
  {| final := setError (Some "Please set your OpenAI API key in Settings first.") st;
     effects := [];
     ended := MissingCredential |}.

(** The [try] block, entered with a non-empty [apiKey]. *)
Definition analyze_with (w : world) (apiKey : string) (primaryImg : ImageItem.t)
    (st : State) : run :=
  let st1 := setStreamingText (fun _ => "") (setError None (setStep Step_analyzing st)) in
  let sent := originalImages (images st) in
  if Nat.eqb (length sent) 0
  then {| final := setStep Step_review (setError (Some "No valid images to analyze.") st1);
          effects := [];
          ended := NoValidImages |}
  else
    let request := [Fetch "/api/analyze-stream" sent apiKey] in
    match fetch w sent apiKey with
    | FetchThrows e => fail e request st1
    | FetchNotOk errText =>
        fail (Error (if String.eqb errText "" then "Analysis failed" else errText))
          request st1
    | FetchNoBody => fail (Error "Streaming not supported") request st1
    | FetchBody chunks fin =>
        match read_loop chunks fin {| buffer := ""; finalResult := None; shown := "" |} with
        | Thrown e t => fail e request (setStreamingText (fun _ => t) st1)
        | Continue r =>
            finish w request primaryImg r (setStreamingText (fun _ => shown r) st1)
        end
    end.

Definition proceedToAnalyze (w : world) (st : State) : run :=
  match images st with
  | [] => {| final := st; effects := []; ended := NoImages |}
  | primaryImg :: _ =>
      if anyEnhancing st
      then {| final := st;
              effects := [Alert "Still Processing"
                            "Some photos are still being enhanced. Please wait a moment."];
              ended := EnhancementPending |}
      else
        match getApiKey w with
        | Some apiKey =>
            if String.eqb apiKey "" then missing_key st
            else analyze_with w apiKey primaryImg st
        | None => missing_key st
        end
  end.

(** The result that the reading loop keeps from the answer to the
    request. *)
Definition received (w : world) (apiKey : string) (st : State) : option json :=
  match fetch w (originalImages (images st)) apiKey with
  | FetchBody chunks fin =>
      match read_loop chunks fin {| buffer := ""; finalResult := None; shown := "" |} with
      | Continue r => finalResult r
      | Thrown _ _ => None
      end
  | _ => None
  end.


End Analyze.

(** *** What the user and the world can do to a session

    One constructor for each operation that the screen offers in the step in
    which it offers it; identifiers are fresh, as [Crypto.randomUUID] gives
    them, and an operation runs to its end before the next one starts.
    These are some of the sessions of the screen: the ones in which
    handlers overlap are those of [Overlap.attainable] below. *)
Definition fresh (st : State) (ids : list string) : Prop :=
  NoDup ids /\ forall id, In id ids -> ~ In id (map ImageItem.id (images st)).

Definition can_add (st : State) : Prop :=
  step st = Step_capture \/
  (step st = Step_review /\ (length (images st) < MAX_IMAGES)%nat).

(** The selection flags are sound for the images that came with bytes: the
    identifiers are distinct, a failed image has no enhanced reference, and
    a failed image that has original bytes has its flag set to false. *)
Definition flags_sound (st : State) : Prop :=
  NoDup (map ImageItem.id (images st)) /\
  forall img, In img (images st) -> ImageItem.enhanceFailed img = true ->
    ImageItem.enhancedUri img = None /\
    (truthy_str (ImageItem.originalBase64 img) = true ->
     useEnhanced st !! ImageItem.id img = Some false).

Section Reachable.
Context `{JsonCodec}.

Inductive reachable : State -> Prop :=
| reach_initial : reachable initial
| reach_capture (a : asset) (st : State) :
    reachable st -> can_add st -> fresh st [asset_id a] ->
    reachable (fst (capturePhoto (CameraAsset a) st))
| reach_gallery (pick : nat -> gallery_result) (assets : list asset) (st : State) :
    reachable st -> can_add st ->
    pick (MAX_IMAGES - length (images st))%nat = GalleryAssets assets ->
    fresh st (map asset_id assets) ->
    reachable (fst (pickFromGallery pick st))
| reach_select (index : nat) (st : State) :
    reachable st -> step st = Step_review ->
    reachable (setSelectedIdx (fun _ => index) st)
| reach_remove (id : string) (st : State) :
    reachable st -> step st = Step_review ->
    reachable (removeImage id st)
| reach_toggle (value : bool) (st : State) :
    reachable st -> reachable (pressToggle value st)
| reach_analyze (w : world) (st : State) :
    reachable st -> step st = Step_review ->
    reachable (final (proceedToAnalyze w st))
| reach_reset (st : State) :
    reachable st -> step st = Step_review \/ step st = Step_result ->
    reachable (resetAll st).

End Reachable.

(** The three ways in which [proceedToAnalyze] refuses to start. *)
Definition refused (e : exit) : Prop :=
  e = NoImages \/ e = EnhancementPending \/ e = MissingCredential.

Definition is_fetch (e : effect) : bool :=
  match e with Fetch _ _ _ => true | _ => false end.


(** The requests sent to the network during a run. *)
Definition requests (r : run) : list effect := List.filter is_fetch (effects r).

End Upload.

(** ** A reference implementation of the platform's JSON functions

    [JSON.parse] and [JSON.stringify] for the JSON texts whose numbers are
    integers and whose [\u] escapes stay below 256; it is used to run the
    routes and the screen on concrete texts. *)
Module RefJson.
Import Js.

Definition dquote : ascii := "034"%char.
Definition backslash : ascii := "092"%char.

Definition hex_digit (n : nat) : ascii :=
  if (n <? 10)%nat then ascii_of_nat (48 + n) else ascii_of_nat (87 + n).

Definition escape_char (c : ascii) : string :=
  let n := nat_of_ascii c in
  if Ascii.eqb c dquote then String backslash (String dquote "")
  else if Ascii.eqb c backslash then String backslash (String backslash "")
  else if (n =? 8)%nat then String backslash "b"
  else if (n =? 12)%nat then String backslash "f"
  else if (n =? 10)%nat then String backslash "n"
  else if (n =? 13)%nat then String backslash "r"
  else if (n =? 9)%nat then String backslash "t"
  else if (n <? 32)%nat
  then String backslash
         (String "u" (String "0" (String "0"
            (String (hex_digit (n / 16)) (String (hex_digit (n mod 16)) "")))))
  else String c "".

Fixpoint escape (s : string) : string :=
  match s with
  | EmptyString => EmptyString
  | String c s' => escape_char c ++ escape s'
  end.

Definition quote (s : string) : string :=
  String dquote (escape s ++ String dquote "").

Fixpoint stringify (v : json) : string :=
  match v with
  | JNull => "null"
  | JBool true => "true"
  | JBool false => "false"
  | JNum n => Z_to_string n
  | JStr s => quote s
  | JArr items => "[" ++ String.concat "," (map stringify items) ++ "]"
  | JObj fields =>
      "{" ++ String.concat ","
               (map (fun kv => match kv with
                               | (k, x) => quote k ++ ":" ++ stringify x
                               end) fields) ++ "}"
  end.

Definition is_ws (c : ascii) : bool :=
  let n := nat_of_ascii c in
  (n =? 32)%nat || (n =? 9)%nat || (n =? 10)%nat || (n =? 13)%nat.

Fixpoint skip_ws (s : string) : string :=
  match s with
  | EmptyString => EmptyString
  | String c s' => if is_ws c then skip_ws s' else s
  end.

Definition hex_value (c : ascii) : option nat :=
  let n := nat_of_ascii c in
  if (48 <=? n)%nat && (n <=? 57)%nat then Some (n - 48)%nat
  else if (97 <=? n)%nat && (n <=? 102)%nat then Some (n - 87)%nat
  else if (65 <=? n)%nat && (n <=? 70)%nat then Some (n - 55)%nat
  else None.

Definition unescape (e : ascii) : option ascii :=
  if Ascii.eqb e dquote then Some dquote
  else if Ascii.eqb e backslash then Some backslash
  else if Ascii.eqb e "/" then Some "/"%char
  else if Ascii.eqb e "b" then Some (ascii_of_nat 8)
  else if Ascii.eqb e "f" then Some (ascii_of_nat 12)
  else if Ascii.eqb e "n" then Some (ascii_of_nat 10)
  else if Ascii.eqb e "r" then Some (ascii_of_nat 13)
  else if Ascii.eqb e "t" then Some (ascii_of_nat 9)
  else None.

(** The characters of a string literal after its opening quote, and the
    text after its closing quote. *)
Fixpoint parse_chars (s : string) : option (string * string) :=
  match s with
  | EmptyString => None
  | String c s' =>
      if Ascii.eqb c dquote then Some (EmptyString, s')
      else if Ascii.eqb c backslash then
        match s' with
        | String e s'' =>
            if Ascii.eqb e "u" then
              match s'' with
              | String h1 (String h2 (String h3 (String h4 rest))) =>
                  match hex_value h1, hex_value h2, hex_value h3, hex_value h4 with
                  | Some 0%nat, Some 0%nat, Some a, Some b =>
                      match parse_chars rest with
                      | Some (t, rest') =>
                          Some (String (ascii_of_nat (16 * a + b)) t, rest')
                      | None => None
                      end
                  | _, _, _, _ => None
                  end
              | _ => None
              end
            else
              match unescape e, parse_chars s'' with
              | Some x, Some (t, rest') => Some (String x t, rest')
              | _, _ => None
              end
        | EmptyString => None
        end
      else if (nat_of_ascii c <? 32)%nat then None
      else
        match parse_chars s' with
        | Some (t, rest') => Some (String c t, rest')
        | None => None
        end
  end.

Definition is_digit (c : ascii) : bool :=
  let n := nat_of_ascii c in (48 <=? n)%nat && (n <=? 57)%nat.

Fixpoint parse_digits (acc : Z) (s : string) : Z * string :=
  match s with
  | EmptyString => (acc, s)
  | String c s' =>
      if is_digit c
      then parse_digits (10 * acc + Z.of_nat (nat_of_ascii c - 48)) s'
      else (acc, s)
  end.

(** An integer literal: no leading zero, no fraction, no exponent. *)
Definition parse_int (s : string) : option (Z * string) :=
  match s with
  | String c s' =>
      if negb (is_digit c) then None
      else
        let '(n, rest) := parse_digits 0 s in
        let leading_zero :=
          Ascii.eqb c "0" && match s' with String d _ => is_digit d | _ => false end in
        let continues :=
          match rest with
          | String d _ => Ascii.eqb d "." || Ascii.eqb d "e" || Ascii.eqb d "E"
          | _ => false
          end in
        if leading_zero || continues then None else Some (n, rest)
  | EmptyString => None
  end.

Fixpoint parse_value (fuel : nat) (s : string) : option (json * string) :=
  match fuel with
  | O => None
  | S fuel' =>
      match skip_ws s with
      | EmptyString => None
      | String c rest as t =>
          if Ascii.eqb c "{" then
            match skip_ws rest with
            | String "}" rest' => Some (JObj [], rest')
            | body => parse_members fuel' [] body
            end
          else if Ascii.eqb c "[" then
            match skip_ws rest with
            | String "]" rest' => Some (JArr [], rest')
            | body => parse_elements fuel' [] body
            end
          else if Ascii.eqb c dquote then
            match parse_chars rest with
            | Some (str, rest') => Some (JStr str, rest')
            | None => None
            end
          else if Ascii.eqb c "-" then
            match parse_int rest with
            | Some (n, rest') => Some (JNum (- n), rest')
            | None => None
            end
          else if String.prefix "true" t then Some (JBool true, JsString.slice_from 4 t)
          else if String.prefix "false" t then Some (JBool false, JsString.slice_from 5 t)
          else if String.prefix "null" t then Some (JNull, JsString.slice_from 4 t)
          else
            match parse_int t with
            | Some (n, rest') => Some (JNum n, rest')
            | None => None
            end
      end
  end
with parse_members (fuel : nat) (acc : list (string * json)) (s : string)
  : option (json * string) :=
  match fuel with
  | O => None
  | S fuel' =>
      match skip_ws s with
      | String c rest =>
          if Ascii.eqb c dquote then
            match parse_chars rest with
            | Some (key, rest1) =>
                match skip_ws rest1 with
                | String ":" rest2 =>
                    match parse_value fuel' rest2 with
                    | Some (v, rest3) =>
                        match skip_ws rest3 with
                        | String "," rest4 => parse_members fuel' (obj_set key v acc) rest4
                        | String "}" rest4 => Some (JObj (obj_set key v acc), rest4)
                        | _ => None
                        end
                    | None => None
                    end
                | _ => None
                end
            | None => None
            end
          else None
      | EmptyString => None
      end
  end
with parse_elements (fuel : nat) (acc : list json) (s : string)
  : option (json * string) :=
  match fuel with
  | O => None
  | S fuel' =>
      match parse_value fuel' s with
      | Some (v, rest) =>
          match skip_ws rest with
          | String "," rest' => parse_elements fuel' (acc ++ [v]) rest'
          | String "]" rest' => Some (JArr (acc ++ [v]), rest')
          | _ => None
          end
      | None => None
      end
  end.

Definition parse (text : string) : option json :=
  match parse_value (S (String.length text)) text with
  | Some (v, rest) =>
      match skip_ws rest with
      | EmptyString => Some v
      | _ => None
      end
  | None => None
  end.

Definition codec : JsonCodec :=
  {| JSON_parse := parse; JSON_stringify := stringify |}.

(** A text between double quotes, for writing JSON texts. *)
Definition q (s : string) : string := String dquote (s ++ String dquote "").

End RefJson.

(** ** Sample sessions, answers and events *)
Module Examples.
Import Js Upload.

(** An image whose enhancement has arrived. *)
Definition enhanced_image (id : string) : ImageItem.t :=
  {| ImageItem.id := id;
     ImageItem.originalUri := "file:///photos/" ++ id ++ ".jpg";
     ImageItem.originalBase64 := Some ("T1JJRw" ++ id);
     ImageItem.enhancedUri := Some ("data:image/jpeg;base64,RU5I" ++ id);
     ImageItem.enhancedBase64 := Some ("RU5I" ++ id);
     ImageItem.enhancing := false;
     ImageItem.enhanceFailed := false |}.

(** An image that is still being enhanced. *)
Definition pending_image (id : string) : ImageItem.t :=
  {| ImageItem.id := id;
     ImageItem.originalUri := "file:///photos/" ++ id ++ ".jpg";
     ImageItem.originalBase64 := Some ("T1JJRw" ++ id);
     ImageItem.enhancedUri := None;
     ImageItem.enhancedBase64 := None;
     ImageItem.enhancing := true;
     ImageItem.enhanceFailed := false |}.

(** An image that came without bytes. *)
Definition empty_image (id : string) : ImageItem.t :=
  {| ImageItem.id := id;
     ImageItem.originalUri := "file:///photos/" ++ id ++ ".jpg";
     ImageItem.originalBase64 := None;
     ImageItem.enhancedUri := None;
     ImageItem.enhancedBase64 := None;
     ImageItem.enhancing := false;
     ImageItem.enhanceFailed := true |}.

Definition review_of (imgs : list ImageItem.t) (flags : gmap string bool) : State :=
  {| step := Step_review; images := imgs; selectedIdx := 0%nat; useEnhanced := flags;
     result := None; error := None; streamingText := "" |}.

Definition one_image : State := review_of [enhanced_image "a"] {["a" := true]}.

Definition two_images : State :=
  review_of [enhanced_image "a"; enhanced_image "b"] {["a" := true; "b" := true]}.

Definition with_pending : State :=
  review_of [enhanced_image "a"; pending_image "b"] {["a" := true; "b" := true]}.

Definition only_empty : State :=
  review_of [empty_image "a"; empty_image "b"] {["a" := true; "b" := true]}.

Definition five_images : State :=
  review_of (map enhanced_image ["a"; "b"; "c"; "d"; "e"]) ∅.

Definition four_images : State :=
  review_of (map enhanced_image ["a"; "b"; "c"; "d"]) ∅.

(** A world with a key in which the request is answered by the chunks
    [chunks]. *)
Definition answering (chunks : list string) : world :=
  {| getApiKey := Some "sk-test";
     fetch := fun _ _ => FetchBody chunks ReadDone;
     randomUUID := "draft-1";
     now := 1700000000000;
     saveDraft := fun _ => None |}.

(** A world without a key. *)
Definition without_key : world :=
  {| getApiKey := None;
     fetch := fun _ _ => FetchNoBody;
     randomUUID := "draft-1";
     now := 1700000000000;
     saveDraft := fun _ => None |}.

(** The two pieces of the text of an object with brand Nike. *)
Definition nike_1 : string := "{" ++ RefJson.q "brand" ++ ":".
Definition nike_2 : string := RefJson.q "Nike" ++ "}".

(** The events [{delta: nike_1}, {delta: nike_2}, {done: true}]. *)
Definition deltas_then_done : list json :=
  [ JObj [("delta", JStr nike_1)];
    JObj [("delta", JStr nike_2)];
    JObj [("done", JBool true)] ].

(** The chunks of an answer of the model that is cut short, and the events
    of the route for it. *)
Definition malformed_chunks : list (option string) :=
  [Some nike_1; None; Some (RefJson.q "Nike")].

Definition malformed_events : list json :=
  [ Server.delta_event nike_1;
    Server.delta_event (RefJson.q "Nike");
    Server.error_event "Failed to parse AI response" ].

(** The result of the route for an answer with brand Nike, and the draft
    that the screen makes of it for the session [one_image]. *)
Definition nike_result : json :=
  Server.finalResult (JObj [("brand", JStr "Nike")])
    (Pricing.generateUKPricing "Nike" "" 0.5 0.5).

Definition nike_draft : ListingDraft.t :=
  make_draft (answering []) "data:image/jpeg;base64,RU5Ia" ["data:image/jpeg;base64,RU5Ia"]
    nike_result.

(** A photograph with bytes, and one without. *)
Definition photo (id : string) : asset :=
  {| asset_uri := "file:///photos/" ++ id ++ ".jpg";
     asset_base64 := Some ("T1JJRw" ++ id);
     asset_id := id;
     asset_enhance := EnhanceData (Some ("RU5I" ++ id)) (Some ("Q09OVg" ++ id)) |}.

Definition photo_without_bytes (id : string) : asset :=
  {| asset_uri := "file:///photos/" ++ id ++ ".jpg";
     asset_base64 := None;
     asset_id := id;
     asset_enhance := EnhanceThrows |}.

End Examples.

(** ** What the screen shows of a session, and worlds that differ in the
    network only *)
Module View.
Import JsString Js Upload.

(** [{error && (<View> ... <Text>{error}</Text> </View>)}] inside the block
    of the review step: the message that the user sees. *)
Definition error_banner (st : State) : option string :=
  match step st with
  | Step_review => if truthy_str (error st) then error st else None
  | _ => None
  end.

(** [{step === "result" && result && ( ... )}]: the listing that the user
    sees. *)
Definition result_card (st : State) : option ListingDraft.t :=
  match step st with
  | Step_result => result st
  | _ => None
  end.

(** The world [w] with another network. *)
Definition with_fetch (f : list string -> string -> fetch_result) (w : world) : world :=
  {| getApiKey := getApiKey w;
     fetch := f;
     randomUUID := randomUUID w;
     now := now w;
     saveDraft := saveDraft w |}.

End View.

(** ** The session when the handlers overlap

    The handlers of the screen are asynchronous: while one of them waits (for
    the camera, for [/api/enhance], for the key store, for the next chunk
    of the response) the screen stays in use and other handlers run.
    [piece st st'] is one of the pieces in which the code updates the state
    of the screen, with one constructor for each group of calls of the
    setters; what a piece takes from the closure of its handler or from the
    outside is an argument of its constructor, so that every update that
    the code can make is a piece, whenever it happens.  The identifier of a
    new image is one that no image of the session has. *)
Module Overlap.
Import JsString Js Upload.

Inductive piece : State -> State -> Prop :=
(* addImageFromResult up to its await: lines 54 to 80 *)
| piece_add (step_seen : Step) (id uri : string) (base64 : option string) (st : State) :
    ~ In id (map ImageItem.id (images st)) ->
    piece st (addImageFromResult_begin step_seen id uri base64 st)
(* addImageFromResult from the answer of the enhancement on: lines 85 to 114 *)
| piece_enhanced (id base64 : string) (res : enhance_result) (st : State) :
    piece st (addImageFromResult_finish id base64 res st)
(* capturePhoto and pickFromGallery after their awaits: lines 140 and 164 *)
| piece_review (st : State) :
    piece st (setStep Step_review st)
(* a thumbnail is pressed: line 360 *)
| piece_select (index : nat) (st : State) :
    piece st (setSelectedIdx (fun _ => index) st)
(* removeImage: lines 171 to 179 *)
| piece_remove (id : string) (st : State) :
    piece st (removeImage id st)
(* the buttons "Original" and "Enhanced": lines 556 and 594 *)
| piece_toggle (id : string) (value : bool) (st : State) :
    piece st (setUseEnhanced (fun prev => <[id := value]> prev) st)
(* proceedToAnalyze without a key: line 196 *)
| piece_missing_key (st : State) :
    piece st (setError (Some "Please set your OpenAI API key in Settings first.") st)
(* proceedToAnalyze when it starts: lines 200 to 202 *)
| piece_start (st : State) :
    piece st (setStreamingText (fun _ => "") (setError None (setStep Step_analyzing st)))
(* a delta is read: line 255 *)
| piece_delta (text : string) (st : State) :
    piece st (setStreamingText (fun prev => prev ++ text) st)
(* proceedToAnalyze gives up: lines 211 and 212, lines 314 and 315 *)
| piece_failed (message : string) (st : State) :
    piece st (setStep Step_review (setError (Some message) st))
(* proceedToAnalyze has saved its draft: lines 305 and 306 *)
| piece_completed (draft : ListingDraft.t) (st : State) :
    piece st (setStep Step_result (setResult (Some draft) st))
(* resetAll: lines 328 to 336 *)
| piece_reset (st : State) :
    piece st (resetAll st).

(** The sessions that the screen can be in, whatever the order in which the
    pieces of its handlers run. *)
Inductive attainable : State -> Prop :=
| attainable_initial : attainable initial
| attainable_piece (st st' : State) : attainable st -> piece st st' -> attainable st'.

End Overlap.

(** ** [generateUKPricing] on the numbers of JavaScript *)
Module Rounded.
Import JsString Pricing.

(** The numbers of the code are doubles: a literal with a fraction stands
    for the double nearest to it, and the result of a product or a sum is
    the double nearest to the exact result.  [fl] is that rounding.  The
    integers of the code are doubles themselves, which [inject_Z] gives
    exactly; [Math.round], [Math.max], [Math.min] and the comparison are
    exact.  The sums are made from left to right. *)
Definition generateUKPricing_fl (fl : Q -> Q) (brand condition : string)
    (rand1 rand2 : Q) : pricing :=
  let brandKey := toLowerCase brand in
  let basePrice := first_match brandKey brandPrices 15 in
  let condMult := fl (first_match (toLowerCase condition) conditionMultipliers 0.7%Q) in
  let maxProfit :=
    Z.max 3 (Math_round (fl (fl (inject_Z basePrice * condMult) + fl (rand1 * 5)))%Q) in
  let quickSell := Z.max 2 (Math_round (fl (inject_Z maxProfit * fl 0.65))%Q) in
  let baseProbability :=
    Z.min 99
      (Z.max 15
         (Math_round (fl (fl (fl (60 * condMult) + fl (rand2 * 20))
                          + (if (20 <? basePrice)%Z then 10 else 0)))%Q)) in
  {| quickSellPrice := quickSell;
     maxProfitPrice := maxProfit;
     sellProbability := baseProbability |}.

(** A rounding to use on samples: to the nearest multiple of 2^-20, halves
    upwards. *)
Definition to_grid (x : Q) : Q :=
  (inject_Z (Qfloor (x * 1048576 + (1 # 2))%Q) * (1 # 1048576))%Q.

End Rounded.

(** ** The settings screen (settings.tsx) *)
Module Settings.
Import JsString Js.

Inductive Platform := Web | Native.

(** [String.prototype.trim] is a function of the platform: it removes the
    white space and the line terminators of Unicode at both ends of a
    text. *)
Class StringTrim := { String_trim : string -> string }.

(** The React state of the screen. *)
Record Screen := {
  key : string;
  saved : bool;
  showKey : bool;
  hasExistingKey : bool;
}.

Definition blank : Screen :=
  {| key := ""; saved := false; showKey := false; hasExistingKey := false |}.

(** What the screen does to the outside: the write to the key store, the
    dialogs, the haptic feedback and the timer that resets [saved]. *)
Inductive action :=
| SetApiKey (value : string)
| WebAlert (message : string)
| WebConfirm (message : string)
| NativeAlert (title message : string)
| Haptics (feedback : string)
| SetTimeout (ms : Z).

(** The effect of the mount: [existing] is what [getApiKey()] gave. *)
Definition mounted (existing : option string) (st : Screen) : Screen :=
  if truthy_str existing
  then {| key := default "" existing; saved := saved st; showKey := showKey st;
          hasExistingKey := true |}
  else st.

(** [onChangeText={setKey}] *)
Definition setKey (text : string) (st : Screen) : Screen :=
  {| key := text; saved := saved st; showKey := showKey st;
     hasExistingKey := hasExistingKey st |}.

Section Handlers.
Context `{StringTrim}.

(** [handleSave]; [stored] says whether [setApiKey] resolves: when it
    rejects, the statements after the [await] do not run. *)
Definition handleSave (os : Platform) (stored : bool) (st : Screen) : Screen * list action :=
  if String.eqb (String_trim (key st)) ""
  then (st, [match os with
             | Web => WebAlert "Please enter a valid API key"
             | Native => NativeAlert "Error" "Please enter a valid API key"
             end])
  else if stored
  then ({| key := key st; saved := true; showKey := showKey st; hasExistingKey := true |},
        [SetApiKey (String_trim (key st)); Haptics "Success"; SetTimeout 3000])
  else (st, [SetApiKey (String_trim (key st))]).

End Handlers.

(** The callback of the timer: [setSaved(false)]. *)
Definition saved_timeout (st : Screen) : Screen :=
  {| key := key st; saved := false; showKey := showKey st;
     hasExistingKey := hasExistingKey st |}.

(** [handleClear]; [confirmed] is the answer of the user to the dialog. *)
Definition handleClear (os : Platform) (confirmed stored : bool) (st : Screen)
  : Screen * list action :=
  let dialog :=
    match os with
    | Web => WebConfirm "Remove your API key?"
    | Native => NativeAlert "Clear API Key" "Remove your saved API key?"
    end in
  if confirmed
  then if stored
       then ({| key := ""; saved := saved st; showKey := showKey st;
                hasExistingKey := false |},
             [dialog; SetApiKey ""; Haptics "Medium"])
       else (st, [dialog; SetApiKey ""])
  else (st, [dialog]).

(** The values written to the key store. *)
Definition written (effs : list action) : list string :=
  omap (fun e => match e with SetApiKey v => Some v | _ => None end) effs.

End Settings.

(** ** More sample worlds, answers and events *)
Module Samples.
Import Js Server Upload Examples.

(** The error of the OpenAI client for a key that the API rejects. *)
Definition rejected_key : exn :=
  {| status := Some 401; message := "Incorrect API key provided" |}.

Definition rejected_events : list json := [error_event "Invalid API key"].

(** An answer with brand Nike in three chunks, and the events of the route
    for it. *)
Definition nike_chunks : list (option string) := [Some nike_1; None; Some nike_2].

Definition nike_events : list json :=
  [delta_event nike_1; delta_event nike_2; result_event nike_result].

(** The compact JSON text of an error body. *)
Definition error_body : string :=
  "{" ++ RefJson.q "error" ++ ":" ++ RefJson.q "At least one image and API key are required"
  ++ "}".

(** A world with a key in which the request is answered by an HTTP error
    with the body [errText]. *)
Definition refusing (errText : string) : world :=
  {| getApiKey := Some "sk-test";
     fetch := fun _ _ => FetchNotOk errText;
     randomUUID := "draft-1";
     now := 1700000000000;
     saveDraft := fun _ => None |}.

(** A photograph is taken, it is removed while its enhancement is awaited,
    and then the enhancement fails. *)
Definition removed_while_enhancing : State :=
  addImageFromResult_finish "a" "T1JJRwa" EnhanceThrows
    (removeImage "a"
       (setStep Step_review
          (addImageFromResult_begin Step_capture "b" "file:///photos/b.jpg" (Some "T1JJRwb")
             (addImageFromResult_begin Step_capture "a" "file:///photos/a.jpg"
                (Some "T1JJRwa") initial)))).

(** [String.prototype.trim] on the texts of the samples, whose white space
    is made of spaces and line feeds. *)
Definition sample_trim : Settings.StringTrim := {| Settings.String_trim := JsString.trim |}.

(** The settings screen with a key typed between spaces. *)
Definition typed_key : Settings.Screen := Settings.setKey " sk-test " Settings.blank.

End Samples.

(** * Properties *)

#[local] Arguments String.append !_ _ / : simpl nomatch.

(** ** Pricing *)
Module PricingFacts.
Import JsString Pricing.

Lemma Math_round_scaled_le (m : Z) :
  3 <= m -> Math_round (inject_Z m * 0.65)%Q <= m.
Proof.
  intros Hm. unfold Math_round.
  transitivity (Qfloor (inject_Z m)); [| rewrite Qfloor_Z; lia].
  apply Qfloor_resp_le.
  assert (Hq : (inject_Z 3 <= inject_Z m)%Q) by (rewrite <- Zle_Qle; exact Hm).
  change (inject_Z 3) with 3%Q in Hq. lra.
Qed.

(** The bound on [quickSellPrice] does not depend on the product by 0.65
    being exact: any number below [m + 0.5] rounds to at most [m]. *)
Lemma Math_round_le (m : Z) (y : Q) :
  (y < inject_Z m + 0.5)%Q -> Math_round y <= m.
Proof.
  intros Hy. unfold Math_round.
  assert (Hlt : (inject_Z (Qfloor (y + 0.5)) < inject_Z (m + 1))%Q).
  { eapply Qle_lt_trans; [apply Qfloor_le |].
    rewrite inject_Z_plus. change (inject_Z 1) with 1%Q. lra. }
  rewrite <- Zlt_Qlt in Hlt. lia.
Qed.

(** C2.  For every brand, every condition and every value of the two
    random terms, the estimate has maxProfitPrice >= 3, quickSellPrice >= 2,
    quickSellPrice <= maxProfitPrice and 15 <= sellProbability <= 99; and
    two calls with the same brand and condition ("Nike Hoodie", "New with
    tags") can give different estimates. *)
Theorem generateUKPricing_bounds :
  (forall (brand condition : string) (rand1 rand2 : Q),
      let p := generateUKPricing brand condition rand1 rand2 in
      3 <= maxProfitPrice p /\
      2 <= quickSellPrice p /\
      quickSellPrice p <= maxProfitPrice p /\
      15 <= sellProbability p <= 99) /\
  (exists rand1 rand1' rand2 : Q,
      (0 <= rand1 < 1)%Q /\ (0 <= rand1' < 1)%Q /\ (0 <= rand2 < 1)%Q /\
      generateUKPricing "Nike Hoodie" "New with tags" rand1 rand2 <>
      generateUKPricing "Nike Hoodie" "New with tags" rand1' rand2).
Proof.
  split.
  - intros brand condition rand1 rand2 p. subst p. unfold generateUKPricing. cbn [maxProfitPrice quickSellPrice sellProbability].
    set (m := Z.max 3 _).
    assert (Hm : 3 <= m) by (subst m; apply Z.le_max_l).
    repeat split.
    + exact Hm.
    + apply Z.le_max_l.
    + apply Z.max_lub; [lia | by apply Math_round_scaled_le].
    + apply Z.min_glb; [lia | apply Z.le_max_l].
    + apply Z.le_min_l.
  - exists 0%Q, 0.9%Q, 0%Q. repeat split; try (vm_compute; congruence).
Qed.

End PricingFacts.

(** ** Strings and objects *)
Module JsFacts.
Import JsString Js.

Lemma append_nil_r (s : string) : s ++ "" = s.
Proof. induction s as [| c s IH]; simpl; [done | by rewrite IH]. Qed.

Lemma append_assoc (a b c : string) : (a ++ b) ++ c = a ++ (b ++ c).
Proof. induction a as [| x a IH]; simpl; [done | by rewrite IH]. Qed.

Lemma concat_cons (d : string) (l : list string) :
  String.concat "" (d :: l) = d ++ String.concat "" l.
Proof. destruct l; simpl; [by rewrite append_nil_r | done]. Qed.

Lemma obj_get_set_eq (k : string) (v : json) (fields : list (string * json)) :
  obj_get k (obj_set k v fields) = Some v.
Proof.
  induction fields as [| [k' v'] rest IH]; simpl.
  - by rewrite String.eqb_refl.
  - destruct (String.eqb k' k) eqn:E; simpl; rewrite E; [done | exact IH].
Qed.

Lemma obj_get_set_ne (k k' : string) (v : json) (fields : list (string * json)) :
  k <> k' -> obj_get k' (obj_set k v fields) = obj_get k' fields.
Proof.
  intros Hne. induction fields as [| [k0 v0] rest IH]; simpl.
  - destruct (String.eqb k k') eqn:E; [| done].
    apply String.eqb_eq in E. contradiction.
  - destruct (String.eqb k0 k) eqn:E; simpl.
    + apply String.eqb_eq in E. subst k0.
      destruct (String.eqb k k') eqn:E'; [| done].
      apply String.eqb_eq in E'. contradiction.
    + by rewrite IH.
Qed.

End JsFacts.

(** ** The analysis routes *)
Module ServerFacts.
Import JsString Js Pricing Server JsFacts.

Lemma stream_loop_eq (chunks : list (option string)) (fullContent : string)
    (written : list json) :
  stream_loop chunks fullContent written =
  (fullContent ++ String.concat "" (deltas chunks),
   (written ++ map delta_event (deltas chunks))%list).
Proof.
  revert fullContent written.
  induction chunks as [| chunk rest IH]; intros fullContent written; simpl.
  - by rewrite append_nil_r, app_nil_r.
  - unfold deltas. simpl. fold (deltas rest).
    destruct (String.eqb (default "" chunk) "") eqn:E.
    + apply String.eqb_eq in E. rewrite E.
      rewrite filter_cons_False by (intros Hne; by apply Hne). apply IH.
    + apply String.eqb_neq in E.
      rewrite filter_cons_True by done. rewrite IH.
      rewrite concat_cons, append_assoc. simpl. by rewrite <- app_assoc.
Qed.

Lemma delta_event_not_terminal (d : string) : terminal (delta_event d) = false.
Proof. reflexivity. Qed.

Lemma pricing_fields (parsed : json) (p : pricing) :
  prop (finalResult parsed p) "suggestedPrice" = Some (JNum (maxProfitPrice p)) /\
  prop (finalResult parsed p) "maxProfitPrice" = Some (JNum (maxProfitPrice p)) /\
  prop (finalResult parsed p) "quickSellPrice" = Some (JNum (quickSellPrice p)) /\
  prop (finalResult parsed p) "sellProbability" = Some (JNum (sellProbability p)).
Proof.
  unfold finalResult, assign, pricing_entries. simpl.
  repeat split.
  - apply obj_get_set_eq.
  - rewrite !obj_get_set_ne by done. apply obj_get_set_eq.
  - rewrite !obj_get_set_ne by done. apply obj_get_set_eq.
  - rewrite obj_get_set_ne by done. apply obj_get_set_eq.
Qed.

Section Routes.
Context `{JsonCodec}.

(** The events of a stream, whatever the model does: the deltas, then one
    event with [done: true]. *)
Lemma analyze_stream_events images apiKey openai rand1 rand2 events :
  analyze_stream images apiKey openai rand1 rand2 = EventStream events ->
  exists (ds : list string) (last : json),
    events = (map delta_event ds ++ [last])%list /\
    ((exists msg, last = error_event msg) \/
     (exists parsed p, last = result_event (finalResult parsed p))).
Proof.
  unfold analyze_stream.
  destruct (_ || _); [discriminate |].
  destruct openai as [e | chunks fin].
  - intros [= <-]. exists [], (error_event (error_message e)). eauto.
  - rewrite stream_loop_eq. simpl.
    destruct fin as [| e].
    + destruct (JSON_parse _) as [parsed |].
      * destruct (pricing_of parsed rand1 rand2) as [e | p];
          intros [= <-]; eexists _, _; split; eauto.
      * intros [= <-]. eexists _, _; split; eauto.
    + intros [= <-]. eexists _, _; split; eauto.
Qed.

(** C9.  Every event sequence that the streaming route produces has
    exactly one terminal event (done: true), which carries a result or an
    error and is the last event of the sequence: all events before it
    are not terminal. *)
Theorem analyze_stream_one_terminal_event images apiKey openai rand1 rand2 events :
  analyze_stream images apiKey openai rand1 rand2 = EventStream events ->
  exists (before : list json) (last : json),
    events = (before ++ [last])%list /\
    terminal last = true /\
    carries_result_or_error last /\
    Forall (fun event => terminal event = false) before /\
    length (List.filter terminal events) = 1%nat.
Proof.
  intros Hrun.
  destruct (analyze_stream_events _ _ _ _ _ _ Hrun) as (ds & last & -> & Hlast).
  assert (Hbefore : Forall (fun event => terminal event = false) (map delta_event ds)).
  { apply Forall_forall. intros ev Hin.
    apply list_elem_of_In, in_map_iff in Hin. destruct Hin as (d & <- & _).
    apply delta_event_not_terminal. }
  assert (Hterm : terminal last = true /\ carries_result_or_error last).
  { unfold terminal, carries_result_or_error.
    destruct Hlast as [[msg ->] | (parsed & p & ->)]; simpl; split; eauto. }
  destruct Hterm as [Hterm Hcarry].
  exists (map delta_event ds), last. repeat split; try done.
  rewrite List.filter_app, length_app. simpl. rewrite Hterm. simpl.
  replace (List.filter terminal (map delta_event ds)) with (@nil json); [done |].
  symmetry. clear -Hbefore. induction Hbefore as [| x l Hx _ IH]; [done |].
  simpl. by rewrite Hx.
Qed.

(** The plain route answers a text that does not parse with status 500 and
    the same message. *)
Lemma analyze_malformed imageBase64 images apiKey content rand1 rand2 :
  JSON_parse (cleanContent (default "" content)) = None ->
  analyze imageBase64 images apiKey (PlainResponse content) rand1 rand2
  = JsonResponse 400 required_error \/
  analyze imageBase64 images apiKey (PlainResponse content) rand1 rand2
  = JsonResponse 500 (JObj [("error", JStr "Failed to parse AI response")]).
Proof.
  intros Hparse. unfold analyze. destruct (_ || _); [by left |]. right. by rewrite Hparse.
Qed.

End Routes.

End ServerFacts.

(** ** The event stream between the route and the screen *)
Module WireFacts.
Import JsString Js Server Upload JsFacts.

Lemma prefix_LF (c : ascii) (s : string) :
  String.prefix LF (String c s) = Ascii.eqb c "010".
Proof.
  unfold LF. cbn [String.prefix].
  destruct (Ascii.ascii_dec "010" c) as [<- | Hne].
  - by destruct s.
  - symmetry. apply Ascii.eqb_neq. congruence.
Qed.

Lemma split_go_LF (cur : string) (c : ascii) (s : string) :
  split_go LF 0 cur (String c s) =
  if Ascii.eqb c "010" then cur :: split_go LF 0 "" s
  else split_go LF 0 (cur ++ String c "") s.
Proof. cbn [split_go]. by rewrite prefix_LF. Qed.

Lemma split_go_nonempty (cur s : string) : split_go LF 0 cur s <> [].
Proof.
  revert cur. induction s as [| c s IH]; intros cur; [done |].
  rewrite split_go_LF. destruct (Ascii.eqb c "010"); [done | apply IH].
Qed.

Lemma includes_LF_cons (c : ascii) (s : string) :
  includes (String c s) LF = Ascii.eqb c "010" || includes s LF.
Proof. cbn [includes]. by rewrite prefix_LF. Qed.

Lemma includes_LF_app (a b : string) :
  includes (a ++ b) LF = includes a LF || includes b LF.
Proof.
  induction a as [| c a IH].
  - simpl. by destruct b.
  - change (String c a ++ b) with (String c (a ++ b)).
    rewrite !includes_LF_cons, IH. by rewrite orb_assoc.
Qed.

(** A text without line feed is one piece. *)
Lemma split_go_one_line (cur s : string) :
  includes s LF = false -> split_go LF 0 cur s = [cur ++ s].
Proof.
  revert cur. induction s as [| c s IH]; intros cur Hs.
  - simpl. by rewrite append_nil_r.
  - rewrite includes_LF_cons in Hs. apply orb_false_elim in Hs as [Hc Hs].
    rewrite split_go_LF, Hc, (IH _ Hs), append_assoc. done.
Qed.

(** Splitting a text given in two parts: the last piece of the first part is
    continued by the second part. *)
Lemma split_go_app (cur x y : string) :
  split_go LF 0 cur (x ++ y) =
  (removelast (split_go LF 0 cur x) ++
   split_go LF 0 (List.last (split_go LF 0 cur x) "") y)%list.
Proof.
  revert cur. induction x as [| c x IH]; intros cur; [done |].
  change (String c x ++ y) with (String c (x ++ y)).
  rewrite !split_go_LF. destruct (Ascii.eqb c "010"); [| apply IH].
  rewrite IH.
  destruct (split_go LF 0 "" x) as [| p ps] eqn:E; [by apply split_go_nonempty in E |].
  done.
Qed.

Lemma split_go_pieces (cur s : string) :
  includes cur LF = false ->
  Forall (fun piece => includes piece LF = false) (split_go LF 0 cur s).
Proof.
  revert cur. induction s as [| c s IH]; intros cur Hcur.
  - by constructor.
  - rewrite split_go_LF. destruct (Ascii.eqb c "010") eqn:E.
    + constructor; [done | by apply IH].
    + apply IH. rewrite includes_LF_app, Hcur, includes_LF_cons, E. done.
Qed.

Lemma last_cons_nonempty {A} (x d : A) (l : list A) :
  l <> [] -> List.last (x :: l) d = List.last l d.
Proof. by destruct l. Qed.

Lemma removelast_cons_nonempty {A} (x : A) (l : list A) :
  l <> [] -> removelast (x :: l) = x :: removelast l.
Proof. by destruct l. Qed.

Lemma last_one_line (cur s : string) :
  includes cur LF = false ->
  includes (List.last (split_go LF 0 cur s) "") LF = false.
Proof.
  revert cur. induction s as [| c s IH]; intros cur Hcur; [done |].
  rewrite split_go_LF. destruct (Ascii.eqb c "010") eqn:E.
  - rewrite last_cons_nonempty by apply split_go_nonempty. by apply IH.
  - apply IH. rewrite includes_LF_app, Hcur, includes_LF_cons, E. done.
Qed.

Lemma last_app_nonempty {A} (d : A) (l l' : list A) :
  l' <> [] -> List.last (l ++ l') d = List.last l' d.
Proof.
  intros Hl'. induction l as [| x l IH]; [done |].
  change ((x :: l) ++ l')%list with (x :: (l ++ l'))%list.
  rewrite last_cons_nonempty; [exact IH |]. by destruct l.
Qed.

Lemma removelast_app_nonempty {A} (l l' : list A) :
  l' <> [] -> removelast (l ++ l') = (l ++ removelast l')%list.
Proof. apply removelast_app. Qed.

(** A line without line feed, then a line feed, then the rest. *)
Lemma split_go_line (cur line rest : string) :
  includes line LF = false ->
  split_go LF 0 cur (line ++ LF ++ rest) = (cur ++ line) :: split_go LF 0 "" rest.
Proof.
  revert cur. induction line as [| c line IH]; intros cur Hline.
  - change ("" ++ LF ++ rest) with (String "010" rest).
    rewrite split_go_LF. simpl. by rewrite append_nil_r.
  - rewrite includes_LF_cons in Hline. apply orb_false_elim in Hline as [Hc Hline].
    change (String c line ++ LF ++ rest) with (String c (line ++ LF ++ rest)).
    rewrite split_go_LF, Hc, (IH _ Hline), append_assoc. done.
Qed.

Lemma prefix_app (p x : string) : String.prefix p (p ++ x) = true.
Proof.
  induction p as [| c p IH]; [by destruct x |].
  change (String c p ++ x) with (String c (p ++ x)). cbn [String.prefix].
  destruct (Ascii.ascii_dec c c) as [_ | Hne]; [exact IH | contradiction].
Qed.

Lemma set_buffer_same (r : reading) : set_buffer (buffer r) r = r.
Proof. by destruct r. Qed.

Lemma line_catch_buffer (b : string) (e : exn) (r : reading) :
  line_catch e (set_buffer b r) = on_progress (set_buffer b) (line_catch e r).
Proof. unfold line_catch. by destruct (_ && _). Qed.

Lemma handle_data_buffer (b : string) (data : json) (r : reading) :
  handle_data data (set_buffer b r) = on_progress (set_buffer b) (handle_data data r).
Proof.
  unfold handle_data.
  destruct data; try apply line_catch_buffer;
    (destruct (truthy (prop _ "error")); [apply line_catch_buffer |]);
    destruct (truthy (prop _ "delta")); destruct (_ && _); done.
Qed.

Lemma handle_events_buffer (b : string) (events : list json) (r : reading) :
  handle_events events (set_buffer b r) = on_progress (set_buffer b) (handle_events events r).
Proof.
  revert r. induction events as [| data rest IH]; intros r; [done |].
  simpl. rewrite handle_data_buffer.
  destruct (handle_data data r) as [r' | e t]; simpl; [apply IH | done].
Qed.

Section Wire.
Context `{JsonCodec}.

Lemma handle_line_buffer (b line : string) (r : reading) :
  handle_line line (set_buffer b r) = on_progress (set_buffer b) (handle_line line r).
Proof.
  unfold handle_line. destruct (startsWith line "data: "); [| done].
  destruct (JSON_parse _); [apply handle_data_buffer | done].
Qed.

Lemma handle_lines_buffer (b : string) (lines : list string) (r : reading) :
  handle_lines lines (set_buffer b r) = on_progress (set_buffer b) (handle_lines lines r).
Proof.
  revert r. induction lines as [| line rest IH]; intros r; [done |].
  simpl. rewrite handle_line_buffer.
  destruct (handle_line line r) as [r' | e t]; simpl; [apply IH | done].
Qed.

Lemma handle_lines_app (l1 l2 : list string) (r : reading) :
  handle_lines (l1 ++ l2) r = and_then (handle_lines l1 r) (handle_lines l2).
Proof.
  revert r. induction l1 as [| line rest IH]; intros r; [done |].
  simpl. destruct (handle_line line r) as [r' | e t]; simpl; [apply IH | done].
Qed.

(** Reading a text in two chunks is reading it in one. *)
Lemma handle_chunk_app (a b : string) (r : reading) :
  handle_chunk (a ++ b) r = and_then (handle_chunk a r) (handle_chunk b).
Proof.
  unfold handle_chunk, split.
  rewrite <- append_assoc, split_go_app.
  set (La := split_go LF 0 "" (buffer r ++ a)).
  set (Lb := split_go LF 0 (List.last La "") b).
  assert (HLb : Lb <> []) by apply split_go_nonempty.
  rewrite removelast_app_nonempty, last_app_nonempty by exact HLb.
  rewrite handle_lines_app, !handle_lines_buffer.
  destruct (handle_lines (removelast La) r) as [r1 | e t]; simpl; [| done].
  assert (Hone : includes (List.last La "") LF = false) by (by apply last_one_line).
  rewrite split_go_app, (split_go_one_line "" _ Hone). simpl.
  subst Lb. reflexivity.
Qed.

Lemma handle_chunk_buffer (chunk : string) (r r' : reading) :
  handle_chunk chunk r = Continue r' -> includes (buffer r') LF = false.
Proof.
  unfold handle_chunk, split. rewrite handle_lines_buffer.
  destruct (handle_lines _ r) as [r1 | e t]; simpl; [| discriminate].
  intros [= <-]. simpl. by apply last_one_line.
Qed.

Lemma handle_chunk_empty (r : reading) :
  includes (buffer r) LF = false -> handle_chunk "" r = Continue r.
Proof.
  intros Hone. unfold handle_chunk, split.
  rewrite append_nil_r, (split_go_one_line "" _ Hone). simpl.
  by rewrite set_buffer_same.
Qed.

(** The reading loop does not depend on how the text of the response is cut
    into chunks. *)
Lemma read_loop_concat (chunks : list string) (r : reading) :
  includes (buffer r) LF = false ->
  read_loop chunks ReadDone r = handle_chunk (String.concat "" chunks) r.
Proof.
  revert r. induction chunks as [| chunk rest IH]; intros r Hone.
  - simpl. by rewrite handle_chunk_empty.
  - rewrite concat_cons, handle_chunk_app. simpl.
    destruct (handle_chunk chunk r) as [r' | e t] eqn:E; simpl; [| done].
    apply IH. by apply (handle_chunk_buffer chunk r).
Qed.

Lemma faithful_cons (event : json) (events : list json) :
  faithful (event :: events) ->
  (JSON_parse (JSON_stringify event) = Some event /\
   includes (JSON_stringify event) LF = false) /\ faithful events.
Proof.
  intros Hall. split; [apply Hall; by left |].
  intros x Hx. apply Hall. by right.
Qed.

Lemma sse_body_cons (event : json) (events : list json) :
  sse_body (event :: events) = sse_write event ++ sse_body events.
Proof. unfold sse_body. simpl map. apply concat_cons. Qed.

Lemma split_sse_body (events : list json) :
  faithful events ->
  split_go LF 0 "" (sse_body events) = (sse_lines events ++ [""])%list.
Proof.
  induction events as [| event rest IH]; intros Hall; [done |].
  apply faithful_cons in Hall as [[_ Hone] Hrest].
  rewrite sse_body_cons. unfold sse_write.
  replace (("data: " ++ JSON_stringify event ++ LF ++ LF) ++ sse_body rest)
    with (("data: " ++ JSON_stringify event) ++ LF ++ ("" ++ LF ++ sse_body rest))
    by (by rewrite !append_assoc).
  rewrite split_go_line by (by rewrite includes_LF_app, Hone).
  rewrite split_go_line by done.
  rewrite (IH Hrest). done.
Qed.

Lemma handle_line_data (event : json) (r : reading) :
  JSON_parse (JSON_stringify event) = Some event ->
  handle_line ("data: " ++ JSON_stringify event) r = handle_data event r.
Proof.
  intros Hparse. unfold handle_line, startsWith. rewrite prefix_app.
  change (slice_from 6 ("data: " ++ JSON_stringify event)) with (JSON_stringify event).
  by rewrite Hparse.
Qed.

Lemma handle_lines_sse (events : list json) (r : reading) :
  faithful events -> handle_lines (sse_lines events) r = handle_events events r.
Proof.
  revert r. induction events as [| event rest IH]; intros r Hall; [done |].
  apply faithful_cons in Hall as [[Hparse _] Hrest].
  change (sse_lines (event :: rest))
    with (("data: " ++ JSON_stringify event) :: "" :: sse_lines rest).
  cbn [handle_lines handle_events]. rewrite (handle_line_data _ _ Hparse).
  destruct (handle_data event r) as [r' | e t]; [| done].
  change (handle_line "" r') with (Continue r'). by apply IH.
Qed.

(** What the screen reads from the text of an event stream, in whatever
    chunks it arrives, is what the events say. *)
Lemma read_loop_sse (events : list json) (chunks : list string) (r : reading) :
  faithful events ->
  String.concat "" chunks = sse_body events ->
  buffer r = "" ->
  read_loop chunks ReadDone r = handle_events events r.
Proof.
  intros Hall Htext Hbuf.
  rewrite read_loop_concat by (by rewrite Hbuf).
  rewrite Htext. unfold handle_chunk, split. rewrite Hbuf.
  change ("" ++ sse_body events) with (sse_body events).
  rewrite (split_sse_body _ Hall), removelast_last, last_last.
  rewrite <- Hbuf, set_buffer_same. by apply handle_lines_sse.
Qed.

End Wire.

(** Events that only carry text add their text to the screen. *)
Lemma handle_events_plain (events : list json) (r : reading) :
  forallb plain_event events = true ->
  handle_events events r =
  Continue {| buffer := buffer r; finalResult := finalResult r;
              shown := shown r ++ String.concat "" (map delta_text events) |}.
Proof.
  revert r. induction events as [| data rest IH]; intros r Hall.
  - simpl. rewrite append_nil_r. by destruct r.
  - simpl in Hall. apply andb_prop in Hall as [Hplain Hrest].
    cbn [handle_events map]. rewrite concat_cons, <- append_assoc.
    assert (Hdata : handle_data data r =
                    Continue {| buffer := buffer r; finalResult := finalResult r;
                                shown := shown r ++ delta_text data |}).
    { unfold handle_data, plain_event, delta_text in *.
      destruct data; try discriminate;
        apply andb_prop in Hplain as [Herr Hres];
        apply negb_true_iff in Herr, Hres; rewrite Herr, Hres;
        (destruct (truthy (prop _ "delta")); [done |]);
        rewrite append_nil_r; by destruct r. }
    rewrite Hdata. by rewrite (IH _ Hrest).
Qed.

Lemma delta_event_plain (d : string) : plain_event (delta_event d) = true.
Proof. reflexivity. Qed.

Lemma delta_event_text (d : string) : delta_text (delta_event d) = d.
Proof.
  unfold delta_text, delta_event. simpl.
  destruct (String.eqb_spec d "") as [-> | Hne]; done.
Qed.

(** The deltas of a stream and then an error event: the error is thrown, the
    text of the deltas stays on the screen. *)
Lemma handle_events_error (ds : list string) (msg : string) (r : reading) :
  msg <> "" -> includes msg "JSON" = false ->
  handle_events (map delta_event ds ++ [error_event msg]) r =
  Thrown (Error msg) (shown r ++ String.concat "" ds).
Proof.
  intros Hmsg Hjson. revert r. induction ds as [| d rest IH]; intros r.
  - simpl. unfold handle_data, line_catch. simpl.
    apply String.eqb_neq in Hmsg. rewrite Hmsg, Hjson. simpl.
    by rewrite append_nil_r.
  - cbn [map app handle_events].
    assert (Hd : handle_data (delta_event d) r =
                 Continue {| buffer := buffer r; finalResult := finalResult r;
                             shown := shown r ++ d |}).
    { pose proof (handle_events_plain [delta_event d] r eq_refl) as Hp.
      cbn [handle_events map] in Hp. rewrite concat_cons, delta_event_text in Hp.
      simpl String.concat in Hp. rewrite append_nil_r in Hp.
      by destruct (handle_data (delta_event d) r). }
    rewrite Hd, IH. cbn [shown]. by rewrite concat_cons, append_assoc.
Qed.

End WireFacts.

(** ** The session: adding images *)
Module SessionFacts.
Import JsString Js Upload JsFacts.

Lemma mark_failed_ids (id : string) (imgs : list ImageItem.t) :
  map ImageItem.id (mark_failed id imgs) = map ImageItem.id imgs.
Proof.
  unfold mark_failed. rewrite map_map. apply map_ext.
  intros img. by destruct (String.eqb _ _).
Qed.

Lemma mark_enhanced_ids (id conv enh : string) (imgs : list ImageItem.t) :
  map ImageItem.id (mark_enhanced id conv enh imgs) = map ImageItem.id imgs.
Proof.
  unfold mark_enhanced. rewrite map_map. apply map_ext.
  intros img. by destruct (String.eqb _ _).
Qed.

Lemma begin_ids step_seen id uri base64 st :
  map ImageItem.id (images (addImageFromResult_begin step_seen id uri base64 st)) =
  (map ImageItem.id (images st) ++ [id])%list.
Proof.
  unfold addImageFromResult_begin.
  destruct (negb (truthy_str base64)); simpl.
  - by rewrite mark_failed_ids, map_app.
  - by rewrite map_app.
Qed.

Lemma finish_ids id base64 res st :
  map ImageItem.id (images (addImageFromResult_finish id base64 res st)) =
  map ImageItem.id (images st).
Proof.
  unfold addImageFromResult_finish.
  destruct res as [| [e |] conv]; simpl; try apply mark_failed_ids.
  destruct (String.eqb e ""); simpl; [apply mark_failed_ids | apply mark_enhanced_ids].
Qed.

Lemma addImageFromResult_ids step_seen id uri base64 res st :
  map ImageItem.id (images (addImageFromResult step_seen id uri base64 res st)) =
  (map ImageItem.id (images st) ++ [id])%list.
Proof.
  unfold addImageFromResult.
  destruct base64 as [b |]; [| apply begin_ids].
  destruct (truthy_str (Some b)); [| apply begin_ids].
  rewrite finish_ids. apply begin_ids.
Qed.

Lemma add_asset_ids step_seen a st :
  map ImageItem.id (images (add_asset step_seen a st)) =
  (map ImageItem.id (images st) ++ [asset_id a])%list.
Proof. apply addImageFromResult_ids. Qed.

Lemma add_assets_ids step_seen assets st :
  map ImageItem.id (images (fold_left (fun acc a => add_asset step_seen a acc) assets st)) =
  (map ImageItem.id (images st) ++ map asset_id assets)%list.
Proof.
  revert st. induction assets as [| a rest IH]; intros st; simpl.
  - by rewrite app_nil_r.
  - rewrite IH, add_asset_ids, <- app_assoc. done.
Qed.

Lemma setStep_images v st : images (setStep v st) = images st.
Proof. done. Qed.

(** C7.  In a session of at most four images a photograph is added (the
    identifiers of the images are the former ones followed by the new one)
    and so are the pictures picked from the gallery, which stay within five
    images when the gallery gives no more pictures than it was asked for; in
    a session of five images both ways of adding end with the alert "Limit
    Reached" and leave the session, hence its images, as it was. *)
Theorem add_image_capacity (st : State) :
  ((length (images st) <= 4)%nat ->
   (forall a : asset,
      map ImageItem.id (images (fst (capturePhoto (CameraAsset a) st))) =
        (map ImageItem.id (images st) ++ [asset_id a])%list /\
      length (images (fst (capturePhoto (CameraAsset a) st))) = S (length (images st)) /\
      snd (capturePhoto (CameraAsset a) st) = []) /\
   (forall (pick : nat -> gallery_result) (a : asset) (more : list asset),
      pick (5 - length (images st))%nat = GalleryAssets (a :: more) ->
      map ImageItem.id (images (fst (pickFromGallery pick st))) =
        (map ImageItem.id (images st) ++ map asset_id (a :: more))%list /\
      snd (pickFromGallery pick st) = [] /\
      ((length (a :: more) <= 5 - length (images st))%nat ->
       (length (images (fst (pickFromGallery pick st))) <= 5)%nat))) /\
  ((length (images st) = 5)%nat ->
   (forall camera : camera_result,
      capturePhoto camera st = (st, [Alert "Limit Reached" "Maximum 5 photos allowed."])) /\
   (forall pick : nat -> gallery_result,
      pickFromGallery pick st = (st, [Alert "Limit Reached" "Maximum 5 photos allowed."])) /\
   (forall camera, length (images (fst (capturePhoto camera st))) = 5%nat) /\
   (forall pick, length (images (fst (pickFromGallery pick st))) = 5%nat)).
Proof.
  split.
  - intros Hlen. split.
    + intros a. unfold capturePhoto, MAX_IMAGES.
      destruct (5 <=? length (images st))%nat eqn:E; [apply Nat.leb_le in E; lia |].
      assert (Hids : map ImageItem.id
                       (images (if is_capture (step st)
                                then setStep Step_review (add_asset (step st) a st)
                                else add_asset (step st) a st)) =
                     (map ImageItem.id (images st) ++ [asset_id a])%list).
      { destruct (is_capture (step st)); [rewrite setStep_images |]; apply add_asset_ids. }
      simpl. split; [exact Hids |]. split; [| done].
      apply (f_equal (@length string)) in Hids.
      rewrite length_app, !length_map in Hids. simpl in Hids. lia.
    + intros pick a more Hpick. unfold pickFromGallery, MAX_IMAGES.
      destruct (Z.leb _ 0) eqn:E; [apply Z.leb_le in E; lia |].
      replace (Z.to_nat (Z.of_nat 5 - Z.of_nat (length (images st))))
        with (5 - length (images st))%nat by lia.
      rewrite Hpick. cbn [fst snd].
      assert (Hids : map ImageItem.id
                       (images (if is_capture (step st)
                                then setStep Step_review
                                       (fold_left (fun acc a => add_asset (step st) a acc)
                                          (a :: more) st)
                                else fold_left (fun acc a => add_asset (step st) a acc)
                                       (a :: more) st)) =
                     (map ImageItem.id (images st) ++ map asset_id (a :: more))%list).
      { destruct (is_capture (step st)); [rewrite setStep_images |];
          apply (add_assets_ids (step st) (a :: more) st). }
      split; [exact Hids |]. split; [done |].
      intros Hlimit. apply (f_equal (@length string)) in Hids.
      rewrite length_app, !length_map in Hids. lia.
  - intros Hlen.
    assert (Hcam : forall camera,
               capturePhoto camera st = (st, [Alert "Limit Reached" "Maximum 5 photos allowed."])).
    { intros camera. unfold capturePhoto, MAX_IMAGES. by rewrite Hlen. }
    assert (Hpick : forall pick,
               pickFromGallery pick st = (st, [Alert "Limit Reached" "Maximum 5 photos allowed."])).
    { intros pick. unfold pickFromGallery, MAX_IMAGES. by rewrite Hlen. }
    repeat split; try done.
    + intros camera. by rewrite Hcam.
    + intros pick. by rewrite Hpick.
Qed.

(** What the failure of an enhancement does: the image is marked as failed
    and its selection flag is set to false. *)
Lemma failed_enhancement_clears_flag (id base64 : string) (st : State) :
  let st' := addImageFromResult_finish id base64 EnhanceThrows st in
  useEnhanced st' !! id = Some false /\
  forall img, In img (images st') -> ImageItem.id img = id ->
              ImageItem.enhanceFailed img = true /\ ImageItem.enhancing img = false.
Proof.
  simpl. split; [apply lookup_insert_eq |].
  intros img Hin Hid. unfold mark_failed in Hin. apply in_map_iff in Hin.
  destruct Hin as (x & Hx & _).
  destruct (String.eqb (ImageItem.id x) id) eqn:E; subst img; [done |].
  apply String.eqb_neq in E. contradiction.
Qed.

(** What the addition of an image without bytes does: the image is marked
    as failed, and its selection flag stays true. *)
Lemma image_without_bytes_keeps_flag (step_seen : Step) (id uri : string) (st : State) :
  let st' := addImageFromResult step_seen id uri None EnhanceThrows st in
  useEnhanced st' !! id = Some true /\
  exists img, In img (images st') /\ ImageItem.id img = id /\
              ImageItem.originalBase64 img = None /\
              ImageItem.enhanceFailed img = true /\ ImageItem.enhancing img = false.
Proof.
  simpl. split; [apply lookup_insert_eq |].
  eexists. split.
  - unfold mark_failed. apply in_map_iff. eexists. split; [reflexivity |].
    apply in_or_app. right. left. reflexivity.
  - simpl. by rewrite String.eqb_refl.
Qed.

Section Reachable.
Context `{JsonCodec}.

(** C6, as the code has it.  A session in which an image has failed and
    still has its selection flag set to true is reachable: photograph an
    item, the camera giving no bytes. *)
Theorem failed_image_with_enhanced_flag_reachable :
  exists (st : State) (img : ImageItem.t),
    reachable st /\ In img (images st) /\
    ImageItem.enhanceFailed img = true /\
    useEnhanced st !! ImageItem.id img = Some true.
Proof.
  exists (fst (capturePhoto (CameraAsset (Examples.photo_without_bytes "a")) initial)).
  eexists. split; [| split; [left; reflexivity | split; reflexivity]].
  apply reach_capture.
  - apply reach_initial.
  - by left.
  - split; [apply NoDup_singleton | by intros id _ []].
Qed.

End Reachable.

End SessionFacts.

(** ** The session: preconditions of the analysis, what is sent, what is kept *)
Module UploadFacts.
Import JsString Js Upload JsFacts.

#[local] Arguments originalImages : simpl never.

Lemma anyEnhancing_true (st : State) :
  anyEnhancing st = true <->
  exists img, In img (images st) /\ ImageItem.enhancing img = true.
Proof. unfold anyEnhancing. apply existsb_exists. Qed.

Lemma originalImages_cons (img : ImageItem.t) (rest : list ImageItem.t) :
  originalImages (img :: rest) =
  match ImageItem.originalBase64 img with
  | Some b => if String.eqb b "" then originalImages rest else b :: originalImages rest
  | None => originalImages rest
  end.
Proof.
  unfold originalImages. simpl.
  destruct (ImageItem.originalBase64 img) as [b |]; [| done].
  by destruct (String.eqb b "").
Qed.

Lemma originalImages_none (imgs : list ImageItem.t) :
  (forall img, In img imgs -> ImageItem.originalBase64 img = None) ->
  originalImages imgs = [].
Proof.
  induction imgs as [| img rest IH]; intros Hall; [done |].
  rewrite originalImages_cons.
  rewrite (Hall img) by (by left). apply IH. intros x Hx. apply Hall. by right.
Qed.



Lemma originalImages_length (imgs : list ImageItem.t) :
  (length (originalImages imgs) <= length imgs)%nat.
Proof.
  induction imgs as [| img rest IH]; [done |].
  rewrite originalImages_cons. simpl.
  destruct (ImageItem.originalBase64 img) as [b |]; [destruct (String.eqb b "") |];
    simpl; lia.
Qed.

Lemma originalImages_shorter (imgs : list ImageItem.t) (img : ImageItem.t) :
  In img imgs -> ImageItem.originalBase64 img = None ->
  (length (originalImages imgs) < length imgs)%nat.
Proof.
  induction imgs as [| x rest IH]; [done |].
  intros [<- | Hin] Hnone; rewrite originalImages_cons; simpl.
  - rewrite Hnone. pose proof (originalImages_length rest). lia.
  - specialize (IH Hin Hnone).
    destruct (ImageItem.originalBase64 x) as [b |]; [destruct (String.eqb b "") |];
      simpl; lia.
Qed.

Section Analyze.
Context `{JsonCodec}.

Lemma fail_facts (e : exn) (effs : list effect) (st : State) :
  let r := fail e effs st in
  ended r = Failed e /\ effects r = effs /\
  step (final r) = Step_review /\ error (final r) = Some (shown_error e) /\
  images (final r) = images st /\ useEnhanced (final r) = useEnhanced st /\
  result (final r) = result st /\ streamingText (final r) = streamingText st.
Proof. by repeat split. Qed.

(** Once the analysis has started it ends in one of three ways, the
    images of the session are as before, and at most one request was
    sent: the non-empty original images and the key. *)
Lemma analyze_with_facts (w : world) (apiKey : string) (primaryImg : ImageItem.t)
    (st : State) :
  let r := analyze_with w apiKey primaryImg st in
  ~ refused (ended r) /\
  images (final r) = images st /\
  useEnhanced (final r) = useEnhanced st /\
  requests r =
    (if Nat.eqb (length (originalImages (images st))) 0 then []
     else [Fetch "/api/analyze-stream" (originalImages (images st)) apiKey]) /\
  (ended r = NoValidImages <-> originalImages (images st) = []).
Proof.
  unfold analyze_with, refused, requests.
  destruct (originalImages (images st)) as [| b sent] eqn:Hsent; simpl.
  { repeat split; try done. intros [? | [? | ?]]; discriminate. }
  assert (Hno : forall e, ~ (Failed e = NoImages \/ Failed e = EnhancementPending \/
                               Failed e = MissingCredential)).
  { intros e [? | [? | ?]]; discriminate. }
  destruct (fetch w (b :: sent) apiKey) as [e | errText | | chunks fin]; simpl;
    try (repeat split; try done; try apply Hno; intros; discriminate).
  destruct (read_loop chunks fin _) as [r | e t]; simpl;
    try (repeat split; try done; try apply Hno; intros; discriminate).
  unfold finish. destruct (finalResult r) as [res |]; simpl;
    try (repeat split; try done; try apply Hno; intros; discriminate).
  destruct (saveDraft w _) as [e |]; simpl;
    try (repeat split; try done; try apply Hno; intros; discriminate).
  repeat split; try done. intros [? | [? | ?]]; discriminate.
Qed.

(** The four ways through the checks of [proceedToAnalyze]. *)
Lemma proceedToAnalyze_checks (w : world) (st : State) :
  (images st = [] /\ anyEnhancing st = false /\
   proceedToAnalyze w st = {| final := st; effects := []; ended := NoImages |}) \/
  (images st <> [] /\ anyEnhancing st = true /\
   proceedToAnalyze w st
   = {| final := st;
        effects := [Alert "Still Processing"
                      "Some photos are still being enhanced. Please wait a moment."];
        ended := EnhancementPending |}) \/
  (images st <> [] /\ anyEnhancing st = false /\ truthy_str (getApiKey w) = false /\
   proceedToAnalyze w st = missing_key st) \/
  (images st <> [] /\ anyEnhancing st = false /\ truthy_str (getApiKey w) = true /\
   ~ refused (ended (proceedToAnalyze w st))).
Proof.
  unfold proceedToAnalyze.
  destruct (images st) as [| primaryImg rest] eqn:Himgs.
  { left. split; [done |]. split; [| done]. unfold anyEnhancing. by rewrite Himgs. }
  right. destruct (anyEnhancing st) eqn:Hany; [left; by repeat split |]. right.
  destruct (getApiKey w) as [apiKey |]; [| left; by repeat split].
  cbn [truthy_str]. destruct (String.eqb apiKey ""); [left; by repeat split |].
  right. repeat split; try done.
  pose proof (analyze_with_facts w apiKey primaryImg st) as Hfacts.
  cbv zeta in Hfacts. tauto.
Qed.

(** C3.  The three refusals of [proceedToAnalyze], each with what the user
    gets and what is left of the session.  The call ends with NoImages
    exactly when the session has no image: it returns silently, the
    session is as it was and nothing is raised.  It ends with
    EnhancementPending if and only if some image of the session is still
    enhancing: the alert "Still Processing" is raised and the session is as
    it was.  It ends with MissingCredential exactly when the two other
    checks pass and no API key is configured: the error of the session is
    set to "Please set your OpenAI API key in Settings first." (in the
    review step the banner shows it), nothing else changes and nothing is
    raised.  Without an API key every call is refused, and a refused call
    sends no request and leaves the step and the images as they were. *)
Theorem proceedToAnalyze_preconditions (w : world) (st : State) :
  let r := proceedToAnalyze w st in
  (ended r = EnhancementPending <->
     exists img, In img (images st) /\ ImageItem.enhancing img = true) /\
  (images st = [] -> ended r = NoImages) /\
  (truthy_str (getApiKey w) = false -> refused (ended r)) /\
  (truthy_str (getApiKey w) = false -> images st <> [] -> anyEnhancing st = false ->
     ended r = MissingCredential) /\
  (refused (ended r) ->
     requests r = [] /\ step (final r) = step st /\ images (final r) = images st) /\
  (ended r = NoImages <-> images st = []) /\
  (ended r = MissingCredential <->
     images st <> [] /\ anyEnhancing st = false /\ truthy_str (getApiKey w) = false) /\
  (ended r = NoImages -> final r = st /\ effects r = []) /\
  (ended r = EnhancementPending ->
     final r = st /\
     effects r = [Alert "Still Processing"
                    "Some photos are still being enhanced. Please wait a moment."]) /\
  (ended r = MissingCredential ->
     final r = setError (Some "Please set your OpenAI API key in Settings first.") st /\
     error (final r) = Some "Please set your OpenAI API key in Settings first." /\
     (step st = Step_review ->
      View.error_banner (final r)
      = Some "Please set your OpenAI API key in Settings first.") /\
     effects r = []) /\
  (refused (ended r) -> forall e, In e (effects r) -> is_fetch e = false).
Proof.
  intros r. subst r. rewrite <- anyEnhancing_true.
  destruct (proceedToAnalyze_checks w st)
    as [(Himgs & Hany & Hrun) | [(Himgs & Hany & Hrun) | [(Himgs & Hany & Hkey & Hrun)
       | (Himgs & Hany & Hkey & Hnot)]]].
  - rewrite Hrun. cbn [ended final effects]. unfold refused, requests.
    cbn [effects List.filter].
    repeat apply conj; try (intros; done); try (intros; congruence);
      try (intros; tauto).
  - rewrite Hrun. cbn [ended final effects]. unfold refused, requests.
    cbn [effects List.filter is_fetch].
    repeat apply conj; try (intros; done); try (intros; congruence);
      try (intros; tauto).
    + intros (_ & Hno & _). congruence.
    + intros _ e [<- | []]. done.
  - rewrite Hrun. cbn [missing_key ended final effects]. unfold refused, requests.
    cbn [effects List.filter step images error setError].
    repeat apply conj; try (intros; done); try (intros; congruence);
      try (intros; tauto).
    intros _. split; [done |]. split; [done |]. split; [| done].
    intros Hstep. unfold View.error_banner. cbn [step error setError].
    by rewrite Hstep.
  - unfold refused in Hnot.
    repeat apply conj; try (intros; exfalso; tauto); try (intros; congruence).
    intros (_ & _ & Hno). congruence.
Qed.

Lemma proceedToAnalyze_started (w : world) (st : State) :
  ~ refused (ended (proceedToAnalyze w st)) ->
  exists apiKey primaryImg rest,
    images st = primaryImg :: rest /\ anyEnhancing st = false /\
    getApiKey w = Some apiKey /\ apiKey <> "" /\
    proceedToAnalyze w st = analyze_with w apiKey primaryImg st.
Proof.
  unfold proceedToAnalyze, refused.
  destruct (images st) as [| primaryImg rest]; simpl; [tauto |].
  destruct (anyEnhancing st); simpl; [tauto |].
  destruct (getApiKey w) as [apiKey |]; simpl; [| tauto].
  destruct (String.eqb apiKey "") eqn:E; simpl; [tauto |].
  apply String.eqb_neq in E. intros _. by exists apiKey, primaryImg, rest.
Qed.

Lemma proceedToAnalyze_images (w : world) (st : State) :
  images (final (proceedToAnalyze w st)) = images st /\
  useEnhanced (final (proceedToAnalyze w st)) = useEnhanced st.
Proof.
  unfold proceedToAnalyze.
  destruct (images st) as [| primaryImg rest] eqn:Himgs; simpl; [done |].
  destruct (anyEnhancing st); simpl; [done |].
  destruct (getApiKey w) as [apiKey |]; simpl; [| done].
  destruct (String.eqb apiKey ""); simpl; [done |].
  pose proof (analyze_with_facts w apiKey primaryImg st) as Hfacts. simpl in Hfacts.
  rewrite Himgs in Hfacts. tauto.
Qed.

Lemma proceedToAnalyze_requests (w : world) (st : State) :
  requests (proceedToAnalyze w st) = [] \/
  exists apiKey, getApiKey w = Some apiKey /\
    requests (proceedToAnalyze w st) =
    [Fetch "/api/analyze-stream" (originalImages (images st)) apiKey].
Proof.
  unfold proceedToAnalyze.
  destruct (images st) as [| primaryImg rest] eqn:Himgs; simpl; [by left |].
  destruct (anyEnhancing st); simpl; [by left |].
  destruct (getApiKey w) as [apiKey |]; simpl; [| by left].
  destruct (String.eqb apiKey ""); simpl; [by left |].
  pose proof (analyze_with_facts w apiKey primaryImg st) as Hfacts. simpl in Hfacts.
  destruct Hfacts as (_ & _ & _ & Hreq & _). rewrite Himgs in Hreq.
  rewrite Hreq. clear Hreq.
  destruct (Nat.eqb _ 0); [by left | right; exists apiKey; by split].
Qed.

Lemma fetch_in_requests (r : run) path sent apiKey :
  In (Fetch path sent apiKey) (effects r) -> In (Fetch path sent apiKey) (requests r).
Proof. intros Hin. unfold requests. apply filter_In. by split. Qed.

(** A completed run made its draft from the event that carried a result,
    with one image reference per image of the session. *)
Lemma analyze_with_completed (w : world) (apiKey : string) (primaryImg : ImageItem.t)
    (st : State) (draft : ListingDraft.t) :
  ended (analyze_with w apiKey primaryImg st) = Completed draft ->
  exists res,
    received w apiKey st = Some res /\
    draft = make_draft w (chosen_uri (useEnhanced st) primaryImg)
              (map (chosen_uri (useEnhanced st)) (images st)) res /\
    result (final (analyze_with w apiKey primaryImg st)) = Some draft /\
    step (final (analyze_with w apiKey primaryImg st)) = Step_result /\
    In (SaveDraft draft) (effects (analyze_with w apiKey primaryImg st)).
Proof.
  unfold analyze_with, received.
  destruct (Nat.eqb _ 0); simpl; [discriminate |].
  destruct (fetch w _ apiKey) as [e | errText | | chunks fin]; simpl; try discriminate.
  destruct (read_loop chunks fin _) as [r | e t]; simpl; try discriminate.
  unfold finish. destruct (finalResult r) as [res |]; simpl; try discriminate.
  destruct (saveDraft w _) as [e |]; simpl; try discriminate.
  intros [= <-]. exists res. repeat split; try done. right. by left.
Qed.

Lemma proceedToAnalyze_completed (w : world) (st : State) (draft : ListingDraft.t) :
  ended (proceedToAnalyze w st) = Completed draft ->
  exists apiKey primaryImg rest res,
    images st = primaryImg :: rest /\
    getApiKey w = Some apiKey /\
    received w apiKey st = Some res /\
    draft = make_draft w (chosen_uri (useEnhanced st) primaryImg)
              (map (chosen_uri (useEnhanced st)) (images st)) res /\
    result (final (proceedToAnalyze w st)) = Some draft /\
    In (SaveDraft draft) (effects (proceedToAnalyze w st)).
Proof.
  intros Hdone.
  destruct (proceedToAnalyze_started w st) as (k & p & rest & Hi & _ & Hk & _ & Heq).
  { rewrite Hdone. intros [? | [? | ?]]; discriminate. }
  rewrite Heq in *. apply analyze_with_completed in Hdone.
  destruct Hdone as (res & Hres & Hd & Hr & _ & Hs).
  by exists k, p, rest, res.
Qed.



(** Every draft that [proceedToAnalyze] makes has one price in its two
    fields [suggestedPrice] and [maxProfitPrice]. *)
Lemma draft_suggestedPrice (w : world) (st : State) (draft : ListingDraft.t) :
  ended (proceedToAnalyze w st) = Completed draft ->
  ListingDraft.suggestedPrice draft = ListingDraft.maxProfitPrice draft.
Proof.
  intros Hdone. apply proceedToAnalyze_completed in Hdone.
  by destruct Hdone as (k & p & rest & res & _ & _ & _ & -> & _).
Qed.

(** C10.  When the session has images, none of them is enhancing, a key
    is configured, and every image has null original bytes, the call ends
    with the message "No valid images to analyze.", back in the review
    step and without a request: an ending that is none of the refusals.
    In every run an image without original bytes is left out of the
    request, stays in the session, and has its entry among the image
    references of the draft. *)
Theorem proceedToAnalyze_no_valid_images (w : world) (st : State) :
  let r := proceedToAnalyze w st in
  (images st <> [] ->
   anyEnhancing st = false ->
   truthy_str (getApiKey w) = true ->
   (forall img, In img (images st) -> ImageItem.originalBase64 img = None) ->
   ended r = NoValidImages /\ ~ refused (ended r) /\
   (forall e, ended r <> Failed e) /\
   error (final r) = Some "No valid images to analyze." /\
   step (final r) = Step_review /\
   effects r = []) /\
  (forall path sent apiKey,
     In (Fetch path sent apiKey) (effects r) ->
     sent = originalImages (images st) /\
     forall img, In img (images st) -> ImageItem.originalBase64 img = None ->
                 ~ In (ImageItem.originalBase64 img) (map Some sent) /\
                 (length sent < length (images st))%nat) /\
  images (final r) = images st /\
  (forall draft, ended r = Completed draft ->
     ListingDraft.imageUris draft = map (chosen_uri (useEnhanced st)) (images st) /\
     length (ListingDraft.imageUris draft) = length (images st)).
Proof.
  intros r. subst r. repeat apply conj.
  - intros Hne Hany Hkey Hnull.
    unfold proceedToAnalyze.
    destruct (images st) as [| primaryImg rest] eqn:Himgs; [done |].
    rewrite Hany.
    destruct (getApiKey w) as [apiKey |]; [| discriminate]. simpl in Hkey.
    destruct (String.eqb apiKey ""); [discriminate |].
    unfold analyze_with. rewrite Himgs, (originalImages_none _ Hnull). simpl.
    unfold refused. repeat split; try done. intros [? | [? | ?]]; discriminate.
  - intros path sent apiKey Hin. apply fetch_in_requests in Hin.
    destruct (proceedToAnalyze_requests w st) as [Hreq | (k & _ & Hreq)];
      rewrite Hreq in Hin; [done |].
    destruct Hin as [[= _ <- _] | []]. split; [done |].
    intros img Himg Hnone. split.
    + rewrite Hnone. intros Hin. apply in_map_iff in Hin.
      destruct Hin as (? & ? & _). discriminate.
    + by apply (originalImages_shorter _ img).
  - apply proceedToAnalyze_images.
  - intros draft Hdone.
    destruct (proceedToAnalyze_started w st) as (k & p & rest & _ & _ & _ & _ & Heq).
    { rewrite Hdone. intros [? | [? | ?]]; discriminate. }
    rewrite Heq in Hdone. apply analyze_with_completed in Hdone.
    destruct Hdone as (res & _ & -> & _). simpl. by rewrite length_map.
Qed.

End Analyze.

End UploadFacts.

(** ** The selection flags in the reachable sessions *)
Module ReachableFacts.
Import JsString Js Upload JsFacts SessionFacts UploadFacts.

(** Updating the image [id] when it is the last one and no other has its
    identifier. *)
Lemma update_last (f : ImageItem.t -> ImageItem.t) (id : string)
    (imgs : list ImageItem.t) (x : ImageItem.t) :
  ~ In id (map ImageItem.id imgs) -> ImageItem.id x = id ->
  map (fun img => if String.eqb (ImageItem.id img) id then f img else img) (imgs ++ [x])
  = (imgs ++ [f x])%list.
Proof.
  intros Hfresh Hid. rewrite map_app. simpl. rewrite Hid, String.eqb_refl. f_equal.
  induction imgs as [| img rest IH]; [done |].
  simpl in *. destruct (String.eqb_spec (ImageItem.id img) id) as [Heq | _].
  - exfalso. apply Hfresh. by left.
  - f_equal. apply IH. intros Hin. apply Hfresh. by right.
Qed.

(** What one call of [addImageFromResult] with a fresh identifier does to
    the images and the flags. *)
Lemma addImageFromResult_shape step_seen id uri base64 res st :
  ~ In id (map ImageItem.id (images st)) ->
  base64 = None \/ truthy_str base64 = true ->
  exists x : ImageItem.t,
    images (addImageFromResult step_seen id uri base64 res st) = (images st ++ [x])%list /\
    ImageItem.id x = id /\
    (forall k, k <> id ->
       useEnhanced (addImageFromResult step_seen id uri base64 res st) !! k
       = useEnhanced st !! k) /\
    (ImageItem.enhanceFailed x = true ->
       ImageItem.enhancedUri x = None /\
       (truthy_str (ImageItem.originalBase64 x) = true ->
        useEnhanced (addImageFromResult step_seen id uri base64 res st) !! id = Some false)).
Proof.
  intros Hfresh Hbytes.
  assert (Hother : forall (k : string) (v : bool) (m : gmap string bool),
             k <> id -> <[id := v]> m !! k = m !! k).
  { intros k v m Hk. apply lookup_insert_ne. congruence. }
  unfold addImageFromResult, addImageFromResult_begin.
  destruct Hbytes as [-> | Htruthy].
  - cbn [truthy_str negb]. cbn [images setImages setUseEnhanced setSelectedIdx useEnhanced].
    unfold mark_failed. rewrite (update_last _ id) by done.
    eexists. split; [reflexivity |]. cbn. repeat split; try done.
    intros k Hk. by apply Hother.
  - destruct base64 as [b |]; [| discriminate]. rewrite Htruthy.
    cbn [negb]. unfold addImageFromResult_finish, mark_failed, mark_enhanced.
    destruct res as [| [e |] conv]; [| destruct (String.eqb e "") |];
      cbn [images setImages setUseEnhanced setSelectedIdx useEnhanced];
      rewrite (update_last _ id) by done;
      (eexists; split; [reflexivity |]); cbn; repeat split; try done;
      try (intros k Hk; by rewrite ?Hother);
      try (intros _; apply lookup_insert_eq).
Qed.

Lemma addImageFromResult_sound step_seen id uri base64 res st :
  flags_sound st ->
  ~ In id (map ImageItem.id (images st)) ->
  base64 = None \/ truthy_str base64 = true ->
  flags_sound (addImageFromResult step_seen id uri base64 res st).
Proof.
  intros [Hdup Hflags] Hfresh Hbytes.
  destruct (addImageFromResult_shape step_seen id uri base64 res st Hfresh Hbytes)
    as (x & Himgs & Hid & Hother & Hnew).
  split.
  - rewrite Himgs, map_app. simpl. rewrite Hid.
    apply NoDup_app. split; [exact Hdup |]. split; [| apply NoDup_singleton].
    intros k Hk Hk'. apply list_elem_of_singleton in Hk'. subst k.
    apply Hfresh. by apply list_elem_of_In.
  - intros img Hin Hfailed. rewrite Himgs in Hin. apply in_app_or in Hin.
    destruct Hin as [Hold | [<- | []]].
    + assert (Hne : ImageItem.id img <> id).
      { intros Heq. apply Hfresh. rewrite <- Heq. by apply in_map. }
      rewrite (Hother _ Hne). by apply Hflags.
    + rewrite Hid. by apply Hnew.
Qed.

Lemma add_asset_sound step_seen a st :
  flags_sound st -> ~ In (asset_id a) (map ImageItem.id (images st)) ->
  flags_sound (add_asset step_seen a st).
Proof.
  intros Hsound Hfresh. apply addImageFromResult_sound; try done.
  destruct (truthy_str (asset_base64 a)) eqn:E; [by right | by left].
Qed.

Lemma add_assets_sound step_seen assets st :
  flags_sound st -> fresh st (map asset_id assets) ->
  flags_sound (fold_left (fun acc a => add_asset step_seen a acc) assets st).
Proof.
  revert st. induction assets as [| a rest IH]; intros st Hsound [Hdup Hfresh]; [done |].
  simpl in *. apply NoDup_cons in Hdup as [Ha Hdup].
  apply IH.
  - apply add_asset_sound; [done |]. apply Hfresh. by left.
  - split; [done |]. intros id Hid. rewrite add_asset_ids.
    intros Hin. apply in_app_or in Hin. destruct Hin as [Hin | [<- | []]].
    + by apply (Hfresh id); [right |].
    + apply Ha. by apply list_elem_of_In.
Qed.

Lemma setStep_sound v st : flags_sound st -> flags_sound (setStep v st).
Proof. done. Qed.

Lemma removeImage_sound id st : flags_sound st -> flags_sound (removeImage id st).
Proof.
  intros [Hdup Hflags]. unfold removeImage, flags_sound. simpl.
  assert (Hsub : forall img, In img (filter (fun img => ImageItem.id img <> id) (images st)) ->
                             In img (images st) /\ ImageItem.id img <> id).
  { intros img Hin. apply list_elem_of_In, list_elem_of_filter in Hin.
    destruct Hin as [Hne Hin]. by apply list_elem_of_In in Hin. }
  split.
  - clear Hflags Hsub. induction (images st) as [| x l IH]; [done |].
    simpl in Hdup. apply NoDup_cons in Hdup as [Hx Hdup].
    destruct (decide (ImageItem.id x <> id)) as [Hne | Heq].
    + rewrite filter_cons_True by done. simpl. apply NoDup_cons. split; [| by apply IH].
      intros Hin. apply Hx. apply list_elem_of_In, in_map_iff in Hin.
      destruct Hin as (y & Hy & Hin). apply list_elem_of_In, list_elem_of_filter in Hin.
      destruct Hin as [_ Hin]. apply list_elem_of_In. rewrite <- Hy.
      apply in_map. by apply list_elem_of_In.
    + rewrite filter_cons_False by done. by apply IH.
  - intros img Hin Hfailed. destruct (Hsub img Hin) as [Hold Hne].
    rewrite lookup_delete_ne by congruence. by apply Hflags.
Qed.

Lemma NoDup_ids_same (imgs : list ImageItem.t) (x y : ImageItem.t) :
  NoDup (map ImageItem.id imgs) -> In x imgs -> In y imgs ->
  ImageItem.id x = ImageItem.id y -> x = y.
Proof.
  induction imgs as [| z l IH]; intros Hdup Hx Hy Hid; [done |].
  simpl in Hdup. apply NoDup_cons in Hdup as [Hz Hdup].
  destruct Hx as [-> | Hx], Hy as [-> | Hy]; try done.
  - exfalso. apply Hz. rewrite Hid. apply list_elem_of_In. by apply in_map.
  - exfalso. apply Hz. rewrite <- Hid. apply list_elem_of_In. by apply in_map.
  - by apply IH.
Qed.

Lemma pressToggle_sound value st : flags_sound st -> flags_sound (pressToggle value st).
Proof.
  intros [Hdup Hflags]. unfold pressToggle, toggle_shown.
  destruct (step st); try done.
  destruct (selected st) as [sel |] eqn:Hsel; [| done].
  destruct (negb (ImageItem.enhancing sel) && truthy_str (ImageItem.enhancedUri sel)) eqn:E;
    [| done].
  apply andb_prop in E as [_ Huri].
  assert (Hin : In sel (images st)).
  { unfold selected in Hsel. apply list_elem_of_In. by eapply list_elem_of_lookup_2. }
  split; [done |]. simpl. intros img Himg Hfailed.
  destruct (Hflags img Himg Hfailed) as [Hnone Hflag]. split; [done |].
  intros Hbytes.
  destruct (decide (ImageItem.id sel = ImageItem.id img)) as [Heq | Hne].
  - assert (sel = img) by (by apply (NoDup_ids_same (images st))). subst img.
    rewrite Hnone in Huri. discriminate.
  - rewrite lookup_insert_ne by done. by apply Hflag.
Qed.

Section Reachable.
Context `{JsonCodec}.

(** The selection flags are sound in every reachable session. *)
Lemma reachable_flags_sound (st : State) : reachable st -> flags_sound st.
Proof.
  induction 1 as [| a st _ IH _ [_ Hfresh] | pick assets st _ IH _ Hpick Hfresh
                  | index st _ IH _ | id st _ IH _ | value st _ IH
                  | w st _ IH _ | st _ IH _].
  - split; [apply NoDup_nil_2 | by intros img []].
  - unfold capturePhoto. destruct (_ <=? _)%nat; [done |]. simpl.
    assert (Hadd : flags_sound (add_asset (step st) a st)).
    { apply add_asset_sound; [done |]. apply Hfresh. by left. }
    by destruct (is_capture (step st)).
  - unfold pickFromGallery. destruct (Z.leb _ 0) eqn:E; [done |].
    apply Z.leb_gt in E. unfold MAX_IMAGES in *.
    replace (Z.to_nat (Z.of_nat 5 - Z.of_nat (length (images st))))
      with (5 - length (images st))%nat by lia.
    rewrite Hpick. destruct assets as [| a rest]; [done |]. simpl fst.
    assert (Hadd : flags_sound
                     (fold_left (fun acc a => add_asset (step st) a acc) (a :: rest) st))
      by (by apply add_assets_sound).
    by destruct (is_capture (step st)).
  - exact IH.
  - by apply removeImage_sound.
  - by apply pressToggle_sound.
  - destruct IH as [Hdup Hflags]. destruct (proceedToAnalyze_images w st) as [Himgs Huse].
    unfold flags_sound. by rewrite Himgs, Huse.
  - split; [apply NoDup_nil_2 | by intros img []].
Qed.

(** In every reachable session an image that came with bytes and whose
    enhancement failed has its selection flag set to false. *)
Lemma failed_image_with_bytes_has_flag_false (st : State) (img : ImageItem.t) :
  reachable st -> In img (images st) ->
  ImageItem.enhanceFailed img = true ->
  truthy_str (ImageItem.originalBase64 img) = true ->
  useEnhanced st !! ImageItem.id img = Some false.
Proof.
  intros Hreach Hin Hfailed Hbytes.
  destruct (reachable_flags_sound st Hreach) as [_ Hflags].
  by apply (Hflags img Hin Hfailed).
Qed.

End Reachable.

End ReachableFacts.

(** ** From the route to the screen *)
Module PipelineFacts.
Import JsString Js Pricing Server Upload JsFacts ServerFacts WireFacts UploadFacts.

#[local] Arguments originalImages : simpl never.

Section Pipeline.
Context `{JsonCodec}.

(** A session that passes the checks of [proceedToAnalyze] and whose request
    is answered by an event stream: the run is decided by the events. *)
Lemma proceedToAnalyze_reads_events (w : world) (st : State) (apiKey : string)
    (events : list json) (chunks : list string) :
  images st <> [] -> anyEnhancing st = false ->
  getApiKey w = Some apiKey -> apiKey <> "" ->
  originalImages (images st) <> [] ->
  fetch w (originalImages (images st)) apiKey = FetchBody chunks ReadDone ->
  String.concat "" chunks = sse_body events ->
  faithful events ->
  exists primaryImg rest,
    images st = primaryImg :: rest /\
    proceedToAnalyze w st =
    let st1 := setStreamingText (fun _ => "") (setError None (setStep Step_analyzing st)) in
    let request := [Fetch "/api/analyze-stream" (originalImages (images st)) apiKey] in
    match handle_events events {| buffer := ""; finalResult := None; shown := "" |} with
    | Thrown e t => fail e request (setStreamingText (fun _ => t) st1)
    | Continue r => finish w request primaryImg r (setStreamingText (fun _ => shown r) st1)
    end.
Proof.
  intros Himgs Hany Hkey Hne Hsent Hfetch Htext Hfaithful.
  destruct (images st) as [| primaryImg rest] eqn:E; [done |].
  exists primaryImg, rest. split; [done |].
  unfold proceedToAnalyze. rewrite E, Hany, Hkey.
  apply String.eqb_neq in Hne. rewrite Hne.
  unfold analyze_with. rewrite E.
  destruct (originalImages (primaryImg :: rest)) as [| b sent] eqn:Es; [done |].
  cbn [length Nat.eqb]. rewrite Hfetch.
  by rewrite (read_loop_sse events chunks {| buffer := ""; finalResult := None; shown := "" |}
                Hfaithful Htext eq_refl).
Qed.

(** C4.  The session passes the checks, the raw text of the model's answer
    does not parse after the code fences are stripped and the text is
    trimmed, and the screen reads the events of the route in any chunks:
    the route ends its stream with the error "Failed to parse AI response",
    the run fails with that message, the session is back in the review step
    with the message as its error, no draft is made or saved, and the images
    are as before. *)
Theorem malformed_response_fails_analysis (w : world) (st : State) (apiKey : string)
    (model_chunks : list (option string)) (rand1 rand2 : Q)
    (events : list json) (read_chunks : list string) :
  images st <> [] -> anyEnhancing st = false ->
  getApiKey w = Some apiKey -> apiKey <> "" ->
  originalImages (images st) <> [] ->
  JSON_parse (cleanContent (String.concat "" (deltas model_chunks))) = None ->
  analyze_stream (Some (originalImages (images st))) (Some apiKey)
    (CreateStream model_chunks StreamDone) rand1 rand2 = EventStream events ->
  fetch w (originalImages (images st)) apiKey = FetchBody read_chunks ReadDone ->
  String.concat "" read_chunks = sse_body events ->
  faithful events ->
  let r := proceedToAnalyze w st in
  events = (map delta_event (deltas model_chunks)
            ++ [error_event "Failed to parse AI response"])%list /\
  ended r = Failed (Error "Failed to parse AI response") /\
  step (final r) = Step_review /\
  error (final r) = Some "Failed to parse AI response" /\
  images (final r) = images st /\
  useEnhanced (final r) = useEnhanced st /\
  result (final r) = result st /\
  (forall draft, ~ In (SaveDraft draft) (effects r)).
Proof.
  intros Himgs Hany Hkey Hne Hsent Hparse Hroute Hfetch Htext Hfaithful r.
  assert (Hevents : events = (map delta_event (deltas model_chunks)
                              ++ [error_event "Failed to parse AI response"])%list).
  { unfold analyze_stream in Hroute.
    destruct (originalImages (images st)) as [| b sent]; [done |].
    apply String.eqb_neq in Hne. simpl in Hroute. rewrite Hne in Hroute. simpl in Hroute.
    rewrite stream_loop_eq in Hroute.
    change ("" ++ String.concat "" (deltas model_chunks))
      with (String.concat "" (deltas model_chunks)) in Hroute.
    rewrite Hparse in Hroute. by injection Hroute as <-. }
  split; [exact Hevents |].
  destruct (proceedToAnalyze_reads_events w st apiKey events read_chunks)
    as (primaryImg & rest & _ & Hrun); try done.
  subst r. rewrite Hrun, Hevents.
  rewrite handle_events_error by done.
  repeat split; try done.
  intros draft [Hin | []]. discriminate.
Qed.

(** C1, as the code has it.  The session passes the checks and the screen
    reads, in any chunks, an event stream none of whose events reports an
    error or carries a result: the run fails with "No result received from
    AI", the session is back in the review step with that message as its
    error, the text of the deltas is only shown as streaming text, and no
    draft is made or saved. *)
Theorem stream_without_result_fails (w : world) (st : State) (apiKey : string)
    (events : list json) (read_chunks : list string) :
  images st <> [] -> anyEnhancing st = false ->
  getApiKey w = Some apiKey -> apiKey <> "" ->
  originalImages (images st) <> [] ->
  fetch w (originalImages (images st)) apiKey = FetchBody read_chunks ReadDone ->
  String.concat "" read_chunks = sse_body events ->
  faithful events ->
  forallb plain_event events = true ->
  let r := proceedToAnalyze w st in
  ended r = Failed (Error "No result received from AI") /\
  step (final r) = Step_review /\
  error (final r) = Some "No result received from AI" /\
  streamingText (final r) = String.concat "" (map delta_text events) /\
  result (final r) = result st /\
  images (final r) = images st /\
  (forall draft, ~ In (SaveDraft draft) (effects r)).
Proof.
  intros Himgs Hany Hkey Hne Hsent Hfetch Htext Hfaithful Hplain r.
  destruct (proceedToAnalyze_reads_events w st apiKey events read_chunks)
    as (primaryImg & rest & _ & Hrun); try done.
  subst r. rewrite Hrun. rewrite handle_events_plain by done.
  repeat split; try done.
  intros draft [Hin | []]. discriminate.
Qed.

(** C8.  The draft that [proceedToAnalyze] makes has its suggestedPrice equal
    to its maxProfitPrice; so has the result that the streaming route sends
    in its last event, and so has the result that the plain route sends as
    its body (every other body is an error). *)
Theorem suggestedPrice_is_maxProfitPrice :
  (forall (w : world) (st : State) (draft : ListingDraft.t),
      ended (proceedToAnalyze w st) = Completed draft ->
      ListingDraft.suggestedPrice draft = ListingDraft.maxProfitPrice draft) /\
  (forall images apiKey openai rand1 rand2 events event res,
      analyze_stream images apiKey openai rand1 rand2 = EventStream events ->
      In event events -> prop event "result" = Some res ->
      exists price : Z,
        prop res "suggestedPrice" = Some (JNum price) /\
        prop res "maxProfitPrice" = Some (JNum price)) /\
  (forall imageBase64 images apiKey openai rand1 rand2 status body,
      analyze imageBase64 images apiKey openai rand1 rand2 = JsonResponse status body ->
      (exists msg, body = JObj [("error", JStr msg)]) \/
      (exists price : Z,
          prop body "suggestedPrice" = Some (JNum price) /\
          prop body "maxProfitPrice" = Some (JNum price))).
Proof.
  repeat apply conj.
  - apply draft_suggestedPrice.
  - intros images apiKey openai rand1 rand2 events event res Hrun Hin Hres.
    destruct (analyze_stream_events _ _ _ _ _ _ Hrun) as (ds & last & -> & Hlast).
    apply in_app_or in Hin. destruct Hin as [Hin | [<- | []]].
    + apply in_map_iff in Hin. destruct Hin as (d & <- & _). discriminate.
    + destruct Hlast as [[msg ->] | (parsed & p & ->)]; [discriminate |].
      simpl in Hres. injection Hres as <-.
      exists (maxProfitPrice p). pose proof (pricing_fields parsed p). tauto.
  - intros imageBase64 images apiKey openai rand1 rand2 status body.
    unfold analyze, required_error. destruct (_ || _); [intros [= _ <-]; eauto |].
    destruct openai as [e | content]; [intros [= _ <-]; eauto |].
    destruct (JSON_parse _) as [parsed |]; [| intros [= _ <-]; eauto].
    destruct (pricing_of parsed rand1 rand2) as [e | p]; intros [= _ <-]; [eauto |].
    right. exists (maxProfitPrice p). pose proof (pricing_fields parsed p). tauto.
Qed.

End Pipeline.

(** C1, as the claim states it, fails: the deltas of the events
    [{delta: "{\"brand\":"}, {delta: "\"Nike\"}"}, {done: true}] concatenate
    to the text of an object with brand Nike, and the run that reads these
    events makes no draft: it fails with "No result received from AI". *)
Lemma deltas_are_not_parsed_into_a_result :
  RefJson.parse (cleanContent (Examples.nike_1 ++ Examples.nike_2))
  = Some (JObj [("brand", JStr "Nike")]) /\
  ended (proceedToAnalyze (H := RefJson.codec)
           (Examples.answering [sse_body (H := RefJson.codec) Examples.deltas_then_done])
           Examples.one_image)
  = Failed (Error "No result received from AI") /\
  ~ exists draft : ListingDraft.t,
      ended (proceedToAnalyze (H := RefJson.codec)
               (Examples.answering [sse_body (H := RefJson.codec) Examples.deltas_then_done])
               Examples.one_image)
      = Completed draft /\ ListingDraft.brand draft = JStr "Nike".
Proof.
  split; [vm_compute; reflexivity |].
  assert (Hrun : ended (proceedToAnalyze (H := RefJson.codec)
                          (Examples.answering
                             [sse_body (H := RefJson.codec) Examples.deltas_then_done])
                          Examples.one_image)
                 = Failed (Error "No result received from AI"))
    by (vm_compute; reflexivity).
  split; [exact Hrun |].
  intros (draft & Hdone & _). rewrite Hrun in Hdone. discriminate.
Qed.

End PipelineFacts.

(** ** The primitives and the operations on sample inputs *)
Module Tests.
Import JsString Js Pricing Server Upload Examples.

Example split_lines :
  split ("data: x" ++ LF ++ LF ++ "data: y" ++ LF ++ "rest") LF
  = ["data: x"; ""; "data: y"; "rest"].
Proof. reflexivity. Qed.

Example split_empty : split "" LF = [""].
Proof. reflexivity. Qed.

Example split_message : split "Error: 401: denied" ": " = ["Error"; "401"; "denied"].
Proof. reflexivity. Qed.

Example includes_substring :
  includes "the north face jacket" "north face" = true /\
  includes "nik" "nike" = false /\ includes "" "" = true.
Proof. by repeat split. Qed.

Example lower : toLowerCase "Nike Hoodie XL-42" = "nike hoodie xl-42".
Proof. reflexivity. Qed.

Example trimmed : trim (" " ++ LF ++ "{ } " ++ LF) = "{ }".
Proof. reflexivity. Qed.

Example fenced :
  cleanContent ("```json" ++ LF ++ "{}" ++ LF ++ "```" ++ LF) = "{}" /\
  cleanContent ("```" ++ LF ++ "{}" ++ "```") = "{}" /\
  cleanContent "{}" = "{}".
Proof. by repeat split. Qed.

Example first_brand_wins :
  first_match "gap x nike" brandPrices 15 = 22 /\
  first_match "acme" brandPrices 15 = 15 /\
  first_match "very good" conditionMultipliers 0.7%Q = 0.7%Q /\
  first_match "good" conditionMultipliers 0.7%Q = 0.55%Q.
Proof. by repeat split. Qed.

Example rounding :
  Math_round 24.5 = 25 /\ Math_round 24.4 = 24 /\ Math_round (-0.5) = 0 /\
  Math_round (-0.6) = -1.
Proof. by repeat split. Qed.

Example nike_hoodie :
  generateUKPricing "Nike Hoodie" "New with tags" 0.5 0.99
  = {| quickSellPrice := 16; maxProfitPrice := 25; sellProbability := 90 |}.
Proof. reflexivity. Qed.

Example primark_satisfactory :
  generateUKPricing "Primark" "Satisfactory" 0 0
  = {| quickSellPrice := 2; maxProfitPrice := 3; sellProbability := 24 |}.
Proof. reflexivity. Qed.

Example shown_errors :
  shown_error (Error "Failed to parse AI response") = "Failed to parse AI response" /\
  shown_error (Error "") = "Analysis failed. Please try again." /\
  shown_error (Error "Error: 401: denied") = "401: denied" /\
  shown_error (Error ("{" ++ RefJson.q "error" ++ ":" ++ RefJson.q "Invalid API key" ++ "}"))
  = "".
Proof. by repeat split. Qed.

Example texts_of_values :
  to_String (JNum (-12)) = "-12" /\ to_String (JBool true) = "true" /\
  to_String (JArr [JNum 1; JNull; JStr "a"]) = "1,,a" /\
  to_String (JObj []) = "[object Object]".
Proof. by repeat split. Qed.

Example spread_over :
  prop (Server.finalResult (JObj [("brand", JStr "Nike"); ("maxProfitPrice", JStr "n/a")])
          {| quickSellPrice := 12; maxProfitPrice := 18; sellProbability := 62 |})
       "maxProfitPrice" = Some (JNum 18).
Proof. reflexivity. Qed.

Example reference_codec :
  RefJson.parse (RefJson.stringify nike_result) = Some nike_result /\
  RefJson.parse ("{" ++ RefJson.q "brand" ++ ":" ++ RefJson.q "Nike") = None /\
  RefJson.parse (" [1, -2 ,true , null] ") = Some (JArr [JNum 1; JNum (-2); JBool true; JNull]).
Proof. repeat split; vm_compute; reflexivity. Qed.

(** The streaming route on an answer in two pieces, and the screen on the
    text of its events, given in two chunks cut inside a line. *)
Example route_then_screen :
  analyze_stream (H := RefJson.codec) (Some ["T1JJRwa"]) (Some "sk-test")
    (CreateStream [Some nike_1; None; Some nike_2] StreamDone) 0.5 0.5
  = EventStream [delta_event nike_1; delta_event nike_2; result_event nike_result] /\
  ended (proceedToAnalyze (H := RefJson.codec)
           (answering
              [ "data: {";
                JsString.slice_from 7
                  (sse_body (H := RefJson.codec)
                     [delta_event nike_1; delta_event nike_2; result_event nike_result]) ])
           one_image)
  = Completed nike_draft.
Proof. split; vm_compute; reflexivity. Qed.

(** An error event whose message mentions JSON stays inside the [catch] of
    the line: the run ends for want of a result. *)
Example error_that_mentions_JSON :
  ended (proceedToAnalyze (H := RefJson.codec)
           (answering [sse_body (H := RefJson.codec)
                         [error_event "Unexpected end of JSON input"]])
           one_image)
  = Failed (Error "No result received from AI").
Proof. vm_compute. reflexivity. Qed.

(** The gallery may give more pictures than were asked for: they are all
    added. *)
Example gallery_beyond_the_limit :
  length (images (fst (pickFromGallery
                         (fun _ => GalleryAssets [photo "e"; photo "f"; photo "g"])
                         four_images))) = 7%nat.
Proof. reflexivity. Qed.

Example removal :
  map ImageItem.id (images (removeImage "a" two_images)) = ["b"] /\
  useEnhanced (removeImage "a" two_images) !! "a" = None /\
  useEnhanced (removeImage "a" two_images) !! "b" = Some true.
Proof. by repeat split. Qed.

End Tests.


(** ** Runs on sample sessions *)
Module Witnesses.
Import JsString Js Pricing Server Upload Examples ServerFacts UploadFacts.

Lemma analyze_stream_one_terminal_event_witness :
  exists (before : list json) (last : json),
    [delta_event nike_1; delta_event nike_2;
     result_event (Server.finalResult (JObj [("brand", JStr "Nike")])
                     (generateUKPricing "Nike" "" 0.5 0.5))]
    = (before ++ [last])%list /\
    terminal last = true /\
    carries_result_or_error last /\
    Forall (fun event => terminal event = false) before /\
    length (List.filter terminal
              [delta_event nike_1; delta_event nike_2;
               result_event (Server.finalResult (JObj [("brand", JStr "Nike")])
                               (generateUKPricing "Nike" "" 0.5 0.5))]) = 1%nat.
Proof.
  apply (analyze_stream_one_terminal_event (H := RefJson.codec)
           (Some ["T1JJRwa"]) (Some "sk-test")
           (CreateStream [Some nike_1; None; Some nike_2] StreamDone) 0.5%Q 0.5%Q).
  vm_compute. reflexivity.
Defined.

Lemma proceedToAnalyze_preconditions_witness :
  ended (proceedToAnalyze (H := RefJson.codec) without_key with_pending) = EnhancementPending /\
  effects (proceedToAnalyze (H := RefJson.codec) without_key with_pending)
  = [Alert "Still Processing"
       "Some photos are still being enhanced. Please wait a moment."] /\
  ended (proceedToAnalyze (H := RefJson.codec) without_key one_image) = MissingCredential /\
  View.error_banner (final (proceedToAnalyze (H := RefJson.codec) without_key one_image))
  = Some "Please set your OpenAI API key in Settings first." /\
  requests (proceedToAnalyze (H := RefJson.codec) without_key one_image) = [].
Proof.
  pose proof (proceedToAnalyze_preconditions (H := RefJson.codec) without_key with_pending)
    as (Hpending & _ & _ & _ & _ & _ & _ & _ & Halert & _).
  pose proof (proceedToAnalyze_preconditions (H := RefJson.codec) without_key one_image)
    as (_ & _ & _ & Hkey & Hrefused & _ & _ & _ & _ & Hmessage & _).
  assert (Hwait : ended (proceedToAnalyze (H := RefJson.codec) without_key with_pending)
                  = EnhancementPending).
  { apply Hpending. exists (pending_image "b"). split; [right; left |]; reflexivity. }
  assert (Hend : ended (proceedToAnalyze (H := RefJson.codec) without_key one_image)
                 = MissingCredential).
  { apply Hkey; [reflexivity | discriminate | reflexivity]. }
  destruct (Halert Hwait) as (_ & Heffects).
  destruct (Hmessage Hend) as (_ & _ & Hbanner & _).
  split; [exact Hwait |]. split; [exact Heffects |]. split; [exact Hend |].
  split; [apply Hbanner; reflexivity |].
  apply Hrefused. right. right. exact Hend.
Defined.

Lemma proceedToAnalyze_no_valid_images_witness :
  ended (proceedToAnalyze (H := RefJson.codec) (answering []) only_empty) = NoValidImages /\
  error (final (proceedToAnalyze (H := RefJson.codec) (answering []) only_empty))
  = Some "No valid images to analyze.".
Proof.
  pose proof (proceedToAnalyze_no_valid_images (H := RefJson.codec) (answering []) only_empty)
    as (Hnone & _).
  destruct Hnone as (Hend & _ & _ & Herr & _).
  - discriminate.
  - reflexivity.
  - reflexivity.
  - intros img [<- | [<- | []]]; reflexivity.
  - split; assumption.
Defined.


Lemma add_image_capacity_witness :
  length (images (fst (capturePhoto (CameraAsset (photo "e")) four_images))) = 5%nat /\
  capturePhoto (CameraAsset (photo "f")) five_images
  = (five_images, [Alert "Limit Reached" "Maximum 5 photos allowed."]) /\
  pickFromGallery (fun _ => GalleryAssets [photo "f"]) five_images
  = (five_images, [Alert "Limit Reached" "Maximum 5 photos allowed."]).
Proof.
  destruct (SessionFacts.add_image_capacity four_images) as [Hfour _].
  destruct (SessionFacts.add_image_capacity five_images) as [_ Hfive].
  destruct Hfour as [Hcapture _]; [vm_compute; lia |].
  destruct Hfive as (Hcam & Hpick & _); [reflexivity |].
  split; [| split].
  - destruct (Hcapture (photo "e")) as (_ & Hlen & _). exact Hlen.
  - apply Hcam.
  - apply Hpick.
Defined.

Lemma sample_events_faithful :
  faithful (H := RefJson.codec) malformed_events /\
  faithful (H := RefJson.codec) deltas_then_done.
Proof.
  split.
  - intros event [<- | [<- | [<- | []]]]; split; vm_compute; reflexivity.
  - intros event [<- | [<- | [<- | []]]]; split; vm_compute; reflexivity.
Defined.

Lemma malformed_response_fails_analysis_witness :
  ended (proceedToAnalyze (H := RefJson.codec)
           (answering [sse_body (H := RefJson.codec) malformed_events]) one_image)
  = Failed (Error "Failed to parse AI response") /\
  error (final (proceedToAnalyze (H := RefJson.codec)
                  (answering [sse_body (H := RefJson.codec) malformed_events]) one_image))
  = Some "Failed to parse AI response" /\
  images (final (proceedToAnalyze (H := RefJson.codec)
                   (answering [sse_body (H := RefJson.codec) malformed_events]) one_image))
  = images one_image.
Proof.
  destruct (PipelineFacts.malformed_response_fails_analysis (H := RefJson.codec)
              (answering [sse_body (H := RefJson.codec) malformed_events]) one_image
              "sk-test" malformed_chunks 0.5%Q 0.5%Q malformed_events
              [sse_body (H := RefJson.codec) malformed_events])
    as (_ & Hend & _ & Herr & Himgs & _).
  - discriminate.
  - reflexivity.
  - reflexivity.
  - discriminate.
  - vm_compute. discriminate.
  - vm_compute. reflexivity.
  - vm_compute. reflexivity.
  - reflexivity.
  - vm_compute. reflexivity.
  - apply sample_events_faithful.
  - split; [exact Hend | split; [exact Herr | exact Himgs]].
Defined.

Lemma stream_without_result_fails_witness :
  ended (proceedToAnalyze (H := RefJson.codec)
           (answering [sse_body (H := RefJson.codec) deltas_then_done]) one_image)
  = Failed (Error "No result received from AI") /\
  streamingText (final (proceedToAnalyze (H := RefJson.codec)
                          (answering [sse_body (H := RefJson.codec) deltas_then_done])
                          one_image))
  = String.concat "" (map delta_text deltas_then_done).
Proof.
  destruct (PipelineFacts.stream_without_result_fails (H := RefJson.codec)
              (answering [sse_body (H := RefJson.codec) deltas_then_done]) one_image
              "sk-test" deltas_then_done
              [sse_body (H := RefJson.codec) deltas_then_done])
    as (Hend & _ & _ & Htext & _).
  - discriminate.
  - reflexivity.
  - reflexivity.
  - discriminate.
  - vm_compute. discriminate.
  - reflexivity.
  - vm_compute. reflexivity.
  - apply sample_events_faithful.
  - reflexivity.
  - split; [exact Hend | exact Htext].
Defined.

Lemma suggestedPrice_is_maxProfitPrice_witness :
  ListingDraft.suggestedPrice nike_draft = ListingDraft.maxProfitPrice nike_draft.
Proof.
  destruct (PipelineFacts.suggestedPrice_is_maxProfitPrice (H := RefJson.codec))
    as (Hdraft & _).
  apply (Hdraft (answering [sse_body (H := RefJson.codec) [result_event nike_result]])
           one_image nike_draft).
  vm_compute. reflexivity.
Defined.

End Witnesses.

(** ** Texts: splitting, joining, trimming, fences *)
Module TextFacts.
Import JsString Js Server Upload JsFacts WireFacts.

Lemma split_go_skip (sep cur s : string) (k : nat) :
  split_go sep k cur s = split_go sep 0 cur (slice_from k s).
Proof.
  revert k. induction s as [| c s IH]; intros [| k]; try done.
  cbn [split_go slice_from]. apply IH.
Qed.

Lemma includes_cons (c : ascii) (s sub : string) :
  includes (String c s) sub = String.prefix sub (String c s) || includes s sub.
Proof. reflexivity. Qed.

Lemma split_go_cons (sep cur : string) (c : ascii) (s : string) :
  split_go sep 0 cur (String c s) =
  if String.prefix sep (String c s)
  then cur :: split_go sep (String.length sep - 1) "" s
  else split_go sep 0 (cur ++ String c "") s.
Proof. reflexivity. Qed.

(** A text without the separator is one piece. *)
Lemma split_go_without (sep cur s : string) :
  includes s sep = false -> split_go sep 0 cur s = [cur ++ s].
Proof.
  revert cur. induction s as [| c s IH]; intros cur Hs.
  - simpl. by rewrite append_nil_r.
  - rewrite includes_cons in Hs. apply orb_false_elim in Hs as [Hp Hs].
    rewrite split_go_cons, Hp, (IH _ Hs), append_assoc. done.
Qed.

Lemma prefix_split (p s : string) :
  String.prefix p s = true -> s = p ++ slice_from (String.length p) s.
Proof.
  revert s. induction p as [| a p IH]; intros s Hp; [done |].
  destruct s as [| c s]; [done |]. cbn [String.prefix] in Hp.
  destruct (Ascii.ascii_dec a c) as [<- | _]; [| done].
  cbn [String.length slice_from]. simpl. f_equal. by apply IH.
Qed.

Lemma prefix_app_l (p x y : string) :
  String.prefix p x = true -> String.prefix p (x ++ y) = true.
Proof.
  revert x. induction p as [| a p IH]; intros x Hp.
  - by destruct (x ++ y).
  - destruct x as [| c x]; [done |]. cbn [String.prefix] in Hp.
    change (String c x ++ y) with (String c (x ++ y)). cbn [String.prefix].
    destruct (Ascii.ascii_dec a c); [by apply IH | done].
Qed.

(** A text with the separator: what stands before its first occurrence is
    the first piece, what stands after it is split in turn. *)
Lemma split_go_first (sep cur s : string) :
  sep <> "" -> includes s sep = true ->
  exists a b : string,
    s = a ++ sep ++ b /\ includes a sep = false /\
    split_go sep 0 cur s = (cur ++ a) :: split_go sep 0 "" b.
Proof.
  intros Hsep. revert cur. induction s as [| c s IH]; intros cur Hs.
  - simpl in Hs. destruct sep; [done | discriminate].
  - rewrite split_go_cons. rewrite includes_cons in Hs.
    destruct (String.prefix sep (String c s)) eqn:Hp.
    + exists "", (slice_from (String.length sep) (String c s)).
      split; [by apply prefix_split |]. split.
      * simpl. destruct sep; [done | done].
      * rewrite append_nil_r, split_go_skip. f_equal. f_equal.
        destruct sep as [| a sep']; [done |]. cbn [String.length slice_from].
        f_equal. lia.
    + simpl in Hs. destruct (IH (cur ++ String c "") Hs) as (a & b & -> & Ha & Hsplit).
      exists (String c a), b. split; [done |]. split.
      * rewrite includes_cons, Ha, orb_false_r.
        destruct (String.prefix sep (String c a)) eqn:Hp'; [| done].
        apply (prefix_app_l _ _ (sep ++ b)) in Hp'.
        change (String c a ++ sep ++ b) with (String c (a ++ sep ++ b)) in Hp'.
        congruence.
      * rewrite Hsplit, append_assoc. done.
Qed.

Lemma split_go_not_nil (sep cur s : string) (k : nat) : split_go sep k cur s <> [].
Proof.
  revert k cur. induction s as [| c s IH]; intros k cur; [done |].
  cbn [split_go]. destruct k; [| apply IH].
  destruct (String.prefix sep (String c s)); [done | apply IH].
Qed.

Lemma join_cons (sep a : string) (l : list string) :
  l <> [] -> join (a :: l) sep = a ++ sep ++ join l sep.
Proof. unfold join. by destruct l. Qed.

Lemma length_append (a b : string) :
  String.length (a ++ b) = (String.length a + String.length b)%nat.
Proof. induction a as [| c a IH]; simpl; [done | by rewrite IH]. Qed.

(** Joining the pieces of a text with the separator gives the text back. *)
Lemma join_split (s sep : string) : sep <> "" -> join (split s sep) sep = s.
Proof.
  intros Hsep. unfold split.
  remember (String.length s) as n eqn:Hn. revert s Hn.
  induction n as [n IH] using lt_wf_ind. intros s Hn.
  destruct (includes s sep) eqn:Hs.
  - destruct (split_go_first sep "" s Hsep Hs) as (a & b & -> & _ & ->).
    rewrite join_cons by apply split_go_not_nil.
    rewrite (IH (String.length b)); [done | | done].
    subst n. rewrite !length_append. destruct sep; [done |]. simpl. lia.
  - by rewrite (split_go_without _ _ _ Hs).
Qed.

Lemma prefix_app_inv (a b x : string) :
  String.prefix (a ++ b) x = true -> String.prefix a x = true.
Proof.
  revert x. induction a as [| c a IH]; intros x Hp; [by destruct x |].
  destruct x as [| d x]; [done |].
  change (String c a ++ b) with (String c (a ++ b)) in Hp. cbn [String.prefix] in *.
  destruct (Ascii.ascii_dec c d); [by apply IH | done].
Qed.

Lemma includes_app_inv (s a b : string) :
  includes s (a ++ b) = true -> includes s a = true.
Proof.
  induction s as [| c s IH]; intros Hs.
  - cbn [includes] in *. rewrite orb_false_r in *. by apply (prefix_app_inv a b).
  - rewrite includes_cons in *. apply orb_prop in Hs as [Hp | Hs].
    + by rewrite (prefix_app_inv a b _ Hp).
    + rewrite (IH Hs). apply orb_true_r.
Qed.

(** X1.  What the screen shows of a thrown message: a message without colon
    is shown whole; a message with a colon but without the two characters
    colon and space is shown as the empty text; otherwise what is shown is
    what follows the first colon and space. *)
Theorem shown_error_cases (msg : string) :
  msg <> "" ->
  (includes msg ":" = false -> shown_error (Error msg) = msg) /\
  (includes msg ":" = true -> includes msg ": " = false ->
     shown_error (Error msg) = "") /\
  (includes msg ": " = true ->
     exists head : string,
       msg = head ++ ": " ++ shown_error (Error msg) /\ includes head ": " = false).
Proof.
  intros Hmsg. apply String.eqb_neq in Hmsg.
  unfold shown_error. cbn [message Error]. rewrite Hmsg.
  repeat apply conj.
  - by intros ->.
  - intros -> Hsep. unfold split. by rewrite (split_go_without _ _ _ Hsep).
  - intros Hsep.
    rewrite (includes_app_inv msg ":" " " Hsep).
    destruct (split_go_first ": " "" msg) as (head & rest & Heq & Hhead & Hsplit);
      [done | done |].
    exists head. unfold split. rewrite Hsplit. cbn [tail].
    fold (split rest ": "). rewrite join_split by done. by split.
Qed.

(** *** Trimming *)

Lemma trimEnd_cons (c : ascii) (s : string) :
  trimEnd (String c s) =
  match trimEnd s with
  | EmptyString => if is_space c then EmptyString else String c EmptyString
  | t => String c t
  end.
Proof. reflexivity. Qed.

Lemma trimEnd_idem (s : string) : trimEnd (trimEnd s) = trimEnd s.
Proof.
  induction s as [| c s IH]; [done |].
  rewrite trimEnd_cons. destruct (trimEnd s) as [| d t] eqn:E.
  - destruct (is_space c) eqn:Hc; [done |]. rewrite trimEnd_cons. simpl. by rewrite Hc.
  - rewrite trimEnd_cons, IH. done.
Qed.

Lemma trimEnd_head (c : ascii) (s : string) :
  is_space c = false -> exists t, trimEnd (String c s) = String c t.
Proof.
  intros Hc. rewrite trimEnd_cons. destruct (trimEnd s); rewrite ?Hc; eauto.
Qed.

Lemma trimStart_head (s : string) :
  trimStart s = "" \/ exists c t, trimStart s = String c t /\ is_space c = false.
Proof.
  induction s as [| c s IH]; [by left |].
  cbn [trimStart]. destruct (is_space c) eqn:Hc; [exact IH |]. right. eauto.
Qed.

(** Trimming twice is trimming once: a trimmed text has no white space at
    its ends. *)
Lemma trim_idem (s : string) : trim (trim s) = trim s.
Proof.
  unfold trim. destruct (trimStart_head s) as [-> | (c & t & -> & Hc)]; [done |].
  destruct (trimEnd_head c t Hc) as (u & Hu). rewrite Hu.
  cbn [trimStart]. rewrite Hc, <- Hu. apply trimEnd_idem.
Qed.

Lemma trim_head (s : string) :
  trim s = "" \/ exists c t, trim s = String c t /\ is_space c = false.
Proof.
  unfold trim. destruct (trimStart_head s) as [-> | (c & t & -> & Hc)]; [by left |].
  destruct (trimEnd_head c t Hc) as (u & ->). right. eauto.
Qed.

Lemma trimEnd_app_space (s : string) (c : ascii) :
  is_space c = true -> trimEnd (s ++ String c "") = trimEnd s.
Proof.
  intros Hc. induction s as [| x s IH].
  - simpl. by rewrite Hc.
  - change (String x s ++ String c "") with (String x (s ++ String c "")).
    by rewrite !trimEnd_cons, IH.
Qed.

Lemma trimStart_app (s r : string) :
  trimStart (s ++ r) = if String.eqb (trimStart s) "" then trimStart r else trimStart s ++ r.
Proof.
  induction s as [| c s IH]; [done |].
  change (String c s ++ r) with (String c (s ++ r)). cbn [trimStart].
  destruct (is_space c); [exact IH | done].
Qed.

Lemma trim_app_space (s : string) (c : ascii) :
  is_space c = true -> trim (s ++ String c "") = trim s.
Proof.
  intros Hc. unfold trim. rewrite trimStart_app.
  destruct (String.eqb_spec (trimStart s) "") as [-> | _].
  - simpl. by rewrite Hc.
  - by apply trimEnd_app_space.
Qed.

(** *** Code fences *)

Lemma prefix_other (a c : ascii) (p s : string) :
  a <> c -> String.prefix (String a p) (String c s) = false.
Proof. intros Hne. cbn [String.prefix]. by destruct (Ascii.ascii_dec a c). Qed.

Lemma includes_char_cons (a c : ascii) (s : string) :
  includes (String c s) (String a "") = Ascii.eqb c a || includes s (String a "").
Proof.
  rewrite includes_cons. f_equal. cbn [String.prefix].
  destruct (Ascii.ascii_dec a c) as [<- | Hne].
  - rewrite Ascii.eqb_refl. by destruct s.
  - symmetry. apply Ascii.eqb_neq. congruence.
Qed.

(** A piece of text without backquote goes through the removal of a literal
    that starts with a backquote. *)
Lemma remove_go_plain (lit' t rest : string) :
  includes t "`" = false ->
  remove_go (String "`"%char lit') 0 false (t ++ rest) =
  t ++ remove_go (String "`"%char lit') 0 false rest.
Proof.
  induction t as [| c t IH]; intros Ht; [done |].
  rewrite includes_char_cons in Ht. apply orb_false_elim in Ht as [Hc Ht].
  change (String c t ++ rest) with (String c (t ++ rest)). cbn [remove_go andb].
  rewrite prefix_other by (apply Ascii.eqb_neq in Hc; congruence).
  rewrite (IH Ht). done.
Qed.

Lemma remove_all_plain (lit' t : string) :
  includes t "`" = false -> remove_all_opt_nl (String "`"%char lit') t = t.
Proof.
  intros Ht. unfold remove_all_opt_nl.
  rewrite <- (append_nil_r t) at 1. rewrite (remove_go_plain _ _ _ Ht).
  simpl. apply append_nil_r.
Qed.

Lemma opening_fence_json (x : string) :
  remove_all_opt_nl "```json" ("```json" ++ LF ++ x) = remove_all_opt_nl "```json" x /\
  remove_all_opt_nl "```json" ("```" ++ LF ++ x) = "```" ++ LF ++ remove_all_opt_nl "```json" x /\
  remove_all_opt_nl "```" ("```" ++ LF ++ x) = remove_all_opt_nl "```" x.
Proof. by repeat split. Qed.

Lemma body_and_closing_fence (t : string) :
  includes t "`" = false ->
  remove_all_opt_nl "```json" (t ++ LF ++ "```") = t ++ LF ++ "```" /\
  remove_all_opt_nl "```" (t ++ LF ++ "```") = t ++ LF /\
  remove_all_opt_nl "```json" (t ++ "```") = t ++ "```" /\
  remove_all_opt_nl "```" (t ++ "```") = t.
Proof.
  intros Ht. unfold remove_all_opt_nl.
  change "```json" with (String "`"%char "``json"). change "```" with (String "`"%char "``") at 2 4 6 7.
  rewrite !(remove_go_plain _ _ _ Ht). repeat split; try done.
  simpl. apply append_nil_r.
Qed.

Section Fences.
Context `{JsonCodec}.

(** X2.  For an answer without backquote, the two replacements of the
    routes leave the bare answer as it is and turn the answer between code
    fences ([```json] or [```] on a line of its own before it, [```] after
    it) into the answer, followed by the line feed that stood before the
    closing fence; so the fenced answer and the bare one are cleaned to the
    same text, and the plain route answers the fenced answer as it answers
    the bare one. *)
Theorem cleanContent_fenced (t : string) :
  includes t "`" = false ->
  remove_all_opt_nl "```" (remove_all_opt_nl "```json" t) = t /\
  remove_all_opt_nl "```"
    (remove_all_opt_nl "```json" ("```json" ++ LF ++ t ++ LF ++ "```")) = t ++ LF /\
  remove_all_opt_nl "```"
    (remove_all_opt_nl "```json" ("```" ++ LF ++ t ++ LF ++ "```")) = t ++ LF /\
  remove_all_opt_nl "```"
    (remove_all_opt_nl "```json" ("```json" ++ LF ++ t ++ "```")) = t /\
  cleanContent ("```json" ++ LF ++ t ++ LF ++ "```") = cleanContent t /\
  cleanContent ("```" ++ LF ++ t ++ LF ++ "```") = cleanContent t /\
  cleanContent ("```json" ++ LF ++ t ++ "```") = cleanContent t /\
  forall imageBase64 images apiKey rand1 rand2,
    analyze imageBase64 images apiKey
      (PlainResponse (Some ("```json" ++ LF ++ t ++ LF ++ "```"))) rand1 rand2
    = analyze imageBase64 images apiKey (PlainResponse (Some t)) rand1 rand2.
Proof.
  intros Ht.
  destruct (body_and_closing_fence t Ht) as (Hj & Hp & Hj' & Hp').
  assert (Hbare : remove_all_opt_nl "```" (remove_all_opt_nl "```json" t) = t).
  { change "```json" with (String "`"%char "``json").
    change "```" with (String "`"%char "``").
    by rewrite (remove_all_plain "``json" t Ht), (remove_all_plain "``" t Ht). }
  assert (Hjson : remove_all_opt_nl "```"
                    (remove_all_opt_nl "```json" ("```json" ++ LF ++ t ++ LF ++ "```"))
                  = t ++ LF).
  { by rewrite (proj1 (opening_fence_json _)), Hj, Hp. }
  assert (Hplain : remove_all_opt_nl "```"
                     (remove_all_opt_nl "```json" ("```" ++ LF ++ t ++ LF ++ "```"))
                   = t ++ LF).
  { rewrite (proj1 (proj2 (opening_fence_json _))), Hj.
    by rewrite (proj2 (proj2 (opening_fence_json _))), Hp. }
  assert (Hshort : remove_all_opt_nl "```"
                     (remove_all_opt_nl "```json" ("```json" ++ LF ++ t ++ "```"))
                   = t).
  { by rewrite (proj1 (opening_fence_json _)), Hj', Hp'. }
  assert (Hclean : cleanContent ("```json" ++ LF ++ t ++ LF ++ "```") = cleanContent t).
  { unfold cleanContent. rewrite Hjson, Hbare. by apply trim_app_space. }
  split; [done |]. split; [done |]. split; [done |]. split; [done |].
  split; [done |]. split; [| split].
  - unfold cleanContent. rewrite Hplain, Hbare. by apply trim_app_space.
  - unfold cleanContent. by rewrite Hshort, Hbare.
  - intros. unfold analyze.
    assert (Hd : forall x : string, default "" (Some x) = x) by done.
    by rewrite !Hd, Hclean.
Qed.

End Fences.

End TextFacts.

(** ** The range of the estimate *)
Module PricingRange.
Import JsString Pricing Rounded PricingFacts.

Lemma first_match_In {A} (text : string) (table : list (string * A)) (d : A) :
  first_match text table d = d \/ In (first_match text table d) (map snd table).
Proof.
  induction table as [| [key v] rest IH]; [by left |].
  simpl. destruct (includes text key); [right; by left |].
  destruct IH as [-> | Hin]; [by left | right; by right].
Qed.

Lemma basePrice_range (text : string) : 5 <= first_match text brandPrices 15 <= 95.
Proof.
  destruct (first_match_In text brandPrices 15) as [-> | Hin]; [lia |].
  revert Hin. generalize (first_match text brandPrices 15). intros x Hin.
  simpl in Hin. repeat (destruct Hin as [<- | Hin]; [lia |]). done.
Qed.

Lemma condMult_range (text : string) :
  (0.4 <= first_match text conditionMultipliers 0.7 <= 1)%Q.
Proof.
  destruct (first_match_In text conditionMultipliers 0.7%Q) as [-> | Hin]; [lra |].
  revert Hin. generalize (first_match text conditionMultipliers 0.7%Q). intros x Hin.
  simpl in Hin. repeat (destruct Hin as [<- | Hin]; [lra |]). done.
Qed.

Lemma Math_round_ge (m : Z) (y : Q) : (inject_Z m <= y)%Q -> m <= Math_round y.
Proof.
  intros Hy. unfold Math_round. rewrite <- (Qfloor_Z m).
  apply Qfloor_resp_le. lra.
Qed.

Lemma Math_round_ge_half (m : Z) (y : Q) :
  (inject_Z m - 0.5 <= y)%Q -> m <= Math_round y.
Proof.
  intros Hy. unfold Math_round. rewrite <- (Qfloor_Z m).
  apply Qfloor_resp_le. lra.
Qed.

(** With the exact value of every operation the rounded estimate is the
    exact one. *)
Lemma generateUKPricing_exact (brand condition : string) (rand1 rand2 : Q) :
  generateUKPricing_fl (fun x => x) brand condition rand1 rand2
  = generateUKPricing brand condition rand1 rand2.
Proof. reflexivity. Qed.

Lemma to_grid_close (x : Q) : (x - (1 # 1000) <= to_grid x <= x + (1 # 1000))%Q.
Proof.
  unfold to_grid.
  pose proof (Qfloor_le (x * 1048576 + (1 # 2))%Q) as Hle.
  pose proof (Qlt_floor (x * 1048576 + (1 # 2))%Q) as Hlt.
  rewrite inject_Z_plus in Hlt. change (inject_Z 1) with 1%Q in Hlt.
  set (n := inject_Z (Qfloor (x * 1048576 + (1 # 2))%Q)) in *.
  split; lra.
Qed.

(** X3.  The estimate as the code computes it, on doubles: whatever the
    rounding of the literals and of the results of the products and sums
    is, as long as it moves a number between 0 and 128 by at most 1/1000
    (the rounding of doubles moves it by less than 2^-46; the exact
    arithmetic moves nothing), and when the two random terms are values of
    [Math.random], at least 0 and below 1: for every brand and condition
    maxProfitPrice is within 3..100, quickSellPrice within 2..65 and
    strictly below maxProfitPrice, and sellProbability within 24..90, so
    that its clamps to 15 and 99 never act. *)
Theorem generateUKPricing_range (fl : Q -> Q) (brand condition : string)
    (rand1 rand2 : Q) :
  (forall x : Q, (0 <= x <= 128)%Q -> (x - (1 # 1000) <= fl x <= x + (1 # 1000))%Q) ->
  (0 <= rand1 < 1)%Q -> (0 <= rand2 < 1)%Q ->
  let p := generateUKPricing_fl fl brand condition rand1 rand2 in
  3 <= maxProfitPrice p <= 100 /\
  2 <= quickSellPrice p <= 65 /\
  quickSellPrice p < maxProfitPrice p /\
  24 <= sellProbability p <= 90.
Proof.
  intros Hfl Hr1 Hr2 p. subst p. unfold generateUKPricing_fl.
  cbn [maxProfitPrice quickSellPrice sellProbability].
  pose proof (basePrice_range (toLowerCase brand)) as Hb.
  pose proof (condMult_range (toLowerCase condition)) as Hc0.
  set (b := first_match (toLowerCase brand) brandPrices 15) in *.
  set (c0 := first_match (toLowerCase condition) conditionMultipliers 0.7%Q) in *.
  assert (Hb5 : (5 <= inject_Z b)%Q) by (change 5%Q with (inject_Z 5); rewrite <- Zle_Qle; lia).
  assert (Hb95 : (inject_Z b <= 95)%Q) by (change 95%Q with (inject_Z 95); rewrite <- Zle_Qle; lia).
  set (bq := inject_Z b) in *.
  (* the multiplier *)
  pose proof (Hfl c0 ltac:(lra)) as Hc. set (c := fl c0) in *.
  (* maxProfitPrice *)
  assert (Hp1 : (0 <= bq * c <= 96)%Q) by nra.
  pose proof (Hfl (bq * c)%Q ltac:(lra)) as Hf1. set (f1 := fl (bq * c)%Q) in *.
  pose proof (Hfl (rand1 * 5)%Q ltac:(lra)) as Hf2. set (f2 := fl (rand1 * 5)%Q) in *.
  assert (Hs1 : (0 <= f1 + f2 <= 101)%Q) by nra.
  assert (Hs1' : (f1 + f2 <= 100 + (2 # 10))%Q) by nra.
  pose proof (Hfl (f1 + f2)%Q ltac:(lra)) as Hf3. set (f3 := fl (f1 + f2)%Q) in *.
  set (m := Z.max 3 (Math_round f3)).
  assert (Hm : 3 <= m <= 100).
  { subst m. split; [apply Z.le_max_l |]. apply Z.max_lub; [lia |].
    apply Math_round_le. change (inject_Z 100) with 100%Q. lra. }
  assert (Hm3 : (3 <= inject_Z m)%Q) by (change 3%Q with (inject_Z 3); rewrite <- Zle_Qle; lia).
  assert (Hm100 : (inject_Z m <= 100)%Q)
    by (change 100%Q with (inject_Z 100); rewrite <- Zle_Qle; lia).
  set (mq := inject_Z m) in *.
  (* quickSellPrice *)
  pose proof (Hfl 0.65%Q ltac:(lra)) as Hk. set (k := fl 0.65%Q) in *.
  assert (Hp2 : (0 <= mq * k <= 66)%Q) by nra.
  assert (Hp2' : (mq * k <= mq * (651 # 1000))%Q) by nra.
  pose proof (Hfl (mq * k)%Q ltac:(lra)) as Hf4. set (f4 := fl (mq * k)%Q) in *.
  (* sellProbability *)
  pose proof (Hfl (60 * c)%Q ltac:(lra)) as Hf5. set (f5 := fl (60 * c)%Q) in *.
  pose proof (Hfl (rand2 * 20)%Q ltac:(lra)) as Hf6. set (f6 := fl (rand2 * 20)%Q) in *.
  pose proof (Hfl (f5 + f6)%Q ltac:(lra)) as Hf7. set (f7 := fl (f5 + f6)%Q) in *.
  set (bonus := (if (20 <? b)%Z then 10 else 0)%Q).
  assert (Hbonus : (0 <= bonus <= 10)%Q) by (subst bonus; destruct (20 <? b)%Z; lra).
  pose proof (Hfl (f7 + bonus)%Q ltac:(lra)) as Hf8. set (f8 := fl (f7 + bonus)%Q) in *.
  set (s := Math_round f8).
  assert (Hs : 24 <= s <= 90).
  { subst s. split.
    - apply Math_round_ge_half. change (inject_Z 24) with 24%Q. lra.
    - apply Math_round_le. change (inject_Z 90) with 90%Q. lra. }
  split; [exact Hm |]. split; [| split].
  - split; [apply Z.le_max_l |]. apply Z.max_lub; [lia |].
    apply Math_round_le. change (inject_Z 65) with 65%Q. lra.
  - apply Z.max_lub_lt; [lia |].
    assert (Hle : Math_round f4 <= m - 1); [| lia].
    apply Math_round_le. unfold Z.sub. rewrite inject_Z_plus, inject_Z_opp.
    change (inject_Z 1) with 1%Q. fold mq. lra.
  - lia.
Qed.

End PricingRange.

(** ** The reading loop and the network *)
Module ReaderFacts.
Import JsString Js Server Upload View JsFacts WireFacts UploadFacts.

#[local] Arguments originalImages : simpl never.

Section Reader.
Context `{JsonCodec}.

(** The reading loop on chunks that end in any way: the text is read as one
    chunk, then the end is met. *)
Lemma read_loop_fin (chunks : list string) (fin : read_end) (r : reading) :
  includes (buffer r) LF = false ->
  read_loop chunks fin r
  = and_then (handle_chunk (String.concat "" chunks) r) (read_loop [] fin).
Proof.
  revert r. induction chunks as [| chunk rest IH]; intros r Hone.
  - cbn [String.concat]. by rewrite handle_chunk_empty.
  - rewrite concat_cons, handle_chunk_app. cbn [read_loop].
    destruct (handle_chunk chunk r) as [r' | e t] eqn:E; simpl; [| done].
    apply IH. by apply (handle_chunk_buffer chunk r).
Qed.

(** What follows the reading loop in [proceedToAnalyze]. *)
Lemma analyze_with_body (w : world) (apiKey : string) (primaryImg : ImageItem.t)
    (st : State) (f : list string -> string -> fetch_result)
    (chunks : list string) (fin : read_end) :
  (forall sent k, f sent k = FetchBody chunks fin) ->
  analyze_with (with_fetch f w) apiKey primaryImg st =
  let st1 := setStreamingText (fun _ => "") (setError None (setStep Step_analyzing st)) in
  let sent := originalImages (images st) in
  if Nat.eqb (length sent) 0
  then {| final := setStep Step_review (setError (Some "No valid images to analyze.") st1);
          effects := [];
          ended := NoValidImages |}
  else
    let request := [Fetch "/api/analyze-stream" sent apiKey] in
    match and_then (handle_chunk (String.concat "" chunks)
                      {| buffer := ""; finalResult := None; shown := "" |})
            (read_loop [] fin) with
    | Thrown e t => fail e request (setStreamingText (fun _ => t) st1)
    | Continue r => finish w request primaryImg r (setStreamingText (fun _ => shown r) st1)
    end.
Proof.
  intros Hf. unfold analyze_with. cbn [fetch with_fetch]. rewrite Hf.
  rewrite read_loop_fin by done. cbv zeta.
  destruct (Nat.eqb _ 0); [done |].
  by destruct (and_then _ _).
Qed.

Lemma proceedToAnalyze_with_fetch (w : world) (st : State)
    (f : list string -> string -> fetch_result) :
  proceedToAnalyze (with_fetch f w) st =
  match images st with
  | [] => {| final := st; effects := []; ended := NoImages |}
  | primaryImg :: _ =>
      if anyEnhancing st
      then {| final := st;
              effects := [Alert "Still Processing"
                            "Some photos are still being enhanced. Please wait a moment."];
              ended := EnhancementPending |}
      else
        match getApiKey w with
        | Some apiKey =>
            if String.eqb apiKey "" then missing_key st
            else analyze_with (with_fetch f w) apiKey primaryImg st
        | None => missing_key st
        end
  end.
Proof. reflexivity. Qed.

(** X4.  A run does not depend on how the text of the response is cut into
    chunks. *)
Theorem chunking_is_irrelevant (w : world) (st : State) (chunks chunks' : list string)
    (fin : read_end) :
  String.concat "" chunks = String.concat "" chunks' ->
  proceedToAnalyze (with_fetch (fun _ _ => FetchBody chunks fin) w) st
  = proceedToAnalyze (with_fetch (fun _ _ => FetchBody chunks' fin) w) st.
Proof.
  intros Htext. rewrite !proceedToAnalyze_with_fetch.
  destruct (images st) as [| primaryImg rest]; [done |].
  destruct (anyEnhancing st); [done |].
  destruct (getApiKey w) as [apiKey |]; [| done].
  destruct (String.eqb apiKey ""); [done |].
  rewrite (analyze_with_body w apiKey primaryImg st _ chunks fin) by done.
  rewrite (analyze_with_body w apiKey primaryImg st _ chunks' fin) by done.
  by rewrite Htext.
Qed.

(** A text without line feed only grows the buffer. *)
Lemma handle_chunk_partial (tail : string) (r : reading) :
  includes (buffer r) LF = false -> includes tail LF = false ->
  handle_chunk tail r = Continue (set_buffer (buffer r ++ tail) r).
Proof.
  intros Hb Ht. unfold handle_chunk, split.
  rewrite (split_go_one_line "" (buffer r ++ tail)) by (by rewrite includes_LF_app, Hb, Ht).
  reflexivity.
Qed.

(** After a chunk the buffer holds no line feed. *)
Lemma handle_chunk_then (chunk : string) (r : reading) (k k' : reading -> progress) :
  (forall r', includes (buffer r') LF = false -> k r' = k' r') ->
  and_then (handle_chunk chunk r) k = and_then (handle_chunk chunk r) k'.
Proof.
  intros Hk. destruct (handle_chunk chunk r) as [r' | e t] eqn:E; [| done].
  simpl. apply Hk. by apply (handle_chunk_buffer chunk r).
Qed.

Lemma and_then_assoc (p : progress) (k1 k2 : reading -> progress) :
  and_then (and_then p k1) k2 = and_then p (fun r => and_then (k1 r) k2).
Proof. by destruct p. Qed.

(** X5.  What follows the last line feed of the response is never read: the
    run is the one for the text up to that line feed; and a response without
    line feed is read as an empty one. *)
Theorem unterminated_line_is_ignored (w : world) (st : State) (text tail : string)
    (fin : read_end) :
  includes tail LF = false ->
  proceedToAnalyze (with_fetch (fun _ _ => FetchBody [text ++ LF ++ tail] fin) w) st
  = proceedToAnalyze (with_fetch (fun _ _ => FetchBody [text ++ LF] fin) w) st /\
  proceedToAnalyze (with_fetch (fun _ _ => FetchBody [tail] fin) w) st
  = proceedToAnalyze (with_fetch (fun _ _ => FetchBody [] fin) w) st.
Proof.
  intros Htail.
  assert (Hrun : forall body body',
    (forall k : progress -> run,
       (forall p g, k (and_then p (fun r => and_then (Continue (set_buffer (g r) r))
                                            (read_loop [] fin)))
                  = k (and_then p (read_loop [] fin))) ->
       k (and_then (handle_chunk (String.concat "" body)
                      {| buffer := ""; finalResult := None; shown := "" |})
            (read_loop [] fin))
       = k (and_then (handle_chunk (String.concat "" body')
                        {| buffer := ""; finalResult := None; shown := "" |})
              (read_loop [] fin))) ->
    proceedToAnalyze (with_fetch (fun _ _ => FetchBody body fin) w) st
    = proceedToAnalyze (with_fetch (fun _ _ => FetchBody body' fin) w) st).
  { intros body body' Hsame. rewrite !proceedToAnalyze_with_fetch.
    destruct (images st) as [| primaryImg rest]; [done |].
    destruct (anyEnhancing st); [done |].
    destruct (getApiKey w) as [apiKey |]; [| done].
    destruct (String.eqb apiKey ""); [done |].
    rewrite (analyze_with_body w apiKey primaryImg st _ body fin) by done.
    rewrite (analyze_with_body w apiKey primaryImg st _ body' fin) by done.
    cbv zeta. destruct (Nat.eqb _ 0); [done |].
    apply (Hsame (fun p =>
             match p with
             | Thrown e t =>
                 fail e [Fetch "/api/analyze-stream" (originalImages (images st)) apiKey]
                   (setStreamingText (fun _ => t)
                      (setStreamingText (fun _ => "")
                         (setError None (setStep Step_analyzing st))))
             | Continue r =>
                 finish w [Fetch "/api/analyze-stream" (originalImages (images st)) apiKey]
                   primaryImg r
                   (setStreamingText (fun _ => shown r)
                      (setStreamingText (fun _ => "")
                         (setError None (setStep Step_analyzing st))))
             end)).
    intros [r | e t] g; [| done]. simpl. by destruct fin. }
  split; apply Hrun; intros k Hk.
  - cbn [String.concat]. rewrite <- append_assoc, handle_chunk_app, and_then_assoc.
    rewrite (handle_chunk_then _ _ _
               (fun r => and_then (Continue (set_buffer (buffer r ++ tail) r))
                           (read_loop [] fin))).
    + apply Hk.
    + intros r' Hr'. by rewrite handle_chunk_partial.
  - cbn [String.concat]. rewrite handle_chunk_partial by done.
    rewrite handle_chunk_empty by done.
    apply (Hk (Continue {| buffer := ""; finalResult := None; shown := "" |})
              (fun r => buffer r ++ tail)).
Qed.

(** X6.  When the reader fails after the last chunk no draft is made,
    whatever the chunks carried: the run fails. *)
Theorem broken_connection_discards_result (w : world) (st : State) (chunks : list string)
    (e : exn) :
  let r := proceedToAnalyze (with_fetch (fun _ _ => FetchBody chunks (ReadThrows e)) w) st in
  (forall draft, ended r <> Completed draft) /\
  (forall draft, ~ In (SaveDraft draft) (effects r)) /\
  result (final r) = result st /\
  (~ refused (ended r) -> ended r <> NoValidImages ->
   exists e', ended r = Failed e' /\ step (final r) = Step_review /\
              error (final r) = Some (shown_error e')).
Proof.
  intros r. subst r. rewrite proceedToAnalyze_with_fetch.
  assert (Hrefused : forall r : run,
            refused (ended r) -> result (final r) = result st ->
            (forall draft, ~ In (SaveDraft draft) (effects r)) ->
            (forall draft, ended r <> Completed draft) /\
            (forall draft, ~ In (SaveDraft draft) (effects r)) /\
            result (final r) = result st /\
            (~ refused (ended r) -> ended r <> NoValidImages ->
             exists e', ended r = Failed e' /\ step (final r) = Step_review /\
                        error (final r) = Some (shown_error e'))).
  { intros r Href Hres Hsave. split; [| split; [done | split; [done | done]]].
    intros draft Hd. rewrite Hd in Href. destruct Href as [? | [? | ?]]; discriminate. }
  destruct (images st) as [| primaryImg rest].
  { apply Hrefused; [by left | done | by intros draft []]. }
  destruct (anyEnhancing st).
  { apply Hrefused; [right; by left | done | by intros draft [? | []]]. }
  assert (Hmissing : refused (ended (missing_key st))) by (right; by right).
  destruct (getApiKey w) as [apiKey |];
    [| apply Hrefused; [done | done | by intros draft []]].
  destruct (String.eqb apiKey "");
    [apply Hrefused; [done | done | by intros draft []] |].
  rewrite (analyze_with_body w apiKey primaryImg st _ chunks (ReadThrows e)) by done.
  cbv zeta. destruct (Nat.eqb _ 0).
  { simpl. split; [done |]. split; [by intros draft [] |]. split; [done |]. done. }
  destruct (handle_chunk _ _) as [r' | e' t]; simpl.
  - split; [done |]. split; [by intros draft [? | []] |]. split; [done |].
    intros _ _. by eexists.
  - split; [done |]. split; [by intros draft [? | []] |]. split; [done |].
    intros _ _. by eexists.
Qed.

End Reader.

End ReaderFacts.

(** ** The two routes side by side *)
Module RouteFacts.
Import JsString Js Pricing Server JsFacts ServerFacts.

(** Reading a property of an object spread over another one: the last
    entry of the source with that name, or else the target's. *)
Lemma obj_get_assign (k : string) (source target : list (string * json)) :
  obj_get k (assign target source) =
  match obj_get k (rev source) with
  | Some v => Some v
  | None => obj_get k target
  end.
Proof.
  unfold assign. revert target.
  induction source as [| [k' v'] rest IH]; intros target; [done |].
  cbn [fold_left fst snd]. rewrite IH. cbn [rev].
  assert (Happ : forall l, obj_get k (l ++ [(k', v')])%list =
                   match obj_get k l with
                   | Some v => Some v
                   | None => if String.eqb k' k then Some v' else None
                   end).
  { induction l as [| [k0 v0] l IHl]; simpl; [done |].
    by destruct (String.eqb k0 k). }
  rewrite Happ. destruct (obj_get k (rev rest)) as [v |]; [done |].
  destruct (String.eqb_spec k' k) as [-> | Hne].
  - apply obj_get_set_eq.
  - by apply obj_get_set_ne.
Qed.

(** In an object whose names are distinct the last entry with a name is the
    first one. *)
Lemma obj_get_rev (k : string) (fields : list (string * json)) :
  NoDup (map fst fields) -> obj_get k (rev fields) = obj_get k fields.
Proof.
  induction fields as [| [k' v'] rest IH]; intros Hdup; [done |].
  simpl in Hdup. apply NoDup_cons in Hdup as [Hk' Hdup].
  cbn [rev obj_get].
  assert (Happ : forall l, obj_get k (l ++ [(k', v')])%list =
                   match obj_get k l with
                   | Some v => Some v
                   | None => if String.eqb k' k then Some v' else None
                   end).
  { induction l as [| [k0 v0] l IHl]; simpl; [done |].
    by destruct (String.eqb k0 k). }
  rewrite Happ, (IH Hdup).
  destruct (String.eqb_spec k' k) as [-> | Hne]; [| by destruct (obj_get k rest)].
  assert (Hnone : obj_get k rest = None); [| by rewrite Hnone].
  clear -Hk'. induction rest as [| [k0 v0] rest IH]; [done |].
  simpl in *. destruct (String.eqb_spec k0 k) as [-> | Hne].
  - exfalso. apply Hk'. by left.
  - apply IH. intros Hin. apply Hk'. by right.
Qed.

(** X7.  The result that the routes send keeps every property of the
    parsed answer under its name, except the four price properties, which
    are the ones of the estimate whatever the answer says. *)
Theorem finalResult_keeps_answer (fields : list (string * json)) (p : pricing) (k : string) :
  NoDup (map fst fields) ->
  (k <> "quickSellPrice" -> k <> "maxProfitPrice" -> k <> "sellProbability" ->
   k <> "suggestedPrice" ->
   prop (finalResult (JObj fields) p) k = obj_get k fields) /\
  prop (finalResult (JObj fields) p) "quickSellPrice" = Some (JNum (quickSellPrice p)) /\
  prop (finalResult (JObj fields) p) "maxProfitPrice" = Some (JNum (maxProfitPrice p)) /\
  prop (finalResult (JObj fields) p) "sellProbability" = Some (JNum (sellProbability p)) /\
  prop (finalResult (JObj fields) p) "suggestedPrice" = Some (JNum (maxProfitPrice p)).
Proof.
  intros Hdup. split; [| pose proof (pricing_fields (JObj fields) p); tauto].
  intros Hq Hm Hs Hsug. unfold finalResult. cbn [prop own_entries].
  rewrite obj_get_set_ne by done.
  rewrite obj_get_assign. unfold pricing_entries. cbn [rev app obj_get].
  apply String.eqb_neq in Hq, Hm, Hs.
  rewrite String.eqb_sym in Hq. rewrite String.eqb_sym in Hm. rewrite String.eqb_sym in Hs.
  rewrite Hq, Hm, Hs.
  rewrite obj_get_assign. cbn [obj_get].
  rewrite (obj_get_rev _ _ Hdup). by destruct (obj_get k fields).
Qed.

Section Routes.
Context `{JsonCodec}.

(** X8.  The two routes agree.  For the same images and key, a model that
    answers the same text (in chunks on the streaming route) or fails with
    the same error makes the streaming route end with the event that
    carries what the plain route answers: both refuse the request with
    status 400, or the last event carries the body of status 200, or the
    last event carries the error message of the body of the error status. *)
Theorem routes_agree (images : option (list string)) (apiKey : option string)
    (rand1 rand2 : Q) :
  (forall chunks : list (option string),
     let streamed := analyze_stream images apiKey (CreateStream chunks StreamDone) rand1 rand2 in
     let plain := analyze None images apiKey
                    (PlainResponse (Some (String.concat "" (deltas chunks)))) rand1 rand2 in
     (streamed = JsonResponse 400 required_error /\ plain = JsonResponse 400 required_error) \/
     (exists res,
        streamed = EventStream (map delta_event (deltas chunks) ++ [result_event res])%list /\
        plain = JsonResponse 200 res) \/
     (exists msg,
        streamed = EventStream (map delta_event (deltas chunks) ++ [error_event msg])%list /\
        plain = JsonResponse 500 (JObj [("error", JStr msg)]))) /\
  (forall e : exn,
     let streamed := analyze_stream images apiKey (CreateThrows e) rand1 rand2 in
     let plain := analyze None images apiKey (PlainThrows e) rand1 rand2 in
     (streamed = JsonResponse 400 required_error /\ plain = JsonResponse 400 required_error) \/
     (streamed = EventStream [error_event (error_message e)] /\
      plain = JsonResponse (error_status e) (JObj [("error", JStr (error_message e))]))).
Proof.
  split.
  - intros chunks streamed plain. subst streamed plain. unfold analyze_stream, analyze.
    replace (match images with Some l => l | None => [] end) with (default [] images)
      by (by destruct images).
    destruct (_ || _); [by left |]. right.
    rewrite stream_loop_eq.
    change ("" ++ String.concat "" (deltas chunks)) with (String.concat "" (deltas chunks)).
    change (default "" (Some (String.concat "" (deltas chunks))))
      with (String.concat "" (deltas chunks)).
    cbn [app].
    destruct (JSON_parse _) as [parsed |]; [| right; by eexists].
    destruct (pricing_of parsed rand1 rand2) as [e | p] eqn:E; [| left; by eexists].
    right. exists (error_message e). split; [done |].
    assert (Hstatus : error_status e = 500); [| by rewrite Hstatus].
    unfold pricing_of in E.
    destruct parsed; try (injection E as <-; reflexivity);
      repeat match type of E with
             | context [match ?x with _ => _ end] => destruct x
             end; try discriminate; injection E as <-; reflexivity.
  - intros e streamed plain. subst streamed plain. unfold analyze_stream, analyze.
    replace (match images with Some l => l | None => [] end) with (default [] images)
      by (by destruct images).
    destruct (_ || _); [by left | by right].
Qed.

(** X9.  For a request whose [images] is absent or a list of strings and
    whose [apiKey] is absent or a string: the streaming route answers with
    a JSON body only to refuse a request without images or without key, with
    status 400 and before the model is called; every failure after that is
    an event of the stream.
    The plain route refuses the same requests; an empty list [images]
    is refused even when [imageBase64] is given. *)
Theorem routes_refuse_bad_requests (imageBase64 : option string)
    (images : option (list string)) (apiKey : option string) :
  (forall openai rand1 rand2 status body,
     analyze_stream images apiKey openai rand1 rand2 = JsonResponse status body ->
     status = 400 /\ body = required_error) /\
  ((forall openai rand1 rand2,
      analyze_stream images apiKey openai rand1 rand2 = JsonResponse 400 required_error) <->
   (default [] images = [] \/ truthy_str apiKey = false)) /\
  ((forall openai rand1 rand2,
      analyze imageBase64 images apiKey openai rand1 rand2 = JsonResponse 400 required_error) <->
   (images = Some [] \/ (images = None /\ truthy_str imageBase64 = false) \/
    truthy_str apiKey = false)).
Proof.
  split; [| split].
  - intros openai rand1 rand2 status body. unfold analyze_stream.
    destruct (_ || _); [by intros [= <- <-] |].
    destruct openai as [e | chunks fin]; [discriminate |].
    destruct (stream_loop chunks "" []) as [fullContent written].
    destruct fin; [| discriminate].
    destruct (JSON_parse _) as [parsed |]; [| discriminate].
    by destruct (pricing_of parsed rand1 rand2).
  - split.
    + intros Hall. specialize (Hall (CreateThrows (Error "")) 0%Q 0%Q).
      unfold analyze_stream in Hall.
      destruct (default [] images) as [| img rest]; [by left |]. right.
      simpl in Hall. by destruct (truthy_str apiKey).
    + intros Hbad openai rand1 rand2. unfold analyze_stream.
      destruct Hbad as [-> | ->]; [done |]. by rewrite orb_true_r.
  - split.
    + intros Hall. specialize (Hall (PlainThrows (Error "")) 0%Q 0%Q).
      unfold analyze in Hall.
      destruct images as [[| img rest] |]; [by left | |].
      * right. right. simpl in Hall. by destruct (truthy_str apiKey).
      * destruct imageBase64 as [b |]; [| right; left; done].
        destruct (truthy_str (Some b)) eqn:E; [| right; left; done].
        right. right. simpl in Hall. by destruct (truthy_str apiKey).
    + intros Hbad openai rand1 rand2. unfold analyze.
      destruct Hbad as [-> | [[-> Hb] | Hk]]; [done | |].
      * destruct imageBase64 as [b |]; [| done]. by rewrite Hb.
      * rewrite Hk. by rewrite orb_true_r.
Qed.

End Routes.

End RouteFacts.

(** ** From the model to the banner and the draft *)
Module EndToEnd.
Import JsString Js Pricing Server Upload View JsFacts ServerFacts WireFacts UploadFacts
  PipelineFacts.

#[local] Arguments originalImages : simpl never.

(** The deltas of a stream and then an error event whose message mentions
    JSON: the error stays in the [catch] of its line. *)
Lemma handle_events_error_caught (ds : list string) (msg : string) (r : reading) :
  includes msg "JSON" = true ->
  handle_events (map delta_event ds ++ [error_event msg]) r =
  Continue {| buffer := buffer r; finalResult := finalResult r;
              shown := shown r ++ String.concat "" ds |}.
Proof.
  intros Hjson. revert r. induction ds as [| d rest IH]; intros r.
  - simpl. unfold handle_data, line_catch. cbn [prop obj_get String.eqb Ascii.eqb Bool.eqb].
    destruct (String.eqb_spec msg "") as [-> | Hne]; [discriminate |].
    cbn [truthy negb default to_String message Error].
    rewrite (proj2 (String.eqb_neq msg "") Hne), Hjson. simpl.
    rewrite append_nil_r. by destruct r.
  - cbn [map app handle_events].
    pose proof (handle_events_plain [delta_event d] r eq_refl) as Hp.
    cbn [handle_events map] in Hp. rewrite concat_cons, delta_event_text in Hp.
    simpl String.concat in Hp. rewrite append_nil_r in Hp.
    destruct (handle_data (delta_event d) r) as [r' | e t]; [| discriminate].
    injection Hp as ->. rewrite IH. cbn [shown buffer finalResult].
    by rewrite concat_cons, append_assoc.
Qed.

(** The deltas of a stream and then the event that carries the result. *)
Lemma handle_events_result (ds : list string) (res : json) (r : reading) :
  truthy (Some res) = true ->
  handle_events (map delta_event ds ++ [result_event res]) r =
  Continue {| buffer := buffer r; finalResult := Some res;
              shown := shown r ++ String.concat "" ds |}.
Proof.
  intros Hres. revert r. induction ds as [| d rest IH]; intros r.
  - simpl. simpl in Hres. rewrite Hres. by rewrite append_nil_r.
  - cbn [map app handle_events].
    pose proof (handle_events_plain [delta_event d] r eq_refl) as Hp.
    cbn [handle_events map] in Hp. rewrite concat_cons, delta_event_text in Hp.
    simpl String.concat in Hp. rewrite append_nil_r in Hp.
    destruct (handle_data (delta_event d) r) as [r' | e t]; [| discriminate].
    injection Hp as ->. rewrite IH. cbn [shown buffer finalResult].
    by rewrite concat_cons, append_assoc.
Qed.

Lemma error_message_nonempty (e : exn) : error_message e <> "".
Proof.
  assert (Hm : (if String.eqb (message e) "" then "Analysis failed" else message e) <> "")
    by (by destruct (String.eqb_spec (message e) "")).
  unfold error_message. destruct (status e) as [[| p | p] |]; try exact Hm.
  repeat (destruct p as [p | p |]; try exact Hm). done.
Qed.

Lemma pricing_of_inr (parsed : json) (rand1 rand2 : Q) (p : pricing) :
  pricing_of parsed rand1 rand2 = inr p ->
  exists brand condition, p = generateUKPricing brand condition rand1 rand2.
Proof.
  unfold pricing_of. intros E.
  destruct parsed; try discriminate;
    repeat match type of E with
           | context [match ?x with _ => _ end] => destruct x
           end; try discriminate; injection E as <-; eauto.
Qed.

Lemma pricing_positive (brand condition : string) (rand1 rand2 : Q) :
  let p := generateUKPricing brand condition rand1 rand2 in
  0 < quickSellPrice p /\ 0 < maxProfitPrice p /\ 0 < sellProbability p.
Proof.
  unfold generateUKPricing. cbn [quickSellPrice maxProfitPrice sellProbability]. lia.
Qed.

Section Pipeline.
Context `{JsonCodec}.

(** X10.  The model fails (the call or the iteration of its stream throws
    the error [e]) for a session that passes the checks, and the screen
    reads the events of the route in any chunks: the route ends its stream
    with the message of [e]; the run fails with that message and shows what
    follows its first colon and space, unless the message mentions JSON:
    then the error event stays in the catch of its line and the run fails
    with "No result received from AI".  A rejected key (status 401) is shown
    as "Invalid API key".  In each case the session is back in the review
    step with its images, and no draft is saved. *)
Theorem model_failure_reaches_screen (w : world) (st : State) (apiKey : string)
    (openai : completion_stream) (e : exn) (rand1 rand2 : Q)
    (events : list json) (read_chunks : list string) :
  images st <> [] -> anyEnhancing st = false ->
  getApiKey w = Some apiKey -> apiKey <> "" ->
  originalImages (images st) <> [] ->
  openai = CreateThrows e \/
    (exists chunks, openai = CreateStream chunks (StreamThrows e)) ->
  analyze_stream (Some (originalImages (images st))) (Some apiKey) openai rand1 rand2
    = EventStream events ->
  fetch w (originalImages (images st)) apiKey = FetchBody read_chunks ReadDone ->
  String.concat "" read_chunks = sse_body events ->
  faithful events ->
  let r := proceedToAnalyze w st in
  (exists ds, events = (map delta_event ds ++ [error_event (error_message e)])%list /\
              streamingText (final r) = String.concat "" ds) /\
  (includes (error_message e) "JSON" = false ->
     ended r = Failed (Error (error_message e)) /\
     error (final r) = Some (shown_error (Error (error_message e)))) /\
  (includes (error_message e) "JSON" = true ->
     ended r = Failed (Error "No result received from AI") /\
     error (final r) = Some "No result received from AI") /\
  (status e = Some 401 -> error_banner (final r) = Some "Invalid API key") /\
  step (final r) = Step_review /\
  images (final r) = images st /\
  result (final r) = result st /\
  (forall draft, ~ In (SaveDraft draft) (effects r)).
Proof.
  intros Himgs Hany Hkey Hne Hsent Hfails Hroute Hfetch Htext Hfaithful r.
  assert (Hevents : exists ds,
             events = (map delta_event ds ++ [error_event (error_message e)])%list).
  { unfold analyze_stream in Hroute.
    destruct (originalImages (images st)) as [| b sent]; [done |].
    apply String.eqb_neq in Hne. simpl in Hroute. rewrite Hne in Hroute. simpl in Hroute.
    destruct Hfails as [-> | [chunks ->]].
    - injection Hroute as <-. by exists [].
    - rewrite stream_loop_eq in Hroute. injection Hroute as <-. by eexists. }
  destruct Hevents as [ds Hevents].
  destruct (proceedToAnalyze_reads_events w st apiKey events read_chunks)
    as (primaryImg & rest & _ & Hrun); try done.
  subst r. rewrite Hrun, Hevents. clear Hrun.
  pose proof (error_message_nonempty e) as Hmsg.
  destruct (includes (error_message e) "JSON") eqn:Hjson.
  - rewrite handle_events_error_caught by done.
    split; [exists ds; by split |]. split; [done |]. split; [done |].
    split; [| split; [done | split; [done | split; [done |]]]].
    + intros H401. unfold error_message in Hjson. by rewrite H401 in Hjson.
    + intros draft [Hin | []]. discriminate.
  - rewrite handle_events_error by done.
    split; [exists ds; by split |]. split; [done |]. split; [done |].
    split; [| split; [done | split; [done | split; [done |]]]].
    + intros H401. unfold error_banner. cbn [fail final setStep setError step error].
      unfold error_message. by rewrite H401.
    + intros draft [Hin | []]. discriminate.
Qed.

(** X11.  A session passes the checks, the text of the model's answer
    parses (once cleaned) and can be priced, the screen reads the events of
    the route in any chunks and the draft store accepts the draft: the run
    is completed with the draft made of the result of the route, which is
    saved after the one request and shown as the result; the prices of the
    draft are the ones of the estimate of the route, and the text of the
    answer is the streaming text. *)
Theorem successful_analysis (w : world) (st : State) (apiKey : string)
    (model_chunks : list (option string)) (parsed : json) (p : pricing) (rand1 rand2 : Q)
    (events : list json) (read_chunks : list string) :
  images st <> [] -> anyEnhancing st = false ->
  getApiKey w = Some apiKey -> apiKey <> "" ->
  originalImages (images st) <> [] ->
  JSON_parse (cleanContent (String.concat "" (deltas model_chunks))) = Some parsed ->
  pricing_of parsed rand1 rand2 = inr p ->
  analyze_stream (Some (originalImages (images st))) (Some apiKey)
    (CreateStream model_chunks StreamDone) rand1 rand2 = EventStream events ->
  fetch w (originalImages (images st)) apiKey = FetchBody read_chunks ReadDone ->
  String.concat "" read_chunks = sse_body events ->
  faithful events ->
  (forall draft, saveDraft w draft = None) ->
  let r := proceedToAnalyze w st in
  exists draft : ListingDraft.t,
    ended r = Completed draft /\
    draft = make_draft w (hd "" (map (chosen_uri (useEnhanced st)) (images st)))
              (map (chosen_uri (useEnhanced st)) (images st))
              (Server.finalResult parsed p) /\
    effects r = [Fetch "/api/analyze-stream" (originalImages (images st)) apiKey;
                 SaveDraft draft] /\
    result_card (final r) = Some draft /\
    error (final r) = None /\
    streamingText (final r) = String.concat "" (deltas model_chunks) /\
    images (final r) = images st /\
    ListingDraft.quickSellPrice draft = JNum (quickSellPrice p) /\
    ListingDraft.maxProfitPrice draft = JNum (maxProfitPrice p) /\
    ListingDraft.suggestedPrice draft = JNum (maxProfitPrice p) /\
    ListingDraft.sellProbability draft = JNum (sellProbability p).
Proof.
  intros Himgs Hany Hkey Hne Hsent Hparse Hprice Hroute Hfetch Htext Hfaithful Hsave r.
  assert (Hevents : events = (map delta_event (deltas model_chunks)
                              ++ [result_event (Server.finalResult parsed p)])%list).
  { unfold analyze_stream in Hroute.
    destruct (originalImages (images st)) as [| b sent]; [done |].
    apply String.eqb_neq in Hne. simpl in Hroute. rewrite Hne in Hroute. simpl in Hroute.
    rewrite stream_loop_eq in Hroute.
    change ("" ++ String.concat "" (deltas model_chunks))
      with (String.concat "" (deltas model_chunks)) in Hroute.
    rewrite Hparse, Hprice in Hroute. by injection Hroute as <-. }
  destruct (proceedToAnalyze_reads_events w st apiKey events read_chunks)
    as (primaryImg & rest & Hfirst & Hrun); try done.
  subst r. rewrite Hrun, Hevents. clear Hrun.
  rewrite handle_events_result by done.
  unfold finish. cbn [Upload.finalResult]. rewrite Hsave.
  cbn [ended effects final]. eexists. split; [reflexivity |].
  destruct (pricing_fields parsed p) as (Hsug & Hmax & Hquick & Hprob).
  destruct (pricing_of_inr _ _ _ _ Hprice) as (brand & condition & Hp).
  pose proof (pricing_positive brand condition rand1 rand2) as Hpos.
  cbv zeta in Hpos. rewrite <- Hp in Hpos. destruct Hpos as (Hq0 & Hm0 & Hs0).
  assert (Hnum : forall k n d, prop (Server.finalResult parsed p) k = Some (JNum n) ->
                               0 < n ->
                               or_default (prop (Server.finalResult parsed p) k) d = JNum n).
  { intros k n d -> Hn. unfold or_default, truthy.
    destruct (Z.eqb_spec n 0); [lia | done]. }
  cbn [useEnhanced images result error step streamingText shown buffer
       setStreamingText setError setStep setResult].
  rewrite Hfirst. cbn [map hd].
  unfold result_card. cbn [step result setStep setResult].
  rewrite append_nil_r || idtac.
  repeat split; try done.
  - change (or_default (prop (Server.finalResult parsed p) "quickSellPrice") (JNum 5)
            = JNum (quickSellPrice p)). by apply Hnum.
  - change (or_default (prop (Server.finalResult parsed p) "maxProfitPrice") (JNum 10)
            = JNum (maxProfitPrice p)). by apply Hnum.
  - change (or_default (prop (Server.finalResult parsed p) "maxProfitPrice") (JNum 10)
            = JNum (maxProfitPrice p)). by apply Hnum.
  - change (or_default (prop (Server.finalResult parsed p) "sellProbability") (JNum 50)
            = JNum (sellProbability p)). by apply Hnum.
Qed.

(** X12.  The answer to the request is an HTTP error with the body
    [errText]: the run fails with that text (or "Analysis failed" for an
    empty body); the banner shows a text without colon whole, and shows
    nothing at all for a text that has a colon but not a colon followed by
    a space, such as the compact JSON text of an error body. *)
Theorem http_error_banner (w : world) (st : State) (apiKey errText : string) :
  images st <> [] -> anyEnhancing st = false ->
  getApiKey w = Some apiKey -> apiKey <> "" ->
  originalImages (images st) <> [] ->
  fetch w (originalImages (images st)) apiKey = FetchNotOk errText ->
  let r := proceedToAnalyze w st in
  ended r = Failed (Error (if String.eqb errText "" then "Analysis failed" else errText)) /\
  step (final r) = Step_review /\
  (errText = "" -> error_banner (final r) = Some "Analysis failed") /\
  (errText <> "" -> includes errText ":" = false ->
     error_banner (final r) = Some errText) /\
  (includes errText ":" = true -> includes errText ": " = false ->
     error (final r) = Some "" /\ error_banner (final r) = None).
Proof.
  intros Himgs Hany Hkey Hne Hsent Hfetch r. subst r.
  unfold proceedToAnalyze.
  destruct (images st) as [| primaryImg rest] eqn:E; [done |].
  rewrite Hany, Hkey. apply String.eqb_neq in Hne. rewrite Hne.
  unfold analyze_with. rewrite E.
  destruct (originalImages (primaryImg :: rest)) as [| b sent] eqn:Es; [done |].
  cbn [length Nat.eqb]. rewrite Hfetch.
  unfold error_banner. cbn [fail final ended setStep setError step error].
  split; [done |]. split; [done |]. split; [| split].
  - by intros ->.
  - intros Hmsg Hcolon. apply String.eqb_neq in Hmsg. rewrite Hmsg.
    unfold shown_error. cbn [message Error]. rewrite Hmsg, Hcolon.
    cbn [truthy_str]. by rewrite Hmsg.
  - intros Hcolon Hsep.
    assert (Hmsg : String.eqb errText "" = false) by (by destruct errText).
    rewrite Hmsg. unfold shown_error. cbn [message Error]. rewrite Hmsg, Hcolon.
    unfold split. by rewrite (TextFacts.split_go_without _ _ _ Hsep).
Qed.

End Pipeline.
End EndToEnd.

(** ** Drafts, and how a call ends *)
Module DraftFacts.
Import JsString Js Upload View JsFacts UploadFacts.

#[local] Arguments originalImages : simpl never.

Lemma or_default_truthy (x : option json) (d : json) :
  truthy (Some d) = true -> truthy (Some (or_default x d)) = true.
Proof.
  intros Hd. unfold or_default. destruct x as [v |]; [| done].
  by destruct (truthy (Some v)) eqn:E.
Qed.

Section Draft.
Context `{JsonCodec}.

(** The ways in which a run that started ends. *)
Lemma analyze_with_ends (w : world) (apiKey : string) (primaryImg : ImageItem.t)
    (st : State) :
  let r := analyze_with w apiKey primaryImg st in
  let request := Fetch "/api/analyze-stream" (originalImages (images st)) apiKey in
  (ended r = NoValidImages /\ effects r = [] /\
   final r = setStep Step_review
               (setError (Some "No valid images to analyze.")
                  (setStreamingText (fun _ => "") st))) \/
  (exists e, ended r = Failed e /\
     (effects r = [request] \/
      exists draft, effects r = [request; SaveDraft draft] /\ saveDraft w draft = Some e) /\
     step (final r) = Step_review /\ error (final r) = Some (shown_error e) /\
     result (final r) = result st) \/
  (exists draft res, ended r = Completed draft /\
     effects r = [request; SaveDraft draft] /\ saveDraft w draft = None /\
     draft = make_draft w (chosen_uri (useEnhanced st) primaryImg)
               (map (chosen_uri (useEnhanced st)) (images st)) res /\
     step (final r) = Step_result /\ error (final r) = None /\
     result (final r) = Some draft).
Proof.
  unfold analyze_with.
  destruct (Nat.eqb _ 0); [by left |]. right.
  destruct (fetch w _ apiKey) as [e | errText | | chunks fin];
    try (left; eexists; split; [reflexivity |]; split; [by left | done]).
  destruct (read_loop chunks fin _) as [r | e t];
    [| left; eexists; split; [reflexivity |]; split; [by left | done]].
  unfold finish. destruct (Upload.finalResult r) as [res |];
    [| left; eexists; split; [reflexivity |]; split; [by left | done]].
  destruct (saveDraft w _) as [e |] eqn:Hsave.
  - left. exists e. split; [done |]. split; [| done].
    right. eexists. split; [reflexivity | exact Hsave].
  - right. eexists _, res. by repeat split.
Qed.

(** X13.  Every draft that a run completes is filled: brand, category,
    title, material, condition, condition score, flaws and the prices are
    never empty, null, zero or false; its identifier and its time are the
    ones that the world gave; it has one image reference per image of the
    session, the first of which is its [imageUri]; and it is the draft that
    was saved, after the one request of the run, and that the result step
    shows. *)
Theorem completed_draft_is_filled (w : world) (st : State) (draft : ListingDraft.t) :
  ended (proceedToAnalyze w st) = Completed draft ->
  Forall (fun v => truthy (Some v) = true)
    [ListingDraft.brand draft; ListingDraft.category draft; ListingDraft.title draft;
     ListingDraft.material draft; ListingDraft.condition draft;
     ListingDraft.conditionScore draft; ListingDraft.flaws draft;
     ListingDraft.sellProbability draft; ListingDraft.quickSellPrice draft;
     ListingDraft.maxProfitPrice draft; ListingDraft.suggestedPrice draft] /\
  ListingDraft.id draft = randomUUID w /\
  ListingDraft.createdAt draft = now w /\
  ListingDraft.imageUris draft = map (chosen_uri (useEnhanced st)) (images st) /\
  (exists more, ListingDraft.imageUris draft = ListingDraft.imageUri draft :: more) /\
  saveDraft w draft = None /\
  (exists apiKey,
     effects (proceedToAnalyze w st) =
     [Fetch "/api/analyze-stream" (originalImages (images st)) apiKey; SaveDraft draft]) /\
  result_card (final (proceedToAnalyze w st)) = Some draft /\
  error (final (proceedToAnalyze w st)) = None.
Proof.
  intros Hdone.
  destruct (proceedToAnalyze_started w st) as (k & p & rest & Hi & _ & Hk & _ & Heq).
  { rewrite Hdone. intros [? | [? | ?]]; discriminate. }
  rewrite Heq in *. clear Heq.
  pose proof (analyze_with_ends w k p st) as Hends. cbv zeta in Hends.
  destruct Hends as [(Hend & _) | [(e & Hend & _) | Hends]];
    [rewrite Hend in Hdone; discriminate | rewrite Hend in Hdone; discriminate |].
  destruct Hends as (d & res & Hend & Heffs & Hsave & Hd & Hstep & Herr & Hres).
  rewrite Hend in Hdone. injection Hdone as <-.
  split; [| split; [| split; [| split; [| split; [| split; [| split]]]]]].
  - subst d. unfold make_draft.
    cbn [ListingDraft.brand ListingDraft.category ListingDraft.title ListingDraft.material
         ListingDraft.condition ListingDraft.conditionScore ListingDraft.flaws
         ListingDraft.sellProbability ListingDraft.quickSellPrice
         ListingDraft.maxProfitPrice ListingDraft.suggestedPrice].
    repeat (apply Forall_cons; split;
            [repeat (apply or_default_truthy); reflexivity |]).
    apply Forall_nil_2.
  - by subst d.
  - by subst d.
  - by subst d.
  - subst d. rewrite Hi. by eexists.
  - exact Hsave.
  - by exists k.
  - unfold result_card. by rewrite Hstep, Hres.
Qed.



End Draft.
End DraftFacts.

(** ** More on the session: enhancement, removal, selection, invariants *)
Module SessionMore.
Import JsString Js Upload View JsFacts SessionFacts UploadFacts ReachableFacts DraftFacts.

#[local] Arguments originalImages : simpl never.

Lemma originalImages_app (a b : list ImageItem.t) :
  originalImages (a ++ b) = (originalImages a ++ originalImages b)%list.
Proof.
  induction a as [| x a IH]; [done |].
  change ((x :: a) ++ b)%list with (x :: (a ++ b))%list.
  rewrite !originalImages_cons, IH.
  destruct (ImageItem.originalBase64 x) as [o |]; [| done].
  by destruct (String.eqb o "").
Qed.

(** X15.  An image that came with bytes and whose enhancement arrives is
    kept with the enhanced bytes, their data reference, and as original
    bytes the converted original of the answer when there is one: these are
    the bytes that the analysis sends for it, and the enhanced reference is
    the one chosen for the draft. *)
Theorem enhancement_replaces_original (step_seen : Step) (id uri b enh : string)
    (conv : option string) (st : State) :
  ~ In id (map ImageItem.id (images st)) -> b <> "" -> enh <> "" ->
  let st' := addImageFromResult step_seen id uri (Some b) (EnhanceData (Some enh) conv) st in
  let sent := if truthy_str conv then default b conv else b in
  let img :=
    {| ImageItem.id := id;
       ImageItem.originalUri := uri;
       ImageItem.originalBase64 := Some sent;
       ImageItem.enhancedUri := Some ("data:image/jpeg;base64," ++ enh);
       ImageItem.enhancedBase64 := Some enh;
       ImageItem.enhancing := false;
       ImageItem.enhanceFailed := false |} in
  images st' = (images st ++ [img])%list /\
  useEnhanced st' = <[id := true]> (useEnhanced st) /\
  originalImages (images st') = (originalImages (images st) ++ [sent])%list /\
  chosen_uri (useEnhanced st') img = "data:image/jpeg;base64," ++ enh /\
  anyEnhancing st' = anyEnhancing st.
Proof.
  intros Hfresh Hb Henh st' sent img.
  apply String.eqb_neq in Hb, Henh.
  assert (Himgs : images st' = (images st ++ [img])%list).
  { subst st' img sent. unfold addImageFromResult, addImageFromResult_begin.
    cbn [truthy_str]. rewrite Hb. cbn [negb].
    unfold addImageFromResult_finish. rewrite Henh.
    cbn [images setImages setUseEnhanced setSelectedIdx].
    unfold mark_enhanced. by rewrite (update_last _ id) by done. }
  assert (Hflags : useEnhanced st' = <[id := true]> (useEnhanced st)).
  { subst st'. unfold addImageFromResult, addImageFromResult_begin.
    cbn [truthy_str]. rewrite Hb. cbn [negb].
    unfold addImageFromResult_finish. by rewrite Henh. }
  assert (Hsent : String.eqb sent "" = false).
  { subst sent. destruct conv as [c |]; [| done]. cbn [truthy_str default].
    by destruct (String.eqb c "") eqn:E. }
  split; [done |]. split; [done |]. split; [| split].
  - rewrite Himgs, originalImages_app. f_equal.
    rewrite originalImages_cons. subst img. cbn [ImageItem.originalBase64].
    by rewrite Hsent.
  - unfold chosen_uri. rewrite Hflags. subst img. cbn [ImageItem.id ImageItem.enhancedUri].
    by rewrite lookup_insert_eq.
  - unfold anyEnhancing. rewrite Himgs, existsb_app. subst img. simpl.
    by rewrite orb_false_r.
Qed.

Lemma filter_ids (id : string) (imgs : list ImageItem.t) (k : string) :
  In k (map ImageItem.id (filter (fun img => ImageItem.id img <> id) imgs)) <->
  k <> id /\ In k (map ImageItem.id imgs).
Proof.
  rewrite !in_map_iff. split.
  - intros (x & <- & Hx). apply list_elem_of_In, list_elem_of_filter in Hx as [Hne Hx].
    split; [done |]. exists x. split; [done | by apply list_elem_of_In].
  - intros (Hne & x & <- & Hx). exists x. split; [done |].
    apply list_elem_of_In, list_elem_of_filter. split; [done | by apply list_elem_of_In].
Qed.

Lemma filter_one (id : string) (imgs : list ImageItem.t) :
  NoDup (map ImageItem.id imgs) -> In id (map ImageItem.id imgs) ->
  length (filter (fun img => ImageItem.id img <> id) imgs) = Nat.pred (length imgs).
Proof.
  induction imgs as [| x l IH]; intros Hdup Hin; [done |].
  simpl in Hdup. apply NoDup_cons in Hdup as [Hx Hdup].
  destruct (decide (ImageItem.id x <> id)) as [Hne | Heq].
  - rewrite filter_cons_True by done. simpl.
    destruct Hin as [Heq | Hin]; [done |].
    rewrite (IH Hdup Hin). destruct l; [done | done].
  - rewrite filter_cons_False by done. simpl.
    assert (Hid : ImageItem.id x = id) by (by destruct (decide (ImageItem.id x = id))).
    clear IH Hin. induction l as [| y l IH]; [done |].
    rewrite filter_cons_True.
    + simpl. f_equal. apply IH.
      * intros Hin. apply Hx. apply list_elem_of_In. right. by apply list_elem_of_In.
      * simpl in Hdup. by apply NoDup_cons in Hdup as [_ ?].
    + intros Hy. apply Hx. apply list_elem_of_In. left. congruence.
Qed.

(** X16.  Removing an image of a session with distinct identifiers takes
    away that image and its flag and nothing else, and the selection still
    points at an image as long as one is left.  Whatever the identifier
    is, the selection moves back by one: removing an identifier that no
    image has moves the selection and nothing else. *)
Theorem removeImage_selection (id : string) (st : State) :
  let st' := removeImage id st in
  (NoDup (map ImageItem.id (images st)) -> In id (map ImageItem.id (images st)) ->
   (selectedIdx st < length (images st))%nat ->
   length (images st') = Nat.pred (length (images st)) /\
   (images st' <> [] -> is_Some (selected st'))) /\
  (forall k, In k (map ImageItem.id (images st')) <->
             k <> id /\ In k (map ImageItem.id (images st))) /\
  (forall k, useEnhanced st' !! k = if decide (k = id) then None else useEnhanced st !! k) /\
  selectedIdx st' = Nat.pred (selectedIdx st) /\
  (~ In id (map ImageItem.id (images st)) -> images st' = images st).
Proof.
  intros st'. subst st'. unfold removeImage.
  cbn [images selectedIdx useEnhanced setImages setSelectedIdx setUseEnhanced].
  split; [| split; [| split; [| split]]].
  - intros Hdup Hin Hsel. rewrite (filter_one _ _ Hdup Hin). split; [done |].
    intros Hne. unfold selected.
    cbn [images selectedIdx useEnhanced setImages setSelectedIdx setUseEnhanced].
    apply lookup_lt_is_Some. rewrite (filter_one _ _ Hdup Hin).
    destruct (filter _ (images st)) as [| y l] eqn:E; [done |].
    apply (f_equal (@length _)) in E. rewrite (filter_one _ _ Hdup Hin) in E.
    simpl in E. lia.
  - apply filter_ids.
  - intros k. destruct (decide (k = id)) as [-> | Hne].
    + apply lookup_delete_eq.
    + apply lookup_delete_ne. congruence.
  - done.
  - intros Hnot. induction (images st) as [| x l IH]; [done |].
    rewrite filter_cons_True.
    + f_equal. apply IH. intros Hin. apply Hnot. by right.
    + intros Heq. apply Hnot. by left.
Qed.

(** X17.  The two buttons of the review step decide the reference that the
    draft keeps for the selected image: its enhanced reference after
    "Enhanced", its original one after "Original"; the references of the
    images with other identifiers, the images and the bytes that are sent
    stay as they are.  Where the buttons are not shown nothing changes. *)
Theorem toggle_decides_reference (value : bool) (st : State) :
  let st' := pressToggle value st in
  (forall img, toggle_shown st = Some img ->
     In img (images st) /\
     chosen_uri (useEnhanced st') img
     = (if value then default "" (ImageItem.enhancedUri img) else ImageItem.originalUri img) /\
     (forall other, ImageItem.id other <> ImageItem.id img ->
        chosen_uri (useEnhanced st') other = chosen_uri (useEnhanced st) other)) /\
  (toggle_shown st = None -> st' = st) /\
  images st' = images st /\
  originalImages (images st') = originalImages (images st).
Proof.
  intros st'. subst st'. unfold pressToggle.
  destruct (toggle_shown st) as [sel |] eqn:Hshown; [| by repeat split].
  split; [| by repeat split].
  intros img [= ->]. unfold toggle_shown in Hshown.
  destruct (step st); try discriminate.
  destruct (selected st) as [x |] eqn:Hsel; [| discriminate].
  destruct (negb (ImageItem.enhancing x) && truthy_str (ImageItem.enhancedUri x)) eqn:E;
    [| discriminate].
  injection Hshown as ->. apply andb_prop in E as [_ Huri].
  split; [| split].
  - unfold selected in Hsel. apply list_elem_of_In. by eapply list_elem_of_lookup_2.
  - unfold chosen_uri. cbn [useEnhanced setUseEnhanced]. rewrite lookup_insert_eq.
    destruct (ImageItem.enhancedUri img) as [uri |]; [| discriminate].
    cbn [truthy_str] in Huri. apply negb_true_iff in Huri. rewrite Huri.
    by destruct value.
  - intros other Hne. unfold chosen_uri. cbn [useEnhanced setUseEnhanced].
    by rewrite lookup_insert_ne by congruence.
Qed.

(** *** Invariants of the session, whatever the order of the pieces *)

Lemma begin_keeps step_seen id uri base64 st :
  let st' := addImageFromResult_begin step_seen id uri base64 st in
  step st' = step st /\ result st' = result st /\
  useEnhanced st' = <[id := true]> (useEnhanced st).
Proof.
  unfold addImageFromResult_begin. by destruct (negb (truthy_str base64)).
Qed.

Lemma finish_keeps id base64 res st :
  let st' := addImageFromResult_finish id base64 res st in
  step st' = step st /\ result st' = result st /\
  (useEnhanced st' = useEnhanced st \/ useEnhanced st' = <[id := false]> (useEnhanced st)).
Proof.
  unfold addImageFromResult_finish.
  destruct res as [| [e |] conv]; [| destruct (String.eqb e "") |];
    (split; [done |]; split; [done |]); (by left) || (by right).
Qed.

Lemma insert_keeps_flags (id k : string) (v : bool) (flags : gmap string bool) :
  is_Some (flags !! k) -> is_Some (<[id := v]> flags !! k).
Proof.
  intros Hk. destruct (decide (k = id)) as [-> | Hne].
  - rewrite lookup_insert_eq. by eexists.
  - by rewrite lookup_insert_ne by congruence.
Qed.

Lemma filter_NoDup (id : string) (imgs : list ImageItem.t) :
  NoDup (map ImageItem.id imgs) ->
  NoDup (map ImageItem.id (filter (fun img => ImageItem.id img <> id) imgs)).
Proof.
  induction imgs as [| x l IH]; intros Hdup; [done |].
  simpl in Hdup. apply NoDup_cons in Hdup as [Hx Hdup].
  destruct (decide (ImageItem.id x <> id)) as [Hne | Heq].
  - rewrite filter_cons_True by done. simpl. apply NoDup_cons. split; [| by apply IH].
    intros Hin. apply Hx. apply list_elem_of_In in Hin. apply filter_ids in Hin as [_ Hin].
    by apply list_elem_of_In.
  - rewrite filter_cons_False by done. by apply IH.
Qed.

(** The step and the result in every session. *)
Lemma attainable_steps (st : State) :
  Overlap.attainable st ->
  (step st = Step_result -> is_Some (result st)) /\ step st <> Step_enhancing.
Proof.
  induction 1 as [| st st' _ IH Hpiece]; [by split |].
  destruct IH as [Hres Henh].
  destruct Hpiece as [step_seen id uri base64 st _ | id base64 res st | st | index st
                      | id st | id value st | st | st | text st | message st
                      | draft st | st]; try done.
  - destruct (begin_keeps step_seen id uri base64 st) as (-> & -> & _). by split.
  - destruct (finish_keeps id base64 res st) as (-> & -> & _). by split.
Qed.

(** The identifiers and the flags in every session. *)
Lemma attainable_flags (st : State) :
  Overlap.attainable st ->
  NoDup (map ImageItem.id (images st)) /\
  forall k, In k (map ImageItem.id (images st)) -> is_Some (useEnhanced st !! k).
Proof.
  induction 1 as [| st st' _ IH Hpiece].
  - split; [apply NoDup_nil_2 | by intros k []].
  - destruct IH as [Hdup Hflags].
    destruct Hpiece as [step_seen id uri base64 st Hfresh | id base64 res st | st | index st
                        | id st | id value st | st | st | text st | message st
                        | draft st | st]; try (by split).
    + rewrite begin_ids. destruct (begin_keeps step_seen id uri base64 st) as (_ & _ & ->).
      split.
      * apply NoDup_app. split; [exact Hdup |]. split; [| apply NoDup_singleton].
        intros k Hk Hk'. apply list_elem_of_singleton in Hk'. subst k.
        apply Hfresh. by apply list_elem_of_In.
      * intros k Hk. apply in_app_or in Hk. destruct Hk as [Hk | [<- | []]].
        -- apply insert_keeps_flags. by apply Hflags.
        -- rewrite lookup_insert_eq. by eexists.
    + rewrite finish_ids. split; [exact Hdup |]. intros k Hk.
      destruct (finish_keeps id base64 res st) as (_ & _ & [-> | ->]).
      * by apply Hflags.
      * apply insert_keeps_flags. by apply Hflags.
    + unfold removeImage.
      cbn [images useEnhanced setImages setSelectedIdx setUseEnhanced].
      split; [by apply filter_NoDup |]. intros k Hk.
      apply filter_ids in Hk as [Hne Hk].
      rewrite lookup_delete_ne by congruence. by apply Hflags.
    + cbn [images useEnhanced setUseEnhanced]. split; [exact Hdup |].
      intros k Hk. apply insert_keeps_flags. by apply Hflags.
    + cbn [resetAll initial images useEnhanced map].
      split; [apply NoDup_nil_2 | by intros k []].
Qed.

(** X18.  Whatever the order in which the pieces of the asynchronous
    handlers run (an enhancement may end after its image was removed or
    after "Start Over", a photograph may be added during an analysis):
    whenever the session is in the result step it has a result, so that the
    block rendered for the result step always has its listing; and the
    session is never in the enhancing step. *)
Theorem result_step_has_a_listing (st : State) :
  Overlap.attainable st ->
  (step st = Step_result -> is_Some (result st) /\ result_card st = result st) /\
  (result st = None -> result_card st = None /\ step st <> Step_result) /\
  step st <> Step_enhancing.
Proof.
  intros Hatt. destruct (attainable_steps st Hatt) as [Hres Henh].
  split; [| split; [| done]].
  - intros Hstep. split; [by apply Hres |]. unfold result_card. by rewrite Hstep.
  - intros Hnone. split.
    + unfold result_card. by destruct (step st).
    + intros Hstep. destruct (Hres Hstep) as [d Hd]. congruence.
Qed.

(** X19.  Whatever the order in which the pieces of the asynchronous
    handlers run: the identifiers of the images of the session are
    distinct, and every image has a selection flag, so that what the code
    reads as [useEnhanced[img.id]] for an image of the session is never
    [undefined]. *)
Theorem images_have_flags (st : State) :
  Overlap.attainable st ->
  NoDup (map ImageItem.id (images st)) /\
  (forall img, In img (images st) -> is_Some (useEnhanced st !! ImageItem.id img)).
Proof.
  intros Hatt. destruct (attainable_flags st Hatt) as [Hdup Hflags].
  split; [done |]. intros img Hin. apply Hflags. by apply in_map.
Qed.

End SessionMore.

(** ** The settings screen *)
Module SettingsFacts.
Import JsString Js Upload View Settings JsFacts UploadFacts.

Section Trim.
Context `{StringTrim}.

(** X20.  [handleSave] writes to the key store at most once, and only the
    text of the field as [trim] gives it, when that is not empty; when it is
    empty the handler only raises the alert and leaves the screen as it
    was.  After a write that succeeded the screen says that a key exists
    and keeps the text of the field; after one that failed the screen is
    as it was.  Since trimming a trimmed text changes nothing, saving again
    from a screen mounted on the stored key writes the same key. *)
Theorem handleSave_stores_trimmed_key (os : Platform) (stored : bool) (st : Screen) :
  let st' := fst (handleSave os stored st) in
  let effs := snd (handleSave os stored st) in
  (forall v, In v (written effs) -> v = String_trim (key st) /\ v <> "") /\
  (String_trim (key st) = "" ->
     st' = st /\ written effs = [] /\
     effs = [match os with
             | Web => WebAlert "Please enter a valid API key"
             | Native => NativeAlert "Error" "Please enter a valid API key"
             end]) /\
  (String_trim (key st) <> "" ->
     written effs = [String_trim (key st)] /\
     (stored = true ->
        effs = [SetApiKey (String_trim (key st)); Haptics "Success"; SetTimeout 3000] /\
        saved st' = true /\ hasExistingKey st' = true /\ key st' = key st) /\
     (stored = false -> st' = st) /\
     ((forall s, String_trim (String_trim s) = String_trim s) ->
      written (snd (handleSave os stored (mounted (Some (String_trim (key st))) blank)))
      = [String_trim (key st)])).
Proof.
  intros st' effs. subst st' effs. unfold handleSave.
  destruct (String.eqb_spec (String_trim (key st)) "") as [Hblank | Hkey].
  - cbn [fst snd]. split; [destruct os; by intros v [] |].
    split; [by destruct os |]. by intros Hne.
  - assert (Hwritten : written (snd (if stored
              then ({| key := key st; saved := true; showKey := showKey st;
                       hasExistingKey := true |},
                    [SetApiKey (String_trim (key st)); Haptics "Success"; SetTimeout 3000])
              else (st, [SetApiKey (String_trim (key st))]))) = [String_trim (key st)])
      by (by destruct stored).
    split; [| split; [done |]].
    + rewrite Hwritten. by intros v [<- | []].
    + intros _. split; [done |]. split; [by intros -> |]. split; [by intros -> |].
      intros Hidem.
      assert (Hm : mounted (Some (String_trim (key st))) blank
                   = {| key := String_trim (key st); saved := false; showKey := false;
                        hasExistingKey := true |}).
      { unfold mounted. cbn [truthy_str].
        by rewrite (proj2 (String.eqb_neq _ _) Hkey). }
      rewrite Hm. cbn [key]. rewrite Hidem.
      rewrite (proj2 (String.eqb_neq _ _) Hkey). by destruct stored.
Qed.

Section Analyze.
Context `{JsonCodec}.

(** X21.  The settings screen and the analysis.  A key written by
    [handleSave], once it is the key that the store gives, passes the
    credential check of [proceedToAnalyze].  [handleClear] writes nothing
    unless the user confirms, and what it writes is the empty key; with
    the empty key a session that has images, none of them enhancing, is
    refused: its error is set to "Please set your OpenAI API key in
    Settings first." (the banner of the review step shows it), nothing else
    of the session changes, and nothing is sent or raised. *)
Theorem saved_key_passes_the_check (os : Platform) (stored : bool)
    (screen : Screen) (w : world) (st : State) (v : string) :
  getApiKey w = Some v ->
  (In v (written (snd (handleSave os stored screen))) ->
     ended (proceedToAnalyze w st) <> MissingCredential /\
     (images st <> [] -> anyEnhancing st = false ->
      ~ refused (ended (proceedToAnalyze w st)))) /\
  (forall confirmed,
     In v (written (snd (handleClear os confirmed stored screen))) ->
     confirmed = true /\ v = "" /\
     (images st <> [] -> anyEnhancing st = false ->
      ended (proceedToAnalyze w st) = MissingCredential /\
      final (proceedToAnalyze w st)
      = setError (Some "Please set your OpenAI API key in Settings first.") st /\
      (step st = Step_review ->
       error_banner (final (proceedToAnalyze w st))
       = Some "Please set your OpenAI API key in Settings first.") /\
      effects (proceedToAnalyze w st) = [])) /\
  written (snd (handleClear os false stored screen)) = [].
Proof.
  intros Hkey. split; [| split].
  - intros Hin.
    assert (Hv : v <> "").
    { unfold handleSave in Hin.
      destruct (String.eqb_spec (String_trim (key screen)) "") as [Hblank | Hne];
        [by destruct os |].
      destruct stored; destruct Hin as [<- | []]; done. }
    unfold proceedToAnalyze.
    destruct (images st) as [| primaryImg rest]; [by split |].
    destruct (anyEnhancing st); [by split |]. rewrite Hkey.
    apply String.eqb_neq in Hv. rewrite Hv.
    pose proof (analyze_with_facts w v primaryImg st) as Hfacts. cbv zeta in Hfacts.
    destruct Hfacts as (Hnot & _). split; [| done].
    intros Hend. apply Hnot. right. by right.
  - intros confirmed Hin. unfold handleClear in Hin.
    destruct confirmed; [| by destruct os].
    assert (Hv : v = "") by (destruct stored, os; destruct Hin as [<- | []]; done).
    split; [done |]. split; [done |]. intros Himgs Hany. subst v.
    unfold proceedToAnalyze. destruct (images st) as [| primaryImg rest]; [done |].
    rewrite Hany, Hkey. cbn [String.eqb missing_key ended final effects].
    split; [done |]. split; [done |]. split; [| done].
    intros Hstep. unfold error_banner. cbn [step error setError]. by rewrite Hstep.
  - by destruct os.
Qed.

End Analyze.

End Trim.

End SettingsFacts.

(** ** More runs on sample sessions *)
Module MoreWitnesses.
Import JsString Js Pricing Server Upload View Examples Samples.

Lemma shown_error_cases_witness :
  shown_error (Error "Failed to parse AI response") = "Failed to parse AI response" /\
  shown_error (Error error_body) = "".
Proof.
  destruct (TextFacts.shown_error_cases "Failed to parse AI response") as (Hwhole & _);
    [discriminate |].
  destruct (TextFacts.shown_error_cases error_body) as (_ & Hnone & _); [discriminate |].
  split; [apply Hwhole | apply Hnone]; reflexivity.
Defined.

Lemma cleanContent_fenced_witness :
  cleanContent ("```json" ++ LF ++ "{}" ++ LF ++ "```") = cleanContent "{}" /\
  remove_all_opt_nl "```" (remove_all_opt_nl "```json" ("```json" ++ LF ++ "{}" ++ LF ++ "```"))
  = "{}" ++ LF.
Proof.
  destruct (TextFacts.cleanContent_fenced (H := RefJson.codec) "{}")
    as (_ & Hstripped & _ & _ & Hjson & _); [reflexivity |].
  split; [exact Hjson | exact Hstripped].
Defined.

Lemma generateUKPricing_range_witness :
  quickSellPrice (Rounded.generateUKPricing_fl Rounded.to_grid
                    "Nike Hoodie" "New with tags" 0.5 0.99)
  < maxProfitPrice (Rounded.generateUKPricing_fl Rounded.to_grid
                      "Nike Hoodie" "New with tags" 0.5 0.99) /\
  24 <= sellProbability (Rounded.generateUKPricing_fl Rounded.to_grid
                           "Nike Hoodie" "New with tags" 0.5 0.99) <= 90.
Proof.
  destruct (PricingRange.generateUKPricing_range Rounded.to_grid
              "Nike Hoodie" "New with tags" 0.5%Q 0.99%Q)
    as (_ & _ & Hlt & Hprob).
  - intros x _. apply PricingRange.to_grid_close.
  - split; lra.
  - split; lra.
  - split; [exact Hlt | exact Hprob].
Defined.

Lemma chunking_is_irrelevant_witness :
  proceedToAnalyze (H := RefJson.codec)
    (with_fetch (fun _ _ => FetchBody ["da"; "ta: {}" ++ LF; LF] ReadDone) (answering []))
    one_image
  = proceedToAnalyze (H := RefJson.codec)
      (with_fetch (fun _ _ => FetchBody ["data: {}" ++ LF ++ LF] ReadDone) (answering []))
      one_image.
Proof.
  apply (ReaderFacts.chunking_is_irrelevant (H := RefJson.codec)). reflexivity.
Defined.

Lemma unterminated_line_is_ignored_witness :
  proceedToAnalyze (H := RefJson.codec)
    (with_fetch (fun _ _ => FetchBody ["data: {}" ++ LF ++ "data: {"] ReadDone) (answering []))
    one_image
  = proceedToAnalyze (H := RefJson.codec)
      (with_fetch (fun _ _ => FetchBody ["data: {}" ++ LF] ReadDone) (answering []))
      one_image.
Proof.
  destruct (ReaderFacts.unterminated_line_is_ignored (H := RefJson.codec)
              (answering []) one_image "data: {}" "data: {" ReadDone) as [Hcut _];
    [reflexivity | exact Hcut].
Defined.

Lemma finalResult_keeps_answer_witness :
  prop (Server.finalResult (JObj [("brand", JStr "Nike"); ("suggestedPrice", JNum 1000)])
          (generateUKPricing "Nike" "" 0.5 0.5)) "brand"
  = Some (JStr "Nike") /\
  prop (Server.finalResult (JObj [("brand", JStr "Nike"); ("suggestedPrice", JNum 1000)])
          (generateUKPricing "Nike" "" 0.5 0.5)) "suggestedPrice"
  = Some (JNum (maxProfitPrice (generateUKPricing "Nike" "" 0.5 0.5))).
Proof.
  destruct (RouteFacts.finalResult_keeps_answer
              [("brand", JStr "Nike"); ("suggestedPrice", JNum 1000)]
              (generateUKPricing "Nike" "" 0.5 0.5) "brand")
    as (Hkept & _ & _ & _ & Hprice).
  - apply NoDup_cons. split; [| apply NoDup_singleton].
    intros Hin. apply list_elem_of_singleton in Hin. discriminate.
  - split; [apply Hkept; discriminate | exact Hprice].
Defined.

Lemma sample_streams_faithful :
  faithful (H := RefJson.codec) rejected_events /\
  faithful (H := RefJson.codec) nike_events.
Proof.
  split.
  - intros event [<- | []]; split; vm_compute; reflexivity.
  - intros event [<- | [<- | [<- | []]]]; split; vm_compute; reflexivity.
Defined.

Lemma model_failure_reaches_screen_witness :
  error_banner (final (proceedToAnalyze (H := RefJson.codec)
                         (answering [sse_body (H := RefJson.codec) rejected_events])
                         one_image))
  = Some "Invalid API key".
Proof.
  destruct (EndToEnd.model_failure_reaches_screen (H := RefJson.codec)
              (answering [sse_body (H := RefJson.codec) rejected_events]) one_image
              "sk-test" (CreateThrows rejected_key) rejected_key 0.5%Q 0.5%Q rejected_events
              [sse_body (H := RefJson.codec) rejected_events])
    as (_ & _ & _ & Hbanner & _).
  - discriminate.
  - reflexivity.
  - reflexivity.
  - discriminate.
  - vm_compute. discriminate.
  - left. reflexivity.
  - vm_compute. reflexivity.
  - reflexivity.
  - vm_compute. reflexivity.
  - apply sample_streams_faithful.
  - apply Hbanner. reflexivity.
Defined.

Lemma successful_analysis_witness :
  exists draft : ListingDraft.t,
    ended (proceedToAnalyze (H := RefJson.codec)
             (answering [sse_body (H := RefJson.codec) nike_events]) one_image)
    = Completed draft /\
    ListingDraft.maxProfitPrice draft
    = JNum (maxProfitPrice (generateUKPricing "Nike" "" 0.5 0.5)).
Proof.
  destruct (EndToEnd.successful_analysis (H := RefJson.codec)
              (answering [sse_body (H := RefJson.codec) nike_events]) one_image
              "sk-test" nike_chunks (JObj [("brand", JStr "Nike")])
              (generateUKPricing "Nike" "" 0.5 0.5) 0.5%Q 0.5%Q nike_events
              [sse_body (H := RefJson.codec) nike_events])
    as (draft & Hend & _ & _ & _ & _ & _ & _ & _ & Hmax & _).
  - discriminate.
  - reflexivity.
  - reflexivity.
  - discriminate.
  - vm_compute. discriminate.
  - vm_compute. reflexivity.
  - reflexivity.
  - vm_compute. reflexivity.
  - reflexivity.
  - vm_compute. reflexivity.
  - apply sample_streams_faithful.
  - reflexivity.
  - exists draft. split; [exact Hend | exact Hmax].
Defined.

Lemma http_error_banner_witness :
  ended (proceedToAnalyze (H := RefJson.codec) (refusing error_body) one_image)
  = Failed (Error error_body) /\
  error_banner (final (proceedToAnalyze (H := RefJson.codec) (refusing error_body) one_image))
  = None.
Proof.
  destruct (EndToEnd.http_error_banner (H := RefJson.codec)
              (refusing error_body) one_image "sk-test" error_body)
    as (Hend & _ & _ & _ & Hnone).
  - discriminate.
  - reflexivity.
  - reflexivity.
  - discriminate.
  - vm_compute. discriminate.
  - reflexivity.
  - split; [exact Hend | apply Hnone; reflexivity].
Defined.

Lemma completed_draft_is_filled_witness :
  ListingDraft.imageUris nike_draft
  = map (chosen_uri (useEnhanced one_image)) (images one_image) /\
  saveDraft (answering [sse_body (H := RefJson.codec) [result_event nike_result]]) nike_draft
  = None.
Proof.
  destruct (DraftFacts.completed_draft_is_filled (H := RefJson.codec)
              (answering [sse_body (H := RefJson.codec) [result_event nike_result]])
              one_image nike_draft)
    as (_ & _ & _ & Huris & _ & Hsaved & _).
  - vm_compute. reflexivity.
  - split; [exact Huris | exact Hsaved].
Defined.


Lemma enhancement_replaces_original_witness :
  originalImages
    (images (addImageFromResult Step_capture "a" "file:///photos/a.jpg" (Some "T1JJRw")
               (EnhanceData (Some "RU5I") (Some "Q09OVg")) initial))
  = ["Q09OVg"].
Proof.
  destruct (SessionMore.enhancement_replaces_original Step_capture "a" "file:///photos/a.jpg"
              "T1JJRw" "RU5I" (Some "Q09OVg") initial) as (_ & _ & Hsent & _).
  - intros [].
  - discriminate.
  - discriminate.
  - exact Hsent.
Defined.

Lemma removed_while_enhancing_attainable : Overlap.attainable removed_while_enhancing.
Proof.
  unfold removed_while_enhancing.
  eapply Overlap.attainable_piece; [| apply Overlap.piece_enhanced].
  eapply Overlap.attainable_piece; [| apply Overlap.piece_remove].
  eapply Overlap.attainable_piece; [| apply Overlap.piece_review].
  eapply Overlap.attainable_piece;
    [| apply Overlap.piece_add; intros [Heq | []]; discriminate].
  eapply Overlap.attainable_piece; [| apply Overlap.piece_add; intros []].
  apply Overlap.attainable_initial.
Qed.

Lemma result_step_has_a_listing_witness :
  result_card removed_while_enhancing = None /\
  step removed_while_enhancing <> Step_result /\
  step removed_while_enhancing <> Step_enhancing.
Proof.
  destruct (SessionMore.result_step_has_a_listing removed_while_enhancing)
    as (_ & Hnone & Henh); [apply removed_while_enhancing_attainable |].
  destruct (Hnone eq_refl) as (Hcard & Hstep).
  split; [exact Hcard |]. split; [exact Hstep | exact Henh].
Defined.

Lemma images_have_flags_witness :
  NoDup (map ImageItem.id (images removed_while_enhancing)) /\
  forall img, In img (images removed_while_enhancing) ->
              is_Some (useEnhanced removed_while_enhancing !! ImageItem.id img).
Proof.
  apply SessionMore.images_have_flags. apply removed_while_enhancing_attainable.
Defined.

Lemma saved_key_passes_the_check_witness :
  ended (proceedToAnalyze (H := RefJson.codec) (answering []) one_image) <> MissingCredential.
Proof.
  destruct (SettingsFacts.saved_key_passes_the_check (H := sample_trim) (H0 := RefJson.codec)
              Settings.Web true typed_key (answering []) one_image "sk-test")
    as (Hpass & _); [reflexivity |].
  apply Hpass. left. reflexivity.
Defined.

Lemma broken_connection_discards_result_witness :
  exists e' : exn,
    ended (proceedToAnalyze (H := RefJson.codec)
             (with_fetch (fun _ _ => FetchBody [sse_body (H := RefJson.codec) nike_events]
                                       (ReadThrows (Error "Network request failed")))
                (answering []))
             one_image) = Failed e' /\
    step (final (proceedToAnalyze (H := RefJson.codec)
                   (with_fetch (fun _ _ => FetchBody [sse_body (H := RefJson.codec) nike_events]
                                             (ReadThrows (Error "Network request failed")))
                      (answering []))
                   one_image)) = Step_review /\
    error (final (proceedToAnalyze (H := RefJson.codec)
                    (with_fetch (fun _ _ => FetchBody [sse_body (H := RefJson.codec) nike_events]
                                              (ReadThrows (Error "Network request failed")))
                       (answering []))
                    one_image)) = Some (shown_error e').
Proof.
  destruct (ReaderFacts.broken_connection_discards_result (H := RefJson.codec)
              (answering []) one_image [sse_body (H := RefJson.codec) nike_events]
              (Error "Network request failed")) as (_ & _ & _ & Hfails).
  apply Hfails.
  - intros Href. vm_compute in Href. destruct Href as [? | [? | ?]]; discriminate.
  - vm_compute. discriminate.
Defined.

Lemma removeImage_selection_witness :
  length (images (removeImage "a" two_images)) = 1%nat /\
  is_Some (selected (removeImage "a" two_images)).
Proof.
  destruct (SessionMore.removeImage_selection "a" two_images) as (Hone & _).
  destruct Hone as (Hlen & Hsel).
  - apply NoDup_cons. split; [| apply NoDup_singleton].
    intros Hin. apply list_elem_of_singleton in Hin. discriminate.
  - left. reflexivity.
  - vm_compute. lia.
  - split; [exact Hlen | apply Hsel; discriminate].
Defined.

Lemma toggle_decides_reference_witness :
  chosen_uri (useEnhanced (pressToggle false one_image)) (enhanced_image "a")
  = "file:///photos/a.jpg" /\
  chosen_uri (useEnhanced (pressToggle true one_image)) (enhanced_image "a")
  = "data:image/jpeg;base64,RU5Ia".
Proof.
  destruct (SessionMore.toggle_decides_reference false one_image) as (Horiginal & _).
  destruct (SessionMore.toggle_decides_reference true one_image) as (Henhanced & _).
  destruct (Horiginal (enhanced_image "a") eq_refl) as (_ & Ho & _).
  destruct (Henhanced (enhanced_image "a") eq_refl) as (_ & He & _).
  split; [exact Ho | exact He].
Defined.

Lemma handleSave_stores_trimmed_key_witness :
  Settings.written (snd (Settings.handleSave (H := sample_trim) Settings.Web true typed_key))
  = ["sk-test"] /\
  Settings.hasExistingKey (fst (Settings.handleSave (H := sample_trim) Settings.Web true
                                  typed_key)) = true.
Proof.
  destruct (SettingsFacts.handleSave_stores_trimmed_key (H := sample_trim)
              Settings.Web true typed_key) as (_ & _ & Hsaved).
  destruct Hsaved as (Hwritten & Hstate & _); [discriminate |].
  destruct (Hstate eq_refl) as (_ & _ & Hexists & _).
  split; [exact Hwritten | exact Hexists].
Defined.

End MoreWitnesses.
